(** * OpenGL_Project: the simulated state of the demo programs

    The repository is a set of independent OpenGL demos.  This development
    embeds the parts of them that carry state between frames or decide what
    [main] prints and returns:

    - [Breakout]  : src/game2D.cpp, the breakout game;
    - [Particles] : src/unnamed/part_000, the particle systems;
    - [Race]      : src/CEStudents.cpp, the running-race animation;
    - [Mains]     : the set-up part of every [main], up to its render loop.

    Numeric model.  The C++ [float] and [double] values are embedded as real
    numbers: arithmetic is exact, there is no rounding, no NaN and no
    infinity, and [sin], [cos] and [sqrt] are the functions of the Standard
    Library's reals.  Comparisons are decided with [Rle_dec] and friends, so
    the embedded functions keep the control flow of the sources.  Values that
    the programs obtain from outside (the C library's [rand()], the uniform
    numbers behind GLM's [linearRand], the GLFW clock and keyboard, the
    results of GLFW, GL and FreeType calls) are arguments of the embedded
    functions.  Drawing changes none of the state embedded here and is left
    out.

    The theorems are kept to what the programs' own operations give in
    binary32 as well: the outcome of a comparison, a clamp, a sign flip, a
    single operation.  Identities that hold only because the arithmetic
    here is exact (a length that is kept, a sum that telescopes, a vector of
    length exactly 1) are not stated. *)

From Stdlib Require Import Reals Lra Lia ZArith List Bool String DecimalString Sorted.
Import ListNotations.

Open Scope string_scope.
Open Scope list_scope.
Open Scope R_scope.

(** ** Comparisons of real numbers as booleans *)

Definition Rleb (a b : R) : bool := if Rle_dec a b then true else false.
Definition Rltb (a b : R) : bool := if Rlt_dec a b then true else false.
Definition Rgeb (a b : R) : bool := if Rge_dec a b then true else false.
Definition Rgtb (a b : R) : bool := if Rgt_dec a b then true else false.

(** ** GLM vectors *)

Module vec2.
Record t : Type := mk { x : R; y : R }.
Definition add (u v : t) : t := mk (x u + x v) (y u + y v).
(** [glm::length] *)
Definition length (v : t) : R := sqrt (x v * x v + y v * y v).
End vec2.

Module vec3.
Record t : Type := mk { x : R; y : R; z : R }.
Definition add (u v : t) : t := mk (x u + x v) (y u + y v) (z u + z v).
Definition scale (v : t) (k : R) : t := mk (x v * k) (y v * k) (z v * k).
End vec3.

(** ** src/game2D.cpp *)

Module Breakout.

(** Game constants *)
Definition PADDLE_WIDTH : R := 0.2.
Definition PADDLE_HEIGHT : R := 0.03.
Definition BALL_SIZE : R := 0.02.
Definition BRICK_WIDTH : R := 0.1.
Definition BRICK_HEIGHT : R := 0.04.
Definition BRICK_ROWS : nat := 5.
Definition BRICK_COLS : nat := 8.
Definition BALL_VELOCITY : R := 0.01.
Definition WAIT_TIME_SECONDS : Z := 240.

Record GameObject : Type := mkGameObject {
  position : vec2.t;
  size : vec2.t;
  color : vec3.t;
  active : bool
}.

Record GameState : Type := mkGameState {
  paddle : GameObject;
  ball : GameObject;
  ballVelocity : vec2.t;
  bricks : list GameObject;
  gameOver : bool;
  score : Z;
  gameStarted : bool;
  startTime : R
}.

(** [score] is a C++ [int]: additions are taken modulo 2^32 into the
    signed range. *)
Definition wrap_int (n : Z) : Z :=
  ((n + 2147483648) mod 4294967296 - 2147483648)%Z.

(** [bool checkCollision(const GameObject& a, const GameObject& b)] *)
Definition checkCollision (a b : GameObject) : bool :=
  let collisionX :=
    Rgeb (vec2.x (position a) + vec2.x (size a) / 2)
         (vec2.x (position b) - vec2.x (size b) / 2)
    && Rgeb (vec2.x (position b) + vec2.x (size b) / 2)
            (vec2.x (position a) - vec2.x (size a) / 2) in
  let collisionY :=
    Rgeb (vec2.y (position a) + vec2.y (size a) / 2)
         (vec2.y (position b) - vec2.y (size b) / 2)
    && Rgeb (vec2.y (position b) + vec2.y (size b) / 2)
            (vec2.y (position a) - vec2.y (size a) / 2) in
  collisionX && collisionY.

(** Field updates of the global [gameState]. *)
Definition set_position (p : vec2.t) (o : GameObject) : GameObject :=
  mkGameObject p (size o) (color o) (active o).
Definition set_active (b : bool) (o : GameObject) : GameObject :=
  mkGameObject (position o) (size o) (color o) b.

Definition set_paddle (o : GameObject) (s : GameState) : GameState :=
  mkGameState o (ball s) (ballVelocity s) (bricks s) (gameOver s) (score s)
              (gameStarted s) (startTime s).
Definition set_ball (o : GameObject) (s : GameState) : GameState :=
  mkGameState (paddle s) o (ballVelocity s) (bricks s) (gameOver s) (score s)
              (gameStarted s) (startTime s).
Definition set_ballVelocity (v : vec2.t) (s : GameState) : GameState :=
  mkGameState (paddle s) (ball s) v (bricks s) (gameOver s) (score s)
              (gameStarted s) (startTime s).
Definition set_bricks (l : list GameObject) (s : GameState) : GameState :=
  mkGameState (paddle s) (ball s) (ballVelocity s) l (gameOver s) (score s)
              (gameStarted s) (startTime s).
Definition set_gameOver (b : bool) (s : GameState) : GameState :=
  mkGameState (paddle s) (ball s) (ballVelocity s) (bricks s) b (score s)
              (gameStarted s) (startTime s).
Definition set_score (n : Z) (s : GameState) : GameState :=
  mkGameState (paddle s) (ball s) (ballVelocity s) (bricks s) (gameOver s) n
              (gameStarted s) (startTime s).
Definition set_gameStarted (b : bool) (s : GameState) : GameState :=
  mkGameState (paddle s) (ball s) (ballVelocity s) (bricks s) (gameOver s)
              (score s) b (startTime s).
Definition set_startTime (t : R) (s : GameState) : GameState :=
  mkGameState (paddle s) (ball s) (ballVelocity s) (bricks s) (gameOver s)
              (score s) (gameStarted s) t.

(** [void resetBall()]; [r] is the value returned by [rand()]. *)
Definition resetBall (r : Z) (s : GameState) : GameState :=
  let b := mkGameObject (vec2.mk 0 (-0.7)) (vec2.mk BALL_SIZE BALL_SIZE)
                        (vec3.mk 1 1 1) (active (ball s)) in
  (* Random angle between -45 and 45 degrees *)
  let angle := IZR (Z.rem r 90 - 45) * 3.14159 / 180 in
  set_ballVelocity (vec2.mk (BALL_VELOCITY * sin angle) BALL_VELOCITY)
                   (set_ball b s).

(** The [switch (row)] of [initGame]: a colour per row. *)
Definition rowColor (row : nat) : vec3.t :=
  match row with
  | 0%nat => vec3.mk 1 0.2 0.2
  | 1%nat => vec3.mk 1 0.6 0.2
  | 2%nat => vec3.mk 1 1 0.2
  | 3%nat => vec3.mk 0.2 1 0.2
  | 4%nat => vec3.mk 0.2 0.4 1
  | _ => vec3.mk 1 1 1
  end.

(** The body of the two nested loops of [initGame]: one brick. *)
Definition newBrick (row col : nat) : GameObject :=
  let x := -0.9 + INR col * (BRICK_WIDTH + 0.02) in
  let y := 0.7 - INR row * (BRICK_HEIGHT + 0.02) in
  mkGameObject (vec2.mk x y) (vec2.mk BRICK_WIDTH BRICK_HEIGHT)
               (rowColor row) true.

(** [bricks.clear()] followed by the loops over rows and columns. *)
Definition newBricks : list GameObject :=
  flat_map (fun row => map (newBrick row) (seq 0 BRICK_COLS))
           (seq 0 BRICK_ROWS).

(** [void initGame()] *)
Definition initGame (r : Z) (s : GameState) : GameState :=
  let p := mkGameObject (vec2.mk 0 (-0.9))
                        (vec2.mk PADDLE_WIDTH PADDLE_HEIGHT)
                        (vec3.mk 0.2 0.6 1) (active (paddle s)) in
  let s := set_paddle p s in
  let s := resetBall r s in
  let s := set_bricks newBricks s in
  let s := set_gameOver false s in
  let s := set_score 0 s in
  set_gameStarted false s.

(** The steps of [updateGame], in the order of the source. *)

(** Update ball position *)
Definition moveBall (s : GameState) : GameState :=
  set_ball (set_position (vec2.add (position (ball s)) (ballVelocity s))
                         (ball s)) s.

(** Check for collisions with walls *)
Definition bounceWalls (s : GameState) : GameState :=
  let b := ball s in
  let s :=
    if Rltb (vec2.x (position b) - vec2.x (size b) / 2) (-1)
       || Rgtb (vec2.x (position b) + vec2.x (size b) / 2) 1
    then set_ballVelocity (vec2.mk (- vec2.x (ballVelocity s))
                                   (vec2.y (ballVelocity s))) s
    else s in
  if Rgtb (vec2.y (position b) + vec2.y (size b) / 2) 1
  then set_ballVelocity (vec2.mk (vec2.x (ballVelocity s))
                                 (- vec2.y (ballVelocity s))) s
  else s.

(** The reflection off the paddle: the body of
    [if (checkCollision(gameState.ball, gameState.paddle))]. *)
Definition reflect (s : GameState) : vec2.t :=
  let hitPos := (vec2.x (position (ball s)) - vec2.x (position (paddle s)))
                / (vec2.x (size (paddle s)) / 2) in
  let angle := hitPos * 60 * 3.14159 / 180 in
  let speed := vec2.length (ballVelocity s) in
  let vx := speed * sin angle in
  let vy := speed * cos angle in
  (* Ensure ball is moving upward *)
  if Rltb vy 0 then vec2.mk vx (- vy) else vec2.mk vx vy.

(** Check for collision with paddle *)
Definition bouncePaddle (s : GameState) : GameState :=
  if checkCollision (ball s) (paddle s)
  then set_ballVelocity (reflect s) s
  else s.

(** The loop over the bricks: the first active brick that the ball touches
    is switched off and the loop is left ([break]).  The result says
    whether a brick was hit. *)
Fixpoint hitFirst (b : GameObject) (l : list GameObject)
  : list GameObject * bool :=
  match l with
  | [] => ([], false)
  | brick :: rest =>
      if active brick && checkCollision b brick
      then (set_active false brick :: rest, true)
      else let (rest', hit) := hitFirst b rest in (brick :: rest', hit)
  end.

(** Check for collisions with bricks *)
Definition hitBricks (s : GameState) : GameState :=
  let (l, hit) := hitFirst (ball s) (bricks s) in
  if hit
  then set_score (wrap_int (score s + 10))
         (set_ballVelocity (vec2.mk (vec2.x (ballVelocity s))
                                    (- vec2.y (ballVelocity s)))
            (set_bricks l s))
  else set_bricks l s.

(** Check if ball fell below screen *)
Definition checkFell (s : GameState) : GameState :=
  if Rltb (vec2.y (position (ball s)) - vec2.y (size (ball s)) / 2) (-1)
  then set_gameOver true s
  else s.

(** The second loop over the bricks. *)
Definition allBricksDestroyed (s : GameState) : bool :=
  forallb (fun brick => negb (active brick)) (bricks s).

(** Check if all bricks are destroyed *)
Definition checkCleared (r : Z) (s : GameState) : GameState :=
  if allBricksDestroyed s
  then set_gameStarted true (initGame r s)
  else s.

(** [void updateGame(double currentTime)]; the argument is not used by the
    source.  [r] is what [rand()] returns if [initGame] runs. *)
Definition updateGame (r : Z) (s : GameState) : GameState :=
  checkCleared r
    (checkFell (hitBricks (bouncePaddle (bounceWalls (moveBall s))))).

(** The keys that [processInput] polls. *)
Record Keys : Type := mkKeys {
  KEY_ESCAPE : bool;
  KEY_LEFT : bool;
  KEY_RIGHT : bool
}.

Definition set_paddle_x (x : R) (s : GameState) : GameState :=
  set_paddle (set_position (vec2.mk x (vec2.y (position (paddle s))))
                           (paddle s)) s.

Definition moveLeft (s : GameState) : GameState :=
  let s := set_paddle_x (vec2.x (position (paddle s)) - 0.03) s in
  if Rltb (vec2.x (position (paddle s)) - vec2.x (size (paddle s)) / 2) (-1)
  then set_paddle_x (-1 + vec2.x (size (paddle s)) / 2) s
  else s.

Definition moveRight (s : GameState) : GameState :=
  let s := set_paddle_x (vec2.x (position (paddle s)) + 0.03) s in
  if Rgtb (vec2.x (position (paddle s)) + vec2.x (size (paddle s)) / 2) 1
  then set_paddle_x (1 - vec2.x (size (paddle s)) / 2) s
  else s.

(** What the render loop carries from frame to frame: the global
    [gameState], the window's close flag, the [static int lastSecond] of
    [displayCountdown] and what was written to [std::cout], one entry for
    each output statement run: a line without its [std::endl], or the text
    of [displayCountdown], which starts with a carriage return and ends no
    line. *)
Record Loop : Type := mkLoop {
  game : GameState;
  shouldClose : bool;
  lastSecond : Z;
  console : list string
}.

Definition set_game (g : GameState) (l : Loop) : Loop :=
  mkLoop g (shouldClose l) (lastSecond l) (console l).
Definition print (line : string) (l : Loop) : Loop :=
  mkLoop (game l) (shouldClose l) (lastSecond l) (console l ++ [line]).

(** [void processInput(GLFWwindow* window)] *)
Definition processInput (k : Keys) (l : Loop) : Loop :=
  let l := if KEY_ESCAPE k
           then mkLoop (game l) true (lastSecond l) (console l)
           else l in
  (* Only process paddle movement if game has started *)
  if gameStarted (game l)
  then
    let g := game l in
    let g := if KEY_LEFT k then moveLeft g else g in
    let g := if KEY_RIGHT k then moveRight g else g in
    set_game g l
  else l.

(** [static_cast<int>] of a [double]: truncation towards zero. *)
Definition truncate (r : R) : Z :=
  if Rle_dec 0 r then Int_part r else (- Int_part (- r))%Z.

Definition showInt (n : Z) : string :=
  NilZero.string_of_int (Z.to_int n).

(** [std::setfill('0') << std::setw(2)] *)
Definition pad2 (s : string) : string :=
  match String.length s with
  | 0%nat => "00" ++ s
  | 1%nat => "0" ++ s
  | _ => s
  end%string.

Definition CR : string := String (Ascii.ascii_of_nat 13) EmptyString.
Definition LF : string := String (Ascii.ascii_of_nat 10) EmptyString.

(** [void displayCountdown(double remainingTime)] *)
Definition displayCountdown (remainingTime : R) (l : Loop) : Loop :=
  let currentSecond := truncate remainingTime in
  if Z.eqb currentSecond (lastSecond l) then l
  else
    let minutes := Z.quot currentSecond 60 in
    let seconds := Z.rem currentSecond 60 in
    print (CR ++ "Waiting to start game: " ++ showInt minutes ++ ":"
              ++ pad2 (showInt seconds))%string
          (mkLoop (game l) (shouldClose l) currentSecond (console l)).

(** What one iteration of the render loop reads from outside. *)
Record Frame : Type := mkFrame {
  keys : Keys;
  glfwGetTime : R;
  rand : Z;
  closeRequested : bool   (* the window was closed, seen by glfwPollEvents *)
}.

(** One iteration of the render loop of [main].  Drawing does not touch
    the state and is left out. *)
Definition frame (f : Frame) (l : Loop) : Loop :=
  let l := processInput (keys f) l in
  let currentTime := glfwGetTime f in
  let elapsedTime := currentTime - startTime (game l) in
  let l :=
    if Rgeb elapsedTime (IZR WAIT_TIME_SECONDS)
    then
      let l := if gameStarted (game l) then l
               else set_game (set_gameStarted true (game l))
                             (print "Game started!" l) in
      set_game (updateGame (rand f) (game l)) l
    else displayCountdown (IZR WAIT_TIME_SECONDS - elapsedTime) l in
  if closeRequested f
  then mkLoop (game l) true (lastSecond l) (console l)
  else l.

(** [while (!glfwWindowShouldClose(window) && !gameState.gameOver)] over
    the frames the environment offers. *)
Fixpoint renderLoop (frames : list Frame) (l : Loop) : Loop :=
  match frames with
  | [] => l
  | f :: rest =>
      if shouldClose l || gameOver (game l) then l
      else renderLoop rest (frame f l)
  end.

(** What the set-up part of [main] gets from GLFW, GLAD and GL. *)
Record Startup : Type := mkStartup {
  glfwInit : bool;
  glfwCreateWindow : bool;
  gladLoadGLLoader : bool;
  vertexCompiled : bool;
  vertexInfoLog : string;
  fragmentCompiled : bool;
  fragmentInfoLog : string;
  programLinked : bool;
  programInfoLog : string;
  glCreateProgram : N;       (* the id of the program object *)
  startRand : Z;             (* rand() in the first initGame *)
  startClock : R             (* glfwGetTime() before the loop *)
}.

(** The global [GameState gameState;] before [initGame]: static storage is
    zeroed, then the default member initializers run. *)
Definition zeroObject : GameObject :=
  mkGameObject (vec2.mk 0 0) (vec2.mk 0 0) (vec3.mk 0 0 0) true.
Definition gameState0 : GameState :=
  mkGameState zeroObject zeroObject (vec2.mk 0 0) [] false 0 false 0.

(** The three checks of the shader build: each prints its log on failure
    and goes on. *)
Definition shaderErrors (e : Startup) : list string :=
  (if vertexCompiled e then []
   else ["ERROR::SHADER::VERTEX::COMPILATION_FAILED" ++ LF
           ++ vertexInfoLog e])%string
  ++ (if fragmentCompiled e then []
      else ["ERROR::SHADER::FRAGMENT::COMPILATION_FAILED" ++ LF
              ++ fragmentInfoLog e])%string
  ++ (if programLinked e then []
      else ["ERROR::SHADER::PROGRAM::LINKING_FAILED" ++ LF
              ++ programInfoLog e])%string.

(** How the set-up part of [main] ends: with a [return], or at the render
    loop with the program object it will draw with. *)
Inductive Started : Type :=
| Return (console : list string) (status : Z)
| Enter (shaderProgram : N) (l : Loop).

(** [main] up to the render loop. *)
Definition setup (e : Startup) : Started :=
  if negb (glfwInit e) then Return ["Failed to initialize GLFW"] (-1)
  else if negb (glfwCreateWindow e)
  then Return ["Failed to create GLFW window"] (-1)
  else if negb (gladLoadGLLoader e)
  then Return ["Failed to initialize GLAD"] (-1)
  else
    let out := shaderErrors e in
    let shaderProgram := glCreateProgram e in
    let g := set_startTime (startClock e) (initGame (startRand e) gameState0) in
    Enter shaderProgram
          (mkLoop g false (-1)
                  (out ++ ["Game will start in 4 minutes. Please wait..."])).

(** [int main()]: what it has written and the status it returns.  The render
    loop is left only when the window is to close or the game is over; when
    the frames given end before that, [main] is still in its loop and has
    returned nothing. *)
Definition main (e : Startup) (frames : list Frame)
  : option (list string * Z) :=
  match setup e with
  | Return out status => Some (out, status)
  | Enter _ l =>
      let l := renderLoop frames l in
      if shouldClose l || gameOver (game l)
      then
        (* Display final score *)
        let l := if gameStarted (game l)
                 then print ("Game Over! Final Score: "
                               ++ showInt (score (game l)))%string l
                 else print "Game closed before starting." l in
        Some (console l, 0%Z)
      else None
  end.

End Breakout.

(** ** src/unnamed/part_000: the particle systems *)

Module Particles.

(** What one call of [spawnParticle] draws from outside: the uniform
    numbers behind its successive [glm::linearRand] calls, the value of
    [rand()], and whatever the field it leaves unset happens to hold. *)
Record Draws : Type := mkDraws {
  uniform : nat -> R;
  coin : Z;
  garbage : R
}.

(** [glm::linearRand(Min, Max)] scales a uniform draw [u] of the unit
    interval into [Min, Max]. *)
Definition linearRand (Min Max : R) (u : R) : R := u * (Max - Min) + Min.

(** [glm::mix(x, y, a)] *)
Definition mix (x y a : R) : R := x * (1 - a) + y * a.

Record Particle : Type := mkParticle {
  position : vec3.t;
  velocity : vec3.t;
  color : vec3.t;
  size : R;
  life : R;
  maxLife : R;
  userData : R
}.

(** The dynamic type of a system: it selects the overrides of
    [spawnParticle] and [update]. *)
Inductive SystemKind : Type :=
| RainSystem | WaterfallSystem | FireSystem | DustSystem
| CoffeeCeremonySystem.

Record ParticleSystem : Type := mkParticleSystem {
  kind : SystemKind;
  particles : list Particle;
  maxParticles : nat;
  origin : vec3.t;
  originVariation : vec3.t;
  gravity : vec3.t;
  spawnRate : R;
  timeSinceLastSpawn : R;
  isActive : bool;
  jebenaPosition : vec3.t       (* member of CoffeeCeremonySystem only *)
}.

Definition set_particles (l : list Particle) (s : ParticleSystem)
  : ParticleSystem :=
  mkParticleSystem (kind s) l (maxParticles s) (origin s)
    (originVariation s) (gravity s) (spawnRate s) (timeSinceLastSpawn s)
    (isActive s) (jebenaPosition s).
Definition set_timeSinceLastSpawn (t : R) (s : ParticleSystem)
  : ParticleSystem :=
  mkParticleSystem (kind s) (particles s) (maxParticles s) (origin s)
    (originVariation s) (gravity s) (spawnRate s) t (isActive s)
    (jebenaPosition s).
Definition set_life (t : R) (p : Particle) : Particle :=
  mkParticle (position p) (velocity p) (color p) (size p) t (maxLife p)
             (userData p).

(** [particles.push_back(p)] *)
Definition push_back (p : Particle) (s : ParticleSystem) : ParticleSystem :=
  set_particles (particles s ++ [p]) s.

(** The offset around the origin that four of the five systems draw. *)
Definition scatter (v : vec3.t) (d : Draws) : vec3.t :=
  vec3.mk (linearRand (- vec3.x v) (vec3.x v) (uniform d 0))
          (linearRand (- vec3.y v) (vec3.y v) (uniform d 1))
          (linearRand (- vec3.z v) (vec3.z v) (uniform d 2)).

(** [RainSystem::spawnParticle] *)
Definition RainSystem_spawnParticle (d : Draws) (s : ParticleSystem)
  : ParticleSystem :=
  let position := vec3.add (origin s) (scatter (originVariation s) d) in
  let velocity := vec3.mk 0 (-5) 0 in
  let blueVariation := linearRand 0.8 1 (uniform d 3) in
  let color := vec3.mk 0.3 0.5 blueVariation in
  let size := linearRand 0.1 0.2 (uniform d 4) in
  let life := linearRand 1 2 (uniform d 5) in
  push_back (mkParticle position velocity color size life life (garbage d)) s.

(** [WaterfallSystem::spawnParticle] *)
Definition WaterfallSystem_spawnParticle (d : Draws) (s : ParticleSystem)
  : ParticleSystem :=
  let position := vec3.add (origin s) (scatter (originVariation s) d) in
  let angle := linearRand 0 (2 * PI) (uniform d 3) in
  let velocity := vec3.mk (sin angle * 0.3)
                          (linearRand (-1) 0 (uniform d 4))
                          (cos angle * 0.3 + linearRand 0 2 (uniform d 5)) in
  let greenVariation := linearRand 0.6 0.8 (uniform d 6) in
  let blueVariation := linearRand 0.7 0.9 (uniform d 7) in
  let color := vec3.mk 0.2 greenVariation blueVariation in
  let size := linearRand 0.3 0.6 (uniform d 8) in
  let life := linearRand 2 4 (uniform d 9) in
  push_back (mkParticle position velocity color size life life (garbage d)) s.

(** [FireSystem::spawnParticle] *)
Definition FireSystem_spawnParticle (d : Draws) (s : ParticleSystem)
  : ParticleSystem :=
  let v := originVariation s in
  let position :=
    vec3.add (origin s)
      (vec3.mk (linearRand (- vec3.x v * 1.5) (vec3.x v * 1.5) (uniform d 0))
               (linearRand (- vec3.y v) (vec3.y v) (uniform d 1))
               (linearRand (- vec3.z v * 1.5) (vec3.z v * 1.5) (uniform d 2))) in
  let angle := linearRand 0 (2 * PI) (uniform d 3) in
  let dispersionForce := linearRand 0.5 1.5 (uniform d 4) in
  let velocity := vec3.mk (cos angle * dispersionForce)
                          (linearRand 0.5 2 (uniform d 5))
                          (sin angle * dispersionForce) in
  let t := linearRand 0 1 (uniform d 6) in
  let color := if Rltb t 0.6
               then vec3.mk 1 (linearRand 0.1 0.3 (uniform d 7)) 0
               else vec3.mk 1 (linearRand 0.4 0.7 (uniform d 7)) 0 in
  let size := linearRand 0.5 1 (uniform d 8) in
  let life := linearRand 0.5 1.5 (uniform d 9) in
  push_back (mkParticle position velocity color size life life (garbage d)) s.

(** [DustSystem::spawnParticle] *)
Definition DustSystem_spawnParticle (d : Draws) (s : ParticleSystem)
  : ParticleSystem :=
  let position := vec3.add (origin s) (scatter (originVariation s) d) in
  let angle := linearRand 0 (2 * PI) (uniform d 3) in
  let speed := linearRand 0.05 0.2 (uniform d 4) in
  let velocity := vec3.mk (cos angle * speed)
                          (linearRand (-0.05) 0.1 (uniform d 5))
                          (sin angle * speed) in
  let brownVariation := linearRand 0.8 1 (uniform d 6) in
  let color := vec3.mk (0.9 * brownVariation) (0.7 * brownVariation)
                       (0.5 * brownVariation) in
  let size := linearRand 0.2 0.4 (uniform d 7) in
  let life := linearRand 5 10 (uniform d 8) in
  push_back (mkParticle position velocity color size life life (garbage d)) s.

(** [CoffeeCeremonySystem::spawnParticle] *)
Definition CoffeeCeremonySystem_spawnParticle (d : Draws) (s : ParticleSystem)
  : ParticleSystem :=
  let position :=
    vec3.add (origin s)
      (vec3.mk (linearRand (-0.03) 0.03 (uniform d 0))
               (linearRand 0 0.03 (uniform d 1))
               (linearRand (-0.03) 0.03 (uniform d 2))) in
  let leftStream := Z.eqb (Z.rem (coin d) 2) 0 in
  let angle := if leftStream then -0.2 else 0.2 in
  let velocity := vec3.mk angle (linearRand 0.7 0.9 (uniform d 3)) 0 in
  let userData := if leftStream then 0 else 1 in
  let grayValue := linearRand 0.75 0.85 (uniform d 4) in
  let color := vec3.mk grayValue grayValue grayValue in
  let size := linearRand 0.15 0.25 (uniform d 5) in
  let life := linearRand 4 6 (uniform d 6) in
  push_back (mkParticle position velocity color size life life userData) s.

(** The virtual call [spawnParticle()]. *)
Definition spawnParticle (d : Draws) (s : ParticleSystem) : ParticleSystem :=
  match kind s with
  | RainSystem => RainSystem_spawnParticle d s
  | WaterfallSystem => WaterfallSystem_spawnParticle d s
  | FireSystem => FireSystem_spawnParticle d s
  | DustSystem => DustSystem_spawnParticle d s
  | CoffeeCeremonySystem => CoffeeCeremonySystem_spawnParticle d s
  end.

(** The loop "Update existing particles", shared by both [update]s:
    [it->life -= dt], then either [erase] or the [else] branch [move].
    [calls] counts the particles that took the [else] branch so far, which
    in the coffee system is the number of [glfwGetTime()] calls made. *)
Fixpoint ageParticles (move : nat -> Particle -> Particle) (dt : R)
         (calls : nat) (l : list Particle) : list Particle :=
  match l with
  | [] => []
  | p :: rest =>
      let p := set_life (life p - dt) p in
      if Rleb (life p) 0
      then ageParticles move dt calls rest
      else move calls p :: ageParticles move dt (S calls) rest
  end.

(** The loop "Spawn new particles based on rate and max count".  It adds a
    particle per turn and stops at [maxParticles] at the latest, so
    [maxParticles - particles.size()] turns are all it can take; [fuel]
    is given that value.  [k] numbers the [spawnParticle] calls. *)
Fixpoint spawnLoop (fuel : nat) (rnd : nat -> Draws) (k : nat)
         (s : ParticleSystem) : ParticleSystem :=
  match fuel with
  | O => s
  | S fuel =>
      if Rgeb (timeSinceLastSpawn s) (spawnRate s)
         && (List.length (particles s) <? maxParticles s)%nat
      then
        let s := spawnParticle (rnd k) s in
        spawnLoop fuel rnd (S k)
          (set_timeSinceLastSpawn (timeSinceLastSpawn s - spawnRate s) s)
      else s
  end.

Definition spawnDue (rnd : nat -> Draws) (s : ParticleSystem)
  : ParticleSystem :=
  spawnLoop (maxParticles s - List.length (particles s)) rnd 0 s.

(** What a call of [update] reads from outside: its argument, the draws of
    the particles it spawns, and the clock readings of [glfwGetTime()]. *)
Record Tick : Type := mkTick {
  dt : R;
  rnd : nat -> Draws;
  glfwGetTime : nat -> R
}.

(** The [else] branch of [ParticleSystem::update]. *)
Definition fall (gravity : vec3.t) (dt : R) (p : Particle) : Particle :=
  let velocity := vec3.add (velocity p) (vec3.scale gravity dt) in
  let position := vec3.add (position p) (vec3.scale velocity dt) in
  mkParticle position velocity (color p) (size p) (life p) (maxLife p)
             (userData p).

(** [ParticleSystem::update] *)
Definition ParticleSystem_update (t : Tick) (s : ParticleSystem)
  : ParticleSystem :=
  if negb (isActive s) then s
  else
    let s := set_particles
               (ageParticles (fun _ => fall (gravity s) (dt t)) (dt t) 0
                             (particles s)) s in
    let s := set_timeSinceLastSpawn (timeSinceLastSpawn s + dt t) s in
    spawnDue (rnd t) s.

(** The [else] branch of [CoffeeCeremonySystem::update]. *)
Definition drift (gravity jebena : vec3.t) (dt : R) (time : R) (p : Particle)
  : Particle :=
  let velocity := vec3.add (velocity p)
                           (vec3.scale (vec3.scale gravity dt) 0.7) in
  let leftStream := Rltb (userData p) 0.5 in
  let heightRatio := vec3.y (position p) - vec3.y jebena in
  let waveFreq := if leftStream then 2.5 else 3.2 in
  let waveAmp := 0.2 * Rmin 1 (heightRatio / 2) in
  let zigzagX := sin (time * waveFreq + heightRatio * 2) * waveAmp in
  let zigzagZ :=
    cos (time * waveFreq * 0.7 + heightRatio * 1.5) * waveAmp * 0.5 in
  let zigzagMotion := vec3.scale (vec3.mk zigzagX 0 zigzagZ) dt in
  let basePathX := (if leftStream then -0.2 else 0.2) * heightRatio in
  let pathForce := 0.3 * dt in
  let targetX := vec3.x jebena + basePathX + zigzagX * 3 in
  let targetZ := vec3.z jebena + zigzagZ * 3 in
  let pathCorrection :=
    vec3.mk ((targetX - vec3.x (position p)) * pathForce) 0
            ((targetZ - vec3.z (position p)) * pathForce) in
  let position :=
    vec3.add (position p)
             (vec3.add (vec3.add (vec3.scale velocity dt) zigzagMotion)
                       pathCorrection) in
  let heightFactor := Rmin 1 (heightRatio / 3) in
  let grayValue := mix 0.8 0.95 heightFactor in
  mkParticle position velocity (vec3.mk grayValue grayValue grayValue)
             (size p) (life p) (maxLife p) (userData p).

(** [CoffeeCeremonySystem::update] *)
Definition CoffeeCeremonySystem_update (t : Tick) (s : ParticleSystem)
  : ParticleSystem :=
  if negb (isActive s) then s
  else
    let s := set_particles
               (ageParticles
                  (fun k => drift (gravity s) (jebenaPosition s) (dt t)
                                  (glfwGetTime t k))
                  (dt t) 0 (particles s)) s in
    let s := set_timeSinceLastSpawn (timeSinceLastSpawn s + dt t) s in
    spawnDue (rnd t) s.

(** The virtual call [update(dt)]. *)
Definition update (t : Tick) (s : ParticleSystem) : ParticleSystem :=
  match kind s with
  | CoffeeCeremonySystem => CoffeeCeremonySystem_update t s
  | _ => ParticleSystem_update t s
  end.

(** The constructor of the base class. *)
Definition ParticleSystem_new (k : SystemKind) (max : nat)
           (orig origVar grav : vec3.t) (rate : R) : ParticleSystem :=
  mkParticleSystem k [] max orig origVar grav rate 0 true (vec3.mk 0 0 0).

(** "Pre-populate with some particles": [maxParticles / 4] calls of
    [spawnParticle]. *)
Definition prepopulate (rnd : nat -> Draws) (s : ParticleSystem)
  : ParticleSystem :=
  fold_left (fun s i => spawnParticle (rnd i) s)
            (seq 0 (maxParticles s / 4)) s.

(** The constructors of the five systems. *)
Definition create (k : SystemKind) (rnd : nat -> Draws) : ParticleSystem :=
  match k with
  | RainSystem =>
      prepopulate rnd
        (ParticleSystem_new RainSystem 1000 (vec3.mk 0 10 0)
           (vec3.mk 10 0 10) (vec3.mk 0 (-9.8) 0) 0.001)
  | WaterfallSystem =>
      prepopulate rnd
        (ParticleSystem_new WaterfallSystem 2000 (vec3.mk 0 5 (-5))
           (vec3.mk 2 0.1 0.1) (vec3.mk 0 (-9.8) 0) 0.0005)
  | FireSystem =>
      prepopulate rnd
        (ParticleSystem_new FireSystem 800 (vec3.mk 0 0 (-2))
           (vec3.mk 1 0.1 1) (vec3.mk 0 2 0) 0.0005)
  | DustSystem =>
      prepopulate rnd
        (ParticleSystem_new DustSystem 600 (vec3.mk 0 0.1 0)
           (vec3.mk 10 0.1 10) (vec3.mk 0 0.05 0) 0.01)
  | CoffeeCeremonySystem =>
      let s := ParticleSystem_new CoffeeCeremonySystem 500
                 (vec3.mk 0 0.2 (-2.5)) (vec3.mk 0.05 0.02 0.05)
                 (vec3.mk 0 0.4 0) 0.008 in
      let jebena := vec3.mk 0 0.2 (-2.5) in
      let s := mkParticleSystem (kind s) (particles s) (maxParticles s)
                 jebena (originVariation s) (gravity s) (spawnRate s)
                 (timeSinceLastSpawn s) (isActive s) jebena in
      prepopulate rnd s
  end.

(** The capacity each constructor passes to the base class. *)
Definition capacity (k : SystemKind) : nat :=
  match k with
  | RainSystem => 1000
  | WaterfallSystem => 2000
  | FireSystem => 800
  | DustSystem => 600
  | CoffeeCeremonySystem => 500
  end.

(** A sequence of [update] calls on one system. *)
Definition updates (ticks : list Tick) (s : ParticleSystem)
  : ParticleSystem :=
  fold_left (fun s t => update t s) ticks s.

(** The draws of a tick are uniform numbers of the unit interval. *)
Definition unitDraws (rnd : nat -> Draws) : Prop :=
  forall k i : nat, 0 <= uniform (rnd k) i <= 1.

(** A particle that the update loop keeps: its life after [life -= dt] is
    positive. *)
Definition survives (dt : R) (p : Particle) : bool :=
  negb (Rleb (life p - dt) 0).

(** A survivor of [update(dt)]: the same particle, [dt] older. *)
Definition aged (dt : R) (old new : Particle) : Prop :=
  life new = life old - dt /\ size new = size old /\
  maxLife new = maxLife old /\ userData new = userData old.

(** The [else] branches move and recolour a particle; its life, size,
    maximal life and user data are not theirs to change. *)
Definition keeps (move : nat -> Particle -> Particle) : Prop :=
  forall (k : nat) (p : Particle),
    life (move k p) = life p /\ size (move k p) = size p /\
    maxLife (move k p) = maxLife p /\ userData (move k p) = userData p.

(** What the systems keep for good: type and capacity. *)
Definition sameShape (s s' : ParticleSystem) : Prop :=
  kind s' = kind s /\ maxParticles s' = maxParticles s.

Definition withinCapacity (s : ParticleSystem) : Prop :=
  (List.length (particles s) <= maxParticles s)%nat.

End Particles.

(** ** src/CEStudents.cpp: the running race

    The camera globals, which [processInput] and the mouse callbacks move,
    are separate from the race and are left out, and so is the loaded
    [HumanModel] of a student.  The file calls [initializeStudents] and
    [renderStudent] without defining them; the copy of the program kept with
    src/compile_scene3D.bat defines both, and they are taken from there:
    [renderStudent] only reads the student it draws. *)

Module Race.

(** Track settings *)
Definition NUM_TRACKS : nat := 5.
Definition NUM_STUDENTS : nat := 32.
Definition TRACK_LENGTH : R := 50.

Record Student : Type := mkStudent {
  name : string;
  trackNumber : nat;
  position : R;
  speed : R;
  armPhase : R;
  legPhase : R;
  color : vec3.t;
  finishTime : R;
  finished : bool
}.

(** The names of [initializeStudents]. *)
Definition names : list string :=
  [ "Alex"; "Ben"; "Charlie"; "David"; "Emma"; "Frank"; "Grace"; "Hannah";
    "Ian"; "Jack"; "Kate"; "Liam"; "Mia"; "Noah"; "Olivia"; "Peter";
    "Quinn"; "Ryan"; "Sarah"; "Tom"; "Uma"; "Victor"; "Wendy"; "Xander";
    "Yara"; "Zack"; "Amy"; "Bob"; "Chloe"; "Dan"; "Eve"; "Finn" ].

(** [students[i] = ...]: an index past the end of a [std::vector] has no
    defined behaviour, which is [None] here. *)
Fixpoint assign (l : list Student) (i : nat) (f : Student -> Student)
  : option (list Student) :=
  match l, i with
  | [], _ => None
  | s :: rest, O => Some (f s :: rest)
  | s :: rest, S i =>
      match assign rest i f with
      | Some rest' => Some (s :: rest')
      | None => None
      end
  end.

Section Libc.
(** The C library's [RAND_MAX]. *)
Variable RAND_MAX : Z.

(** The body of the loop of [initializeStudents] for index [i]; [rand]
    gives the results of the [rand()] calls of the whole loop, in
    order. *)
Definition initStudent (rand : nat -> Z) (i : nat) (s : Student) : Student :=
  let name := nth (i mod List.length names) names "" in
  let trackNumber := (i mod NUM_TRACKS)%nat in
  (* Stagger positions *)
  let position := TRACK_LENGTH / 2 - INR (i / NUM_TRACKS) * 2 in
  let speed := 2 + IZR (rand (5 * i)%nat) / (IZR RAND_MAX / 2) in
  let armPhase :=
    IZR (rand (5 * i + 1)%nat) / IZR RAND_MAX * 2 * 3.14159 in
  let legPhase := armPhase + 3.14159 in
  let r := 0.3 + IZR (rand (5 * i + 2)%nat) / (IZR RAND_MAX / 0.7) in
  let g := 0.3 + IZR (rand (5 * i + 3)%nat) / (IZR RAND_MAX / 0.7) in
  let b := 0.3 + IZR (rand (5 * i + 4)%nat) / (IZR RAND_MAX / 0.7) in
  mkStudent name trackNumber position speed armPhase legPhase
            (vec3.mk r g b) 0 false.

(** [for (int i = ...; i < NUM_STUDENTS; i++)], with [count] turns to
    go. *)
Fixpoint initLoop (rand : nat -> Z) (i count : nat) (l : list Student)
  : option (list Student) :=
  match count with
  | O => Some l
  | S count =>
      match assign l i (initStudent rand i) with
      | Some l => initLoop rand (S i) count l
      | None => None
      end
  end.

(** [void initializeStudents(std::vector<Student>& students)] *)
Definition initializeStudents (rand : nat -> Z) (l : list Student)
  : option (list Student) :=
  initLoop rand 0 NUM_STUDENTS l.

(** The race: the [students] of [main], the globals of the race state,
    the [static] flags of [processInput], the window's close flag and
    what was written to [std::cout]. *)
Record State : Type := mkState {
  students : list Student;
  raceStarted : bool;
  raceFinished : bool;
  raceStartTime : R;
  deltaTime : R;
  lastFrame : R;
  spacePressed : bool;
  rPressed : bool;
  shouldClose : bool;
  console : list string
}.

(** [void resetRace(std::vector<Student>& students)] *)
Definition resetRace (rand : nat -> Z) (st : State) : option State :=
  match initializeStudents rand (students st) with
  | Some l =>
      Some (mkState l false false (raceStartTime st) (deltaTime st)
              (lastFrame st) (spacePressed st) (rPressed st)
              (shouldClose st) (console st))
  | None => None
  end.

(** What a frame reads from outside. *)
Record Input : Type := mkInput {
  KEY_ESCAPE : bool;
  KEY_SPACE : bool;
  KEY_R : bool;
  glfwGetTime : R;        (* the reading at the top of the frame *)
  glfwGetTime' : R;       (* the reading inside processInput *)
  rand : nat -> Z
}.

Definition print (line : string) (st : State) : State :=
  mkState (students st) (raceStarted st) (raceFinished st)
    (raceStartTime st) (deltaTime st) (lastFrame st) (spacePressed st)
    (rPressed st) (shouldClose st) (console st ++ [line]).

(** The race control keys of [processInput]: the space bar. *)
Definition spaceKey (i : Input) (st : State) : State :=
  if KEY_SPACE i
  then
    if spacePressed st then st
    else
      let st := mkState (students st) (raceStarted st) (raceFinished st)
                  (raceStartTime st) (deltaTime st) (lastFrame st) true
                  (rPressed st) (shouldClose st) (console st) in
      if negb (raceStarted st)
      then print "Race started!"
             (mkState (students st) true (raceFinished st)
                (glfwGetTime' i) (deltaTime st) (lastFrame st)
                (spacePressed st) (rPressed st) (shouldClose st)
                (console st))
      else if negb (raceFinished st)
      then print "Race paused!"
             (mkState (students st) false (raceFinished st)
                (raceStartTime st) (deltaTime st) (lastFrame st)
                (spacePressed st) (rPressed st) (shouldClose st)
                (console st))
      else st
  else mkState (students st) (raceStarted st) (raceFinished st)
         (raceStartTime st) (deltaTime st) (lastFrame st) false
         (rPressed st) (shouldClose st) (console st).

Definition set_rPressed (b : bool) (st : State) : State :=
  mkState (students st) (raceStarted st) (raceFinished st)
    (raceStartTime st) (deltaTime st) (lastFrame st) (spacePressed st) b
    (shouldClose st) (console st).

(** Reset race with R key *)
Definition rKey (i : Input) (st : State) : option State :=
  if KEY_R i
  then
    if rPressed st then Some st
    else
      match resetRace (rand i) (set_rPressed true st) with
      | Some st => Some (print "Race reset!" st)
      | None => None
      end
  else Some (set_rPressed false st).

(** [void processInput(GLFWwindow* window, std::vector<Student>&)] *)
Definition processInput (i : Input) (st : State) : option State :=
  let st :=
    if KEY_ESCAPE i
    then mkState (students st) (raceStarted st) (raceFinished st)
           (raceStartTime st) (deltaTime st) (lastFrame st)
           (spacePressed st) (rPressed st) true (console st)
    else st in
  rKey i (spaceKey i st).

(** The body of the loop "Update and render students". *)
Definition stepStudent (deltaTime currentFrame : R) (s : Student) : Student :=
  if negb (finished s)
  then
    let position := position s - speed s * deltaTime in
    if Rleb position (- TRACK_LENGTH / 2)
    then mkStudent (name s) (trackNumber s) position (speed s) (armPhase s)
           (legPhase s) (color s) currentFrame true
    else mkStudent (name s) (trackNumber s) position (speed s) (armPhase s)
           (legPhase s) (color s) (finishTime s) (finished s)
  else s.

(** One iteration of the render loop of [main]. *)
Definition frame (i : Input) (st : State) : option State :=
  let currentFrame := glfwGetTime i in
  let st := mkState (students st) (raceStarted st) (raceFinished st)
              (raceStartTime st) (currentFrame - lastFrame st)
              currentFrame (spacePressed st) (rPressed st)
              (shouldClose st) (console st) in
  match processInput i st with
  | Some st =>
      Some (mkState
              (map (stepStudent (deltaTime st) currentFrame) (students st))
              (raceStarted st) (raceFinished st) (raceStartTime st)
              (deltaTime st) (lastFrame st) (spacePressed st)
              (rPressed st) (shouldClose st) (console st))
  | None => None
  end.

(** [while (!glfwWindowShouldClose(window))] over the frames the
    environment offers. *)
Fixpoint frames (inputs : list Input) (st : State) : option State :=
  match inputs with
  | [] => Some st
  | i :: rest =>
      if shouldClose st then Some st
      else match frame i st with
           | Some st => frames rest st
           | None => None
           end
  end.
End Libc.

(** The frame calls [resetRace]: R is down and was not down before. *)
Definition resets (i : Input) (st : State) : bool :=
  KEY_R i && negb (rPressed st).

(** No frame of the run calls [resetRace]; [held] says whether R was down
    in the frame before. *)
Fixpoint resetFree (inputs : list Input) (held : bool) : bool :=
  match inputs with
  | [] => true
  | i :: rest => negb (KEY_R i && negb held) && resetFree rest (KEY_R i)
  end.

(** Where [initializeStudents] puts student [i]. *)
Definition startPosition (i : nat) : R :=
  TRACK_LENGTH / 2 - INR (i / NUM_TRACKS) * 2.

(** Student [i] as [initializeStudents] leaves it: at the start, not
    finished, no finish time. *)
Definition atStart (i : nat) (s : Student) : Prop :=
  position s = startPosition i /\ finished s = false /\ finishTime s = 0.

End Race.

(** ** Notions used in the statements about the breakout game *)

Module GameNotions.
Import Breakout.

(** The closed interval [lo, hi] as a predicate on points. *)
Definition inside (t : R) (I : R * R) : Prop := fst I <= t /\ t <= snd I.

(** Two closed intervals intersect when they share a point. *)
Definition intersect (I J : R * R) : Prop :=
  exists t : R, inside t I /\ inside t J.

Definition xInterval (o : GameObject) : R * R :=
  (vec2.x (position o) - vec2.x (size o) / 2,
   vec2.x (position o) + vec2.x (size o) / 2).

Definition yInterval (o : GameObject) : R * R :=
  (vec2.y (position o) - vec2.y (size o) / 2,
   vec2.y (position o) + vec2.y (size o) / 2).

Definition overlap (a b : GameObject) : Prop :=
  intersect (xInterval a) (xInterval b) /\
  intersect (yInterval a) (yInterval b).

(** A rectangle proper: both extents are non-negative. *)
Definition nonnegSize (o : GameObject) : Prop :=
  0 <= vec2.x (size o) /\ 0 <= vec2.y (size o).

(** What a step may do to a brick, the ball being at [b] after its move:
    the brick stays where and what it is, it is active afterwards only if
    it was active before, and it is switched off only if it touches the
    ball. *)
Definition brickKept (b old new : GameObject) : Prop :=
  position new = position old /\ size new = size old /\
  color new = color old /\ (active new = true -> active old = true) /\
  (active old = true -> active new = false -> checkCollision b old = true).

(** A brick is left; no brick is left. *)
Definition someActive (l : list GameObject) : Prop :=
  Exists (fun brick => active brick = true) l.
Definition noneActive (l : list GameObject) : Prop :=
  Forall (fun brick => active brick = false) l.

(** The place of the brick in row [row] and column [col] of the grid. *)
Definition gridPlace (row col : nat) : vec2.t :=
  vec2.mk (-0.9 + INR col * (BRICK_WIDTH + 0.02))
          (0.7 - INR row * (BRICK_HEIGHT + 0.02)).

(** The full grid: [BRICK_ROWS * BRICK_COLS] bricks, row after row, every
    one of them active, of the size of a brick and at its place. *)
Definition fullGrid (l : list GameObject) : Prop :=
  List.length l = (BRICK_ROWS * BRICK_COLS)%nat /\
  Forall (fun brick => active brick = true) l /\
  forall row col : nat,
    (row < BRICK_ROWS)%nat -> (col < BRICK_COLS)%nat ->
    exists brick : GameObject,
      nth_error l (row * BRICK_COLS + col) = Some brick /\
      position brick = gridPlace row col /\
      size brick = vec2.mk BRICK_WIDTH BRICK_HEIGHT.

(** The state of [updateGame] after its loop over the bricks, where the
    source tests whether any brick is left. *)
Definition afterBricks (s : GameState) : GameState :=
  checkFell (hitBricks (bouncePaddle (bounceWalls (moveBall s)))).

(** Window and GL context came up: GLFW initialised, the window (with its
    context) was created, the GL functions were loaded. *)
Definition contextCreated (e : Startup) : bool :=
  glfwInit e && glfwCreateWindow e && gladLoadGLLoader e.

Definition banner : string := "Game will start in 4 minutes. Please wait...".

(** The time a frame measures since [startTime] was taken. *)
Definition elapsedTime (f : Frame) (g : GameState) : R :=
  glfwGetTime f - startTime g.
End GameNotions.

From Stdlib Require Import Machin.
From Stdlib Require FMapList FMapFacts OrderedTypeEx.

(** * Further parts of the programs

    - [ParticleScene] : src/unnamed/part_000, the camera, the GLFW callbacks
      and the render loop of [main] around the particle systems;
    - [ParticleMain]  : the same [main] with what it prints;
    - [RaceEnd]       : src/CEStudents.cpp, [isRaceComplete];
    - [Fonts]         : src/CEStudents.cpp, [loadFonts].

    GLM's [radians], [dot], [cross] and [normalize] are written out as GLM
    defines them.  The [std::map] of the glyphs is a finite map of the
    Standard Library, its [char] keys the numbers below 128 that the loop
    of [loadFonts] runs through. *)

(** ** Notions used in further statements about the breakout game *)

Module GameFacts.
Import Breakout.

(** The object lies between the side walls. *)
Definition onScreen (o : GameObject) : Prop :=
  -1 <= vec2.x (position o) - vec2.x (size o) / 2 /\
  vec2.x (position o) + vec2.x (size o) / 2 <= 1.

(** The test of the loop over the bricks in [updateGame]. *)
Definition touched (b brick : GameObject) : bool :=
  active brick && checkCollision b brick.

(** How many bricks are switched off. *)
Definition destroyed (l : list GameObject) : nat :=
  List.length (filter (fun brick => negb (active brick)) l).

(** The test "ball fell below screen" of [updateGame]. *)
Definition belowScreen (s : GameState) : bool :=
  Rltb (vec2.y (position (ball s)) - vec2.y (size (ball s)) / 2) (-1).

(** The paddle as the game keeps it: on the screen, at its height, with its
    size. *)
Definition paddleInPlace (s : GameState) : Prop :=
  onScreen (paddle s) /\
  vec2.y (position (paddle s)) = -0.9 /\
  size (paddle s) = vec2.mk PADDLE_WIDTH PADDLE_HEIGHT.

(** The score accounts for the bricks: the grid is complete, every brick
    switched off has brought 10 points, and some brick is left. *)
Definition accounted (s : GameState) : Prop :=
  List.length (bricks s) = (BRICK_ROWS * BRICK_COLS)%nat /\
  score s = (10 * Z.of_nat (destroyed (bricks s)))%Z /\
  allBricksDestroyed s = false.

(** What the last output statement that ran wrote to [std::cout]. *)
Definition lastWrite (out : list string) : string := last out "".

(** A frame of the wait during which nothing asks the window to close. *)
Definition quietWait (startClock : R) (f : Frame) : Prop :=
  glfwGetTime f - startClock < IZR WAIT_TIME_SECONDS /\
  KEY_ESCAPE (keys f) = false /\
  closeRequested f = false.

End GameFacts.


(** ** src/unnamed/part_000: camera, callbacks and the render loop *)

Module ParticleScene.
Import Particles.

Definition SCR_WIDTH : R := 1024.
Definition SCR_HEIGHT : R := 768.

(** [glm::radians], [glm::dot], [glm::cross] and [glm::normalize] *)
Definition radians (degrees : R) : R :=
  degrees * 0.01745329251994329576923690768489.
Definition dot (u v : vec3.t) : R :=
  vec3.x u * vec3.x v + vec3.y u * vec3.y v + vec3.z u * vec3.z v.
Definition cross (u v : vec3.t) : vec3.t :=
  vec3.mk (vec3.y u * vec3.z v - vec3.y v * vec3.z u)
          (vec3.z u * vec3.x v - vec3.z v * vec3.x u)
          (vec3.x u * vec3.y v - vec3.x v * vec3.y u).
Definition normalize (v : vec3.t) : vec3.t :=
  vec3.scale v (1 / sqrt (dot v v)).
Definition sub (u v : vec3.t) : vec3.t :=
  vec3.mk (vec3.x u - vec3.x v) (vec3.y u - vec3.y v) (vec3.z u - vec3.z v).

(** The camera globals. *)
Record Camera : Type := mkCamera {
  cameraPos : vec3.t;
  cameraFront : vec3.t;
  cameraSpeed : R;
  firstMouse : bool;
  yaw : R;
  pitch : R;
  lastX : R;
  lastY : R
}.

Definition cameraUp : vec3.t := vec3.mk 0 1 0.

(** The initial values of the globals. *)
Definition camera0 : Camera :=
  mkCamera (vec3.mk 0 2 8) (vec3.mk 0 0 (-1)) 0.05 true (-90) 0
           (SCR_WIDTH / 2) (SCR_HEIGHT / 2).

Definition set_cameraPos (v : vec3.t) (c : Camera) : Camera :=
  mkCamera v (cameraFront c) (cameraSpeed c) (firstMouse c) (yaw c) (pitch c)
           (lastX c) (lastY c).
Definition set_cameraSpeed (v : R) (c : Camera) : Camera :=
  mkCamera (cameraPos c) (cameraFront c) v (firstMouse c) (yaw c) (pitch c)
           (lastX c) (lastY c).
Definition set_firstMouse (b : bool) (c : Camera) : Camera :=
  mkCamera (cameraPos c) (cameraFront c) (cameraSpeed c) b (yaw c) (pitch c)
           (lastX c) (lastY c).

(** The direction the camera looks in for a yaw and a pitch in degrees. *)
Definition front (yaw pitch : R) : vec3.t :=
  vec3.mk (cos (radians yaw) * cos (radians pitch))
          (sin (radians pitch))
          (sin (radians yaw) * cos (radians pitch)).

(** [void mouse_callback(GLFWwindow*, double xpos, double ypos)] *)
Definition mouse_callback (xpos ypos : R) (c : Camera) : Camera :=
  let lastX0 := if firstMouse c then xpos else lastX c in
  let lastY0 := if firstMouse c then ypos else lastY c in
  let xoffset := xpos - lastX0 in
  let yoffset := lastY0 - ypos in
  let sensitivity := 0.1 in
  let xoffset := xoffset * sensitivity in
  let yoffset := yoffset * sensitivity in
  let yaw := yaw c + xoffset in
  let pitch := pitch c + yoffset in
  let pitch := if Rgtb pitch 89 then 89 else pitch in
  let pitch := if Rltb pitch (-89) then -89 else pitch in
  mkCamera (cameraPos c) (normalize (front yaw pitch)) (cameraSpeed c) false
           yaw pitch xpos ypos.

(** [void scroll_callback(GLFWwindow*, double xoffset, double yoffset)] *)
Definition scroll_callback (xoffset yoffset : R) (c : Camera) : Camera :=
  let speed := cameraSpeed c + yoffset * 0.01 in
  let speed := if Rltb speed 0.01 then 0.01 else speed in
  let speed := if Rgtb speed 0.2 then 0.2 else speed in
  set_cameraSpeed speed c.

(** The keys [processInput] asks for. *)
Record Keys : Type := mkKeys {
  KEY_ESCAPE : bool;
  KEY_W : bool;
  KEY_S : bool;
  KEY_A : bool;
  KEY_D : bool;
  KEY_SPACE : bool;
  KEY_LEFT_CONTROL : bool
}.

(** The sideways direction of the keys A and D. *)
Definition right (c : Camera) : vec3.t :=
  normalize (cross (cameraFront c) cameraUp).

(** The camera part of [void processInput(GLFWwindow* window)]. *)
Definition moveCamera (k : Keys) (deltaTime : R) (c : Camera) : Camera :=
  let speed := cameraSpeed c * deltaTime * 100 in
  let c := if KEY_W k
           then set_cameraPos
                  (vec3.add (cameraPos c) (vec3.scale (cameraFront c) speed)) c
           else c in
  let c := if KEY_S k
           then set_cameraPos
                  (sub (cameraPos c) (vec3.scale (cameraFront c) speed)) c
           else c in
  let c := if KEY_A k
           then set_cameraPos (sub (cameraPos c) (vec3.scale (right c) speed)) c
           else c in
  let c := if KEY_D k
           then set_cameraPos
                  (vec3.add (cameraPos c) (vec3.scale (right c) speed)) c
           else c in
  let c := if KEY_SPACE k
           then set_cameraPos
                  (vec3.add (cameraPos c) (vec3.scale cameraUp speed)) c
           else c in
  let c := if KEY_LEFT_CONTROL k
           then set_cameraPos (sub (cameraPos c) (vec3.scale cameraUp speed)) c
           else c in
  c.

Inductive ParticleSystemType : Type :=
| RAIN | WATERFALL | FIRE | DUST | COFFEE_CEREMONY.

(** The keys [key_callback] reacts to, and the GLFW actions. *)
Inductive Key : Type :=
| KEY_F1 | KEY_H | KEY_1 | KEY_2 | KEY_3 | KEY_4 | KEY_5 | KEY_OTHER.
Inductive Action : Type := RELEASE | PRESS | REPEAT.

Definition isPress (a : Action) : bool :=
  match a with PRESS => true | _ => false end.

(** The globals, the five systems of [main], and the two window flags the
    program reads back. *)
Record World : Type := mkWorld {
  camera : Camera;
  currentSystem : ParticleSystemType;
  showHelp : bool;
  deltaTime : R;
  lastFrame : R;
  rainSystem : ParticleSystem;
  waterfallSystem : ParticleSystem;
  fireSystem : ParticleSystem;
  dustSystem : ParticleSystem;
  coffeeSystem : ParticleSystem;
  cursorDisabled : bool;
  shouldClose : bool
}.

Definition set_camera (c : Camera) (w : World) : World :=
  mkWorld c (currentSystem w) (showHelp w) (deltaTime w) (lastFrame w)
          (rainSystem w) (waterfallSystem w) (fireSystem w) (dustSystem w)
          (coffeeSystem w) (cursorDisabled w) (shouldClose w).
Definition set_currentSystem (t : ParticleSystemType) (w : World) : World :=
  mkWorld (camera w) t (showHelp w) (deltaTime w) (lastFrame w)
          (rainSystem w) (waterfallSystem w) (fireSystem w) (dustSystem w)
          (coffeeSystem w) (cursorDisabled w) (shouldClose w).
Definition set_showHelp (b : bool) (w : World) : World :=
  mkWorld (camera w) (currentSystem w) b (deltaTime w) (lastFrame w)
          (rainSystem w) (waterfallSystem w) (fireSystem w) (dustSystem w)
          (coffeeSystem w) (cursorDisabled w) (shouldClose w).
Definition set_time (delta last : R) (w : World) : World :=
  mkWorld (camera w) (currentSystem w) (showHelp w) delta last
          (rainSystem w) (waterfallSystem w) (fireSystem w) (dustSystem w)
          (coffeeSystem w) (cursorDisabled w) (shouldClose w).
Definition set_cursorDisabled (b : bool) (w : World) : World :=
  mkWorld (camera w) (currentSystem w) (showHelp w) (deltaTime w)
          (lastFrame w) (rainSystem w) (waterfallSystem w) (fireSystem w)
          (dustSystem w) (coffeeSystem w) b (shouldClose w).
Definition set_shouldClose (b : bool) (w : World) : World :=
  mkWorld (camera w) (currentSystem w) (showHelp w) (deltaTime w)
          (lastFrame w) (rainSystem w) (waterfallSystem w) (fireSystem w)
          (dustSystem w) (coffeeSystem w) (cursorDisabled w) b.

(** The system a value of the enumeration stands for. *)
Definition system (t : ParticleSystemType) (w : World) : ParticleSystem :=
  match t with
  | RAIN => rainSystem w
  | WATERFALL => waterfallSystem w
  | FIRE => fireSystem w
  | DUST => dustSystem w
  | COFFEE_CEREMONY => coffeeSystem w
  end.

Definition set_system (t : ParticleSystemType) (s : ParticleSystem) (w : World)
  : World :=
  match t with
  | RAIN =>
      mkWorld (camera w) (currentSystem w) (showHelp w) (deltaTime w)
              (lastFrame w) s (waterfallSystem w) (fireSystem w)
              (dustSystem w) (coffeeSystem w) (cursorDisabled w)
              (shouldClose w)
  | WATERFALL =>
      mkWorld (camera w) (currentSystem w) (showHelp w) (deltaTime w)
              (lastFrame w) (rainSystem w) s (fireSystem w)
              (dustSystem w) (coffeeSystem w) (cursorDisabled w)
              (shouldClose w)
  | FIRE =>
      mkWorld (camera w) (currentSystem w) (showHelp w) (deltaTime w)
              (lastFrame w) (rainSystem w) (waterfallSystem w) s
              (dustSystem w) (coffeeSystem w) (cursorDisabled w)
              (shouldClose w)
  | DUST =>
      mkWorld (camera w) (currentSystem w) (showHelp w) (deltaTime w)
              (lastFrame w) (rainSystem w) (waterfallSystem w) (fireSystem w)
              s (coffeeSystem w) (cursorDisabled w) (shouldClose w)
  | COFFEE_CEREMONY =>
      mkWorld (camera w) (currentSystem w) (showHelp w) (deltaTime w)
              (lastFrame w) (rainSystem w) (waterfallSystem w) (fireSystem w)
              (dustSystem w) s (cursorDisabled w) (shouldClose w)
  end.

(** The class of the object behind each value of the enumeration. *)
Definition classOf (t : ParticleSystemType) : SystemKind :=
  match t with
  | RAIN => RainSystem
  | WATERFALL => WaterfallSystem
  | FIRE => FireSystem
  | DUST => DustSystem
  | COFFEE_CEREMONY => CoffeeCeremonySystem
  end.

(** [void key_callback(GLFWwindow*, int key, int scancode, int action,
    int mods)] *)
Definition key_callback (key : Key) (action : Action) (w : World) : World :=
  let w := match key with
           | KEY_F1 =>
               if isPress action
               then
                 if cursorDisabled w
                 then set_camera (set_firstMouse true (camera w))
                                 (set_cursorDisabled false w)
                 else set_camera (set_firstMouse true (camera w))
                                 (set_cursorDisabled true w)
               else w
           | _ => w
           end in
  let w := match key with
           | KEY_H => if isPress action
                      then set_showHelp (negb (showHelp w)) w else w
           | _ => w
           end in
  let w := match key with
           | KEY_1 => if isPress action then set_currentSystem RAIN w else w
           | _ => w
           end in
  let w := match key with
           | KEY_2 => if isPress action
                      then set_currentSystem WATERFALL w else w
           | _ => w
           end in
  let w := match key with
           | KEY_3 => if isPress action then set_currentSystem FIRE w else w
           | _ => w
           end in
  let w := match key with
           | KEY_4 => if isPress action then set_currentSystem DUST w else w
           | _ => w
           end in
  let w := match key with
           | KEY_5 => if isPress action
                      then set_currentSystem COFFEE_CEREMONY w else w
           | _ => w
           end in
  w.

(** What [glfwPollEvents] delivers to the callbacks. *)
Inductive Event : Type :=
| KeyEvent (key : Key) (action : Action)
| CursorPos (xpos ypos : R)
| Scroll (xoffset yoffset : R).

Definition deliver (w : World) (e : Event) : World :=
  match e with
  | KeyEvent key action => key_callback key action w
  | CursorPos xpos ypos =>
      set_camera (mouse_callback xpos ypos (camera w)) w
  | Scroll xoffset yoffset =>
      set_camera (scroll_callback xoffset yoffset (camera w)) w
  end.

(** [glfwPollEvents()] *)
Definition pollEvents (events : list Event) (w : World) : World :=
  fold_left deliver events w.

(** [void processInput(GLFWwindow* window)] *)
Definition processInput (k : Keys) (w : World) : World :=
  let w := if KEY_ESCAPE k then set_shouldClose true w else w in
  set_camera (moveCamera k (deltaTime w) (camera w)) w.

(** What one iteration of the render loop reads from outside. *)
Record Frame : Type := mkFrame {
  currentFrame : R;             (* [glfwGetTime()] at the top of the loop *)
  keys : Keys;
  draws : nat -> Draws;         (* behind the [spawnParticle] calls *)
  clock : nat -> R;             (* [glfwGetTime()] inside [update] *)
  events : list Event;
  closeRequested : bool
}.

(** The [switch (currentSystem)] of the render loop, without the drawing. *)
Definition updateCurrent (f : Frame) (w : World) : World :=
  let t := mkTick (deltaTime w) (draws f) (clock f) in
  set_system (currentSystem w)
             (update t (system (currentSystem w) w)) w.

(** An iteration of the render loop of [main] up to the drawing of the
    ground and the sky. *)
Definition simulate (f : Frame) (w : World) : World :=
  let w := set_time (currentFrame f - lastFrame w) (currentFrame f) w in
  let w := processInput (keys f) w in
  updateCurrent f w.

(** The end of an iteration: [glfwSwapBuffers] and [glfwPollEvents]. *)
Definition finish (f : Frame) (w : World) : World :=
  let w := pollEvents (events f) w in
  if closeRequested f then set_shouldClose true w else w.

(** One iteration of the render loop of [main], as far as the world goes;
    [renderHelp], between the two parts, only prints. *)
Definition frame (f : Frame) (w : World) : World :=
  finish f (simulate f w).

(** [while (!glfwWindowShouldClose(window))] over the frames that come. *)
Fixpoint renderLoop (frames : list Frame) (w : World) : World :=
  match frames with
  | [] => w
  | f :: rest =>
      if shouldClose w then w else renderLoop rest (frame f w)
  end.

(** The state in which [main] enters the loop: the globals at their initial
    values and the five systems as constructed, each with its own draws. *)
Definition world0 (rnd : ParticleSystemType -> nat -> Draws) : World :=
  mkWorld camera0 RAIN true 0 0
          (create RainSystem (rnd RAIN))
          (create WaterfallSystem (rnd WATERFALL))
          (create FireSystem (rnd FIRE))
          (create DustSystem (rnd DUST))
          (create CoffeeCeremonySystem (rnd COFFEE_CEREMONY))
          true false.

(** The value [renderParticles] passes as [particleAlpha]. *)
Definition particleAlpha (s : ParticleSystem) (p : Particle) : R :=
  let alpha := life p / maxLife p in
  match kind s with
  | CoffeeCeremonySystem =>
      let heightFactor :=
        Rmin 1 ((vec3.y (position p) - vec3.y (origin s)) / 4) in
      alpha * (1 - heightFactor * 0.6)
  | _ => alpha
  end.

(** [ParticleSystem::setActive] *)
Definition setActive (active : bool) (s : ParticleSystem) : ParticleSystem :=
  mkParticleSystem (kind s) (particles s) (maxParticles s) (origin s)
    (originVariation s) (gravity s) (spawnRate s) (timeSinceLastSpawn s)
    active (jebenaPosition s).

End ParticleScene.

(** ** src/unnamed/part_000: [main] and what it prints *)

Module ParticleMain.
Import Particles ParticleScene.

(** What [main] gets from GLFW, GLAD and GL before the render loop, and
    the draws behind the five constructors.  The result of [glfwInit] is
    not looked at. *)
Record Startup : Type := mkStartup {
  glfwCreateWindow : bool;
  gladLoadGLLoader : bool;
  vertexCompiled : bool;
  vertexInfoLog : string;
  fragmentCompiled : bool;
  fragmentInfoLog : string;
  programLinked : bool;
  programInfoLog : string;
  rnd : ParticleSystemType -> nat -> Draws
}.

Definition LF : string := String (Ascii.ascii_of_nat 10) EmptyString.

(** "Add a startup message for beginners" *)
Definition banner : list string :=
  [ (LF ++ "=== ETHIOPIAN NATURAL PHENOMENA SIMULATION ===" ++ LF)%string;
    "Starting up... If this is your first time, read the instructions below!" ].

(** [unsigned int createShaderProgram()]: each of its three checks prints
    the log on failure and goes on. *)
Definition shaderErrors (e : Startup) : list string :=
  (if vertexCompiled e then []
   else ["ERROR::SHADER::VERTEX::COMPILATION_FAILED" ++ LF
           ++ vertexInfoLog e])%string
  ++ (if fragmentCompiled e then []
      else ["ERROR::SHADER::FRAGMENT::COMPILATION_FAILED" ++ LF
              ++ fragmentInfoLog e])%string
  ++ (if programLinked e then []
      else ["ERROR::SHADER::PROGRAM::LINKING_FAILED" ++ LF
              ++ programInfoLog e])%string.

(** The lines of [renderHelp]. *)
Definition controls : list string :=
  [ (LF ++ "=== CONTROLS ===" ++ LF)%string;
    "WASD - Move camera";
    "SPACE/CTRL - Move up/down";
    "Mouse - Look around";
    "F1 - Toggle mouse capture";
    "H - Toggle help display";
    "1-5 - Switch particle systems:";
    "  1 - Rain (Ethiopian highlands)";
    "  2 - Waterfall (Blue Nile Falls)";
    "  3 - Fire (Traditional cooking fire)";
    "  4 - Dust (Dry season dust)";
    "  5 - Coffee Ceremony smoke";
    "ESC - Exit" ].

(** The world, the [static bool helpPrinted] of [renderHelp], and what was
    written to [std::cout]. *)
Record Session : Type := mkSession {
  world : World;
  helpPrinted : bool;
  console : list string
}.

(** [void renderHelp(GLFWwindow* window)] *)
Definition renderHelp (s : Session) : Session :=
  if negb (helpPrinted s)
  then mkSession (world s) true (console s ++ controls)
  else s.

(** One iteration of the render loop of [main]. *)
Definition sessionFrame (f : Frame) (s : Session) : Session :=
  let s := mkSession (simulate f (world s)) (helpPrinted s) (console s) in
  let s := if showHelp (world s) then renderHelp s else s in
  mkSession (finish f (world s)) (helpPrinted s) (console s).

(** [while (!glfwWindowShouldClose(window))] *)
Fixpoint sessionLoop (frames : list Frame) (s : Session) : Session :=
  match frames with
  | [] => s
  | f :: rest =>
      if shouldClose (world s) then s
      else sessionLoop rest (sessionFrame f s)
  end.

(** [int main()]: what it prints and what it returns. *)
Definition main (e : Startup) (frames : list Frame) : list string * Z :=
  if negb (glfwCreateWindow e)
  then (["Failed to create GLFW window"], (-1)%Z)
  else if negb (gladLoadGLLoader e)
  then (banner ++ ["Failed to initialize GLAD"], (-1)%Z)
  else
    let s := mkSession (world0 (rnd e)) false (banner ++ shaderErrors e) in
    let s := sessionLoop frames s in
    (console s, 0%Z).
End ParticleMain.

(** ** Notions used in further statements about the particle systems *)

Module ParticleFacts.
Import Particles ParticleScene.

Definition unitInterval (x : R) : Prop := 0 <= x <= 1.

Definition validColor (c : vec3.t) : Prop :=
  unitInterval (vec3.x c) /\ unitInterval (vec3.y c) /\ unitInterval (vec3.z c).

(** A particle as the systems keep it: alive, not older than its life span
    allows, drawable, and in the smoke never sinking below the pot. *)
Definition sound (k : SystemKind) (height : R) (p : Particle) : Prop :=
  0 < life p <= maxLife p /\ validColor (color p) /\ 0 < size p /\
  (k = CoffeeCeremonySystem ->
   0 <= vec3.y (velocity p) /\ height <= vec3.y (position p)).

Definition soundSystem (s : ParticleSystem) : Prop :=
  Forall (sound (kind s) (vec3.y (origin s))) (particles s) /\
  (kind s = CoffeeCeremonySystem ->
   0 <= vec3.y (gravity s) /\
   vec3.y (jebenaPosition s) = vec3.y (origin s)).

(** The draws of a sequence of [update] calls are uniform numbers of the
    unit interval and time does not run backwards. *)
Definition forward (t : Tick) : Prop := 0 <= dt t /\ unitDraws (rnd t).

(** No more spawn is due: the system is full or less than a spawn period
    is pending. *)
Definition caughtUp (s : ParticleSystem) : Prop :=
  timeSinceLastSpawn s < spawnRate s \/
  (maxParticles s <= List.length (particles s))%nat.

Definition pitchInRange (c : Camera) : Prop := -89 <= pitch c <= 89.
Definition speedInRange (c : Camera) : Prop := 0.01 <= cameraSpeed c <= 0.2.

(** The camera looks in a direction that is not vertical: its cross
    product with the up vector is not the zero vector. *)
Definition levelled (c : Camera) : Prop :=
  0 < dot (cross (cameraFront c) cameraUp) (cross (cameraFront c) cameraUp).

(** The shape in which the constructors leave each of the five objects. *)
Definition asBuilt (w : World) : Prop :=
  forall t : ParticleSystemType,
    kind (system t w) = classOf t /\
    maxParticles (system t w) = capacity (classOf t) /\
    withinCapacity (system t w).
End ParticleFacts.

(** ** src/CEStudents.cpp: the end of the race, and the fonts *)

Module RaceEnd.
Import Race.

(** [bool isRaceComplete(const std::vector<Student>& students)] *)
Fixpoint isRaceComplete (students : list Student) : bool :=
  match students with
  | [] => true
  | student :: rest =>
      if negb (finished student) then false else isRaceComplete rest
  end.

(** The student is at or beyond the finish line. *)
Definition crossed (s : Student) : bool :=
  Rleb (position s) (- TRACK_LENGTH / 2).

(** The [finished] flag says whether the student has crossed the line. *)
Definition flagged (s : Student) : Prop := finished s = crossed s.

(** Two frames read the same from outside but for the space bar and the
    moment [processInput] reads the clock. *)
Definition sameButSpace (i j : Input) : Prop :=
  KEY_ESCAPE i = KEY_ESCAPE j /\ KEY_R i = KEY_R j /\
  glfwGetTime i = glfwGetTime j /\ rand i = rand j.

(** Two states agree on everything but what the space bar governs:
    [raceStarted], [raceStartTime], the [static bool spacePressed], and the
    console. *)
Definition sameButRace (a b : State) : Prop :=
  students a = students b /\ raceFinished a = raceFinished b /\
  deltaTime a = deltaTime b /\ lastFrame a = lastFrame b /\
  rPressed a = rPressed b /\ shouldClose a = shouldClose b.

(** Every student is at or beyond the finish line. *)
Definition allCrossed (l : list Student) : Prop :=
  Forall (fun s => position s <= - TRACK_LENGTH / 2) l.

(** The results of [rand()] lie between 0 and [RAND_MAX]. *)
Definition inRange (RAND_MAX : Z) (rand : nat -> Z) : Prop :=
  forall k : nat, (0 <= rand k <= RAND_MAX)%Z.

(** What [initializeStudents] promises about a student besides its place
    at the start. *)
Definition wellFormed (s : Student) : Prop :=
  2 <= speed s <= 4 /\
  (trackNumber s < NUM_TRACKS)%nat /\
  0 <= armPhase s <= 2 * 3.14159 /\
  legPhase s = armPhase s + 3.14159 /\
  0.3 <= vec3.x (color s) <= 1 /\
  0.3 <= vec3.y (color s) <= 1 /\
  0.3 <= vec3.z (color s) <= 1 /\
  In (name s) names /\
  13 <= position s <= TRACK_LENGTH / 2.
End RaceEnd.

Module CharMap := FMapList.Make OrderedTypeEx.Nat_as_OT.
Module CharMapFacts := FMapFacts.WFacts_fun OrderedTypeEx.Nat_as_OT CharMap.

Module Fonts.

(** [struct Character]: what GL and FreeType report for a glyph. *)
Record Character : Type := mkCharacter {
  TextureID : N;
  Size : Z * Z;
  Bearing : Z * Z;
  Advance : N
}.

(** The FreeType calls of [loadFonts] as the machine answers them: whether
    the library comes up, whether a face opens from a path, whether glyph
    [c] of the face opened from a path loads, and the glyph's data. *)
Record FreeType : Type := mkFreeType {
  FT_Init_FreeType : bool;
  FT_New_Face : string -> bool;
  FT_Load_Char : string -> nat -> bool;
  glyph : string -> nat -> Character
}.

(** The globals [loadFonts] can reach, and [std::cout]. *)
Record State : Type := mkState {
  Characters : CharMap.t Character;
  fontLoaded : bool;
  console : list string
}.

Definition print (line : string) (st : State) : State :=
  mkState (Characters st) (fontLoaded st) (console st ++ [line]).

(** [Characters.insert(std::pair<char, Character>(c, character))]: an
    element with the key already in the map stays. *)
Definition insert (c : nat) (character : Character) (st : State) : State :=
  if CharMap.mem c (Characters st) then st
  else mkState (CharMap.add c character (Characters st)) (fontLoaded st)
               (console st).

Definition fontPaths : list string :=
  [ "fonts/arial.ttf"; "arial.ttf"; "C:/Windows/Fonts/arial.ttf";
    "./fonts/arial.ttf"; "../fonts/arial.ttf" ].

(** [for (const auto& path : fontPaths)], with its [break]: the path the
    face was opened from, if any. *)
Fixpoint openFace (ft : FreeType) (paths : list string) : option string :=
  match paths with
  | [] => None
  | path :: rest =>
      if FT_New_Face ft path then Some path else openFace ft rest
  end.

Definition glyphError (c : nat) : string :=
  "ERROR::FREETYTPE: Failed to load Glyph for character: "
  ++ String (Ascii.ascii_of_nat c) EmptyString.

(** [for (unsigned char c = ...; c < 128; c++)], with [count] turns to
    go. *)
Fixpoint loadGlyphs (ft : FreeType) (face : string) (c count : nat)
         (st : State) : State :=
  match count with
  | O => st
  | S count =>
      if negb (FT_Load_Char ft face c)
      then loadGlyphs ft face (S c) count (print (glyphError c) st)
      else loadGlyphs ft face (S c) count (insert c (glyph ft face c) st)
  end.

(** [void loadFonts()].  Its [bool fontLoaded] is a local variable: the
    global of the same name is not assigned. *)
Definition loadFonts (ft : FreeType) (st : State) : State :=
  if negb (FT_Init_FreeType ft)
  then print "ERROR::FREETYPE: Could not init FreeType Library" st
  else
    match openFace ft fontPaths with
    | None =>
        print "Please place arial.ttf in the fonts/ directory or in the current directory"
          (print "ERROR::FREETYPE: Failed to load font from any location" st)
    | Some path =>
        loadGlyphs ft path 0 128
          (print ("Successfully loaded font from: " ++ path) st)
    end.

(** The state in which [main] calls [loadFonts]. *)
Definition state0 : State := mkState (CharMap.empty Character) false [].

(** [renderText] draws: it does not return at [Characters.empty()]. *)
Definition rendersText (st : State) : bool :=
  negb (CharMap.is_empty (Characters st)).

(** The characters of the loop whose glyph does not load, in order. *)
Definition failedGlyphs (ft : FreeType) (face : string) : list nat :=
  filter (fun c => negb (FT_Load_Char ft face c)) (seq 0 128).
End Fonts.

(** ** The set-up part of every [main] *)

Module Mains.

(** The programs of the repository, one for each [int main()]. *)
Inductive Program : Type :=
| game2D            (* src/game2D.cpp: the breakout game *)
| part_000          (* src/unnamed/part_000: the particle systems *)
| part_001          (* src/unnamed/part_001: the 3D cube *)
| part_002          (* src/unnamed/part_002: the bouncing balls *)
| run_CEStudents    (* the source kept in src/run_CEStudents.bat: the lit
                       3D scene *)
| compile_scene3D   (* the source kept in src/compile_scene3D.bat: the race *)
| CEStudents.       (* src/CEStudents.cpp: the race *)

(** What GL answers while one shader program is built: the compile status
    and log of the vertex and of the fragment shader, the link status and
    log of the program, and the id [glCreateProgram] hands out. *)
Record ShaderBuild : Type := mkShaderBuild {
  vertexCompiled : bool;
  vertexInfoLog : string;
  fragmentCompiled : bool;
  fragmentInfoLog : string;
  programLinked : bool;
  programInfoLog : string;
  glCreateProgram : N
}.

(** What the set-up part of a [main] gets from GLFW, GLAD, GL and FreeType.
    [build n] answers the building of the [n]-th shader program, counted
    from 0. *)
Record Machine : Type := mkMachine {
  glfwInit : bool;
  glfwCreateWindow : bool;
  gladLoadGLLoader : bool;
  build : nat -> ShaderBuild;
  freeType : Fonts.FreeType
}.

Definition LF : string := String (Ascii.ascii_of_nat 10) EmptyString.

(** The three checks of a shader build, [glGetShaderiv] twice and
    [glGetProgramiv]: each prints its log on failure and goes on. *)
Definition shaderErrors (b : ShaderBuild) : list string :=
  (if vertexCompiled b then []
   else ["ERROR::SHADER::VERTEX::COMPILATION_FAILED" ++ LF
           ++ vertexInfoLog b])%string
  ++ (if fragmentCompiled b then []
      else ["ERROR::SHADER::FRAGMENT::COMPILATION_FAILED" ++ LF
              ++ fragmentInfoLog b])%string
  ++ (if programLinked b then []
      else ["ERROR::SHADER::PROGRAM::LINKING_FAILED" ++ LF
              ++ programInfoLog b])%string.

(** How the set-up part of a [main] ends: [main] returns, or it goes on
    with the program objects it has created, having written [console] to
    [std::cout]. *)
Inductive Started : Type :=
| Return (console : list string) (status : Z)
| Continue (console : list string) (programs : list N).

(** src/game2D.cpp, [main] from line 81 to the render loop at 201. *)
Definition setup_game2D (m : Machine) : Started :=
  if negb (glfwInit m) then Return ["Failed to initialize GLFW"] (-1)
  else if negb (glfwCreateWindow m)
  then Return ["Failed to create GLFW window"] (-1)
  else if negb (gladLoadGLLoader m)
  then Return ["Failed to initialize GLAD"] (-1)
  else
    let out := shaderErrors (build m 0) in
    let shaderProgram := glCreateProgram (build m 0) in
    Continue (out ++ ["Game will start in 4 minutes. Please wait..."])
             [shaderProgram].

(** src/unnamed/part_000, [main] from line 541 to the render loop at 599.
    The result of [glfwInit] is not looked at, and the greeting is printed
    once the window is there. *)
Definition setup_part_000 (m : Machine) : Started :=
  if negb (glfwCreateWindow m)
  then Return ["Failed to create GLFW window"] (-1)
  else
    let out := ParticleMain.banner in
    if negb (gladLoadGLLoader m)
    then Return (out ++ ["Failed to initialize GLAD"]) (-1)
    else
      (* unsigned int shaderProgram = createShaderProgram(); *)
      let out := out ++ shaderErrors (build m 0) in
      Continue out [glCreateProgram (build m 0)].

(** src/unnamed/part_001, [main] from line 104 to the render loop at 235. *)
Definition setup_part_001 (m : Machine) : Started :=
  if negb (glfwInit m) then Return ["Failed to initialize GLFW"] (-1)
  else if negb (glfwCreateWindow m)
  then Return ["Failed to create GLFW window"] (-1)
  else if negb (gladLoadGLLoader m)
  then Return ["Failed to initialize GLAD"] (-1)
  else Continue (shaderErrors (build m 0)) [glCreateProgram (build m 0)].

(** src/unnamed/part_002, [main] from line 99 to the render loop at 315. *)
Definition setup_part_002 (m : Machine) : Started :=
  if negb (glfwInit m) then Return ["Failed to initialize GLFW"] (-1)
  else if negb (glfwCreateWindow m)
  then Return ["Failed to create GLFW window"] (-1)
  else if negb (gladLoadGLLoader m)
  then Return ["Failed to initialize GLAD"] (-1)
  else Continue (shaderErrors (build m 0)) [glCreateProgram (build m 0)].

(** The source in src/run_CEStudents.bat, [main] from line 170 to the
    render loop at 276.  The light shader, the second program, takes the
    vertex shader of the first; its fragment shader is compiled and the
    program linked, and neither status is read. *)
Definition setup_run_CEStudents (m : Machine) : Started :=
  if negb (glfwInit m) then Return ["Failed to initialize GLFW"] (-1)
  else if negb (glfwCreateWindow m)
  then Return ["Failed to create GLFW window"] (-1)
  else if negb (gladLoadGLLoader m)
  then Return ["Failed to initialize GLAD"] (-1)
  else
    let out := shaderErrors (build m 0) in
    let shaderProgram := glCreateProgram (build m 0) in
    (* Light shader *)
    let lightShaderProgram := glCreateProgram (build m 1) in
    (* Initialize FreeType for text rendering *)
    let out :=
      if negb (Fonts.FT_Init_FreeType (freeType m))
      then out ++ ["ERROR::FREETYPE: Could not init FreeType Library"]
      else out in
    Continue out [shaderProgram; lightShaderProgram].

(** [loadFonts()] called with [out] on the console: the console after it. *)
Definition loadFonts (m : Machine) (out : list string) : list string :=
  Fonts.console
    (Fonts.loadFonts (freeType m)
       (Fonts.mkState (CharMap.empty Fonts.Character) false out)).

(** The source in src/compile_scene3D.bat, [main] from line 186 to the
    render loop at 236.  The result of [glfwInit] is not looked at.
    [createTrack], [createGround], [createSkybox] and [initializeStudents]
    print nothing and read no status. *)
Definition setup_compile_scene3D (m : Machine) : Started :=
  if negb (glfwCreateWindow m)
  then Return ["Failed to create GLFW window"] (-1)
  else if negb (gladLoadGLLoader m)
  then Return ["Failed to initialize GLAD"] (-1)
  else
    (* Create shader programs *)
    let out := shaderErrors (build m 0) in
    let shaderProgram := glCreateProgram (build m 0) in
    let out := out ++ shaderErrors (build m 1) in
    let textShaderProgram := glCreateProgram (build m 1) in
    (* Load fonts *)
    let out := loadFonts m out in
    Continue out [shaderProgram; textShaderProgram].

(** src/CEStudents.cpp, [main] from line 219 up to [loadFonts()] at 258.
    The result of [glfwInit] is not looked at.  The functions [main] calls
    between [loadFonts] and its render loop ([createTrack], [createGround],
    [createSkybox], [initializeEnvironment], [initializeStudents],
    [loadHumanModels]) are declared in the file and their bodies are not in
    it: the set-up is followed up to the first of these calls. *)
Definition setup_CEStudents (m : Machine) : Started :=
  if negb (glfwCreateWindow m)
  then Return ["Failed to create GLFW window"] (-1)
  else if negb (gladLoadGLLoader m)
  then Return ["Failed to initialize GLAD"] (-1)
  else
    (* Create shader programs *)
    let out := shaderErrors (build m 0) in
    let shaderProgram := glCreateProgram (build m 0) in
    let out := out ++ shaderErrors (build m 1) in
    let textShaderProgram := glCreateProgram (build m 1) in
    let out := out ++ shaderErrors (build m 2) in
    let skyboxShader := glCreateProgram (build m 2) in
    (* Load fonts *)
    let out := loadFonts m out in
    Continue out [shaderProgram; textShaderProgram; skyboxShader].

Definition setup (p : Program) : Machine -> Started :=
  match p with
  | game2D => setup_game2D
  | part_000 => setup_part_000
  | part_001 => setup_part_001
  | part_002 => setup_part_002
  | run_CEStudents => setup_run_CEStudents
  | compile_scene3D => setup_compile_scene3D
  | CEStudents => setup_CEStudents
  end.

End Mains.

(** ** Notions used in the statements about the set-up of [main] *)

Module MainNotions.
Import Mains.

(** The mains that test the result of [glfwInit]. *)
Definition testsInit (p : Program) : bool :=
  match p with
  | game2D | part_001 | part_002 | run_CEStudents => true
  | part_000 | compile_scene3D | CEStudents => false
  end.

(** GLFW is initialised as far as [main] can tell. *)
Definition initialised (p : Program) (m : Machine) : bool :=
  negb (testsInit p) || glfwInit m.

(** Window and GL context came up: GLFW initialised, the window (with its
    context) was created, the GL functions were loaded. *)
Definition contextCreated (p : Program) (m : Machine) : bool :=
  initialised p m && glfwCreateWindow m && gladLoadGLLoader m.





Definition fragmentError (b : ShaderBuild) : string :=
  ("ERROR::SHADER::FRAGMENT::COMPILATION_FAILED" ++ LF
     ++ fragmentInfoLog b)%string.
Definition linkError (b : ShaderBuild) : string :=
  ("ERROR::SHADER::PROGRAM::LINKING_FAILED" ++ LF ++ programInfoLog b)%string.




(** FreeType on which nothing fails: the library comes up, the font is in
    the first place looked at, every glyph loads. *)
Definition soundFreeType : Fonts.FreeType :=
  Fonts.mkFreeType true (fun path => String.eqb path "fonts/arial.ttf")
                   (fun _ _ => true)
                   (fun _ c => Fonts.mkCharacter (N.of_nat c) (20, 30)%Z
                                                 (1, 25)%Z 1536).

(** The machine that answers as [m] does for the window, the GL context
    and the shaders, and on which nothing else fails. *)
Definition otherwiseSound (m : Machine) : Machine :=
  mkMachine true (glfwCreateWindow m) (gladLoadGLLoader m) (build m)
            soundFreeType.

(** "No other failure handling occurs", on a machine: whatever else fails
    on it, the set-up does what it does when only the window, the GL
    context and the shaders answer as they do. *)
Definition handlesOnlyListed (p : Program) (m : Machine) : Prop :=
  setup p m = setup p (otherwiseSound m).

(** The machine of the game as [Breakout.setup] sees it, and the machine of
    the particle systems as [ParticleMain.main] sees it. *)
Definition gameStartup (m : Machine) (startRand : Z) (startClock : R)
  : Breakout.Startup :=
  let b := build m 0 in
  Breakout.mkStartup
    (glfwInit m) (glfwCreateWindow m) (gladLoadGLLoader m)
    (vertexCompiled b) (vertexInfoLog b)
    (fragmentCompiled b) (fragmentInfoLog b)
    (programLinked b) (programInfoLog b)
    (glCreateProgram b) startRand startClock.

Definition particleStartup
           (m : Machine)
           (rnd : ParticleScene.ParticleSystemType -> nat -> Particles.Draws)
  : ParticleMain.Startup :=
  let b := build m 0 in
  ParticleMain.mkStartup
    (glfwCreateWindow m) (gladLoadGLLoader m)
    (vertexCompiled b) (vertexInfoLog b)
    (fragmentCompiled b) (fragmentInfoLog b)
    (programLinked b) (programInfoLog b)
    rnd.

End MainNotions.
(** ** Concrete game objects and states used in the examples *)

Module Examples.
Import Breakout.

Definition ballAtPaddle : GameObject :=
  mkGameObject (vec2.mk 0.05 (-0.88)) (vec2.mk BALL_SIZE BALL_SIZE)
               (vec3.mk 1 1 1) true.
Definition paddleAtStart : GameObject :=
  mkGameObject (vec2.mk 0 (-0.9)) (vec2.mk PADDLE_WIDTH PADDLE_HEIGHT)
               (vec3.mk 0.2 0.6 1) true.

(** One brick left, the ball about to touch it, 390 points so far. *)
Definition lastBrick : GameState :=
  mkGameState
    paddleAtStart
    (mkGameObject (vec2.mk 0 0.68) (vec2.mk BALL_SIZE BALL_SIZE)
                  (vec3.mk 1 1 1) true)
    (vec2.mk 0 0.01)
    [ set_active false (newBrick 0 0);
      mkGameObject (vec2.mk 0 0.7) (vec2.mk BRICK_WIDTH BRICK_HEIGHT)
                   (rowColor 0) true ]
    false 390 true 0.

(** The ball coming down on the right half of the paddle. *)
Definition ballOnPaddle : GameState :=
  mkGameState
    paddleAtStart
    (mkGameObject (vec2.mk 0.047 (-0.87)) (vec2.mk BALL_SIZE BALL_SIZE)
                  (vec3.mk 1 1 1) true)
    (vec2.mk 0.003 (-0.01))
    newBricks false 0 true 0.

(** A machine on which the window cannot be created. *)
Definition noWindow : Startup :=
  mkStartup true false true true "" true "" true "" 0 0 0.

(** A machine on which GLFW itself does not come up. *)
Definition noGlfw : Startup :=
  mkStartup false true true true "" true "" true "" 0 0 0.

(** A machine on which the fragment shader does not compile, so that the
    program does not link either. *)
Definition badShader : Startup :=
  mkStartup true true true true "" false "0:7: syntax error" false
            "fragment shader not compiled" 3 45 0.5.

(** A machine on which everything comes up. *)
Definition goodMachine : Startup :=
  mkStartup true true true true "" true "" true "" 3 45 0.

Definition idle : Keys := mkKeys false false false.
Definition leftKey : Keys := mkKeys false true false.

(** Two frames during the wait, the left key held down in the second. *)
Definition waitingFrames : list Frame :=
  [ mkFrame idle 1 7 false; mkFrame leftKey 2 8 false ].
End Examples.

Module ParticleExamples.
Import Particles.

(** Every draw is one half; [rand()] gives 7. *)
Definition halves : nat -> Draws :=
  fun _ => mkDraws (fun _ => 0.5) 7 0.

(** A dust system holding a fresh and a nearly dead particle, room for
    three. *)
Definition smallDust : ParticleSystem :=
  mkParticleSystem DustSystem
    [ mkParticle (vec3.mk 0 0.1 0) (vec3.mk 0.1 0 0) (vec3.mk 0.9 0.7 0.5)
                 0.3 6 7 0;
      mkParticle (vec3.mk 1 0.3 0) (vec3.mk 0 0.05 0.1) (vec3.mk 0.9 0.7 0.5)
                 0.2 0.01 5 0 ]
    3 (vec3.mk 0 0.1 0) (vec3.mk 10 0.1 10) (vec3.mk 0 0.05 0) 0.01 0 true
    (vec3.mk 0 0 0).

Definition sixtiethOfSecond : Tick :=
  mkTick (1 / 60) halves (fun _ => 12).
End ParticleExamples.


Module RaceExamples.
Import Race.

(** Two runners: the first crossed the line at 12.5 s, the second is still
    on the track. *)
Definition arrived : Student :=
  mkStudent "Alex" 0 (-25.2) 3 0 3.14159 (vec3.mk 0.5 0.5 0.5) 12.5 true.
Definition running : Student :=
  mkStudent "Ben" 1 4 2.5 1 4.14159 (vec3.mk 0.4 0.6 0.8) 0 false.

Definition midRace : State :=
  mkState [arrived; running] true false 1 0.016 13 false false false [].

(** Three frames in which R is not pressed; the space bar is, once. *)
Definition threeFrames : list Input :=
  [ mkInput false false false 13.016 13.016 (fun _ => 0%Z);
    mkInput false true false 13.032 13.033 (fun _ => 0%Z);
    mkInput false false false 13.048 13.048 (fun _ => 0%Z) ].
End RaceExamples.

(** ** Further concrete inputs *)

Module GameExamples.
Import Breakout Examples.

(** Two frames after the wait, the left key held down. *)
Definition playingFrames : list Frame :=
  [ mkFrame leftKey 241 7 false; mkFrame leftKey 242 8 false ].

(** The window is closed in the third frame, during the wait. *)
Definition closedWaiting : list Frame :=
  waitingFrames ++ [ mkFrame idle 3 9 true ].

(** The window is closed in the third frame, the first one after the wait. *)
Definition closedPlaying : list Frame :=
  waitingFrames ++ [ mkFrame leftKey 240 9 true ].

(** The full grid, the ball in the middle of the screen on its way up. *)
Definition midAir : GameState :=
  mkGameState
    paddleAtStart
    (mkGameObject (vec2.mk 0 0) (vec2.mk BALL_SIZE BALL_SIZE)
                  (vec3.mk 1 1 1) true)
    (vec2.mk 0.003 0.01)
    newBricks false 0 true 0.
End GameExamples.

Module ParticleSceneExamples.
Import Particles ParticleScene ParticleExamples.

(** No key held down. *)
Definition noKeys : Keys := mkKeys false false false false false false false.

(** The world as [main] builds it when every draw is one half. *)
Definition halfWorld : World := world0 (fun _ => halves).

(** A first frame a sixtieth of a second after the start, in which the key
    3 is pressed. *)
Definition firstFrame : Frame :=
  mkFrame (1 / 60) noKeys halves (fun _ => 12) [KeyEvent KEY_3 PRESS] false.
End ParticleSceneExamples.

Module RaceRunExamples.
Import Race RaceExamples.

(** [Student()] *)
Definition defaultStudent : Student :=
  mkStudent "" 0 0 1 0 0 (vec3.mk 1 1 1) 0 false.

(** [std::vector<Student> students(NUM_STUDENTS)] *)
Definition freshStudents : list Student := repeat defaultStudent NUM_STUDENTS.

(** A C library whose [rand()] always returns 0. *)
Definition zeros : nat -> Z := fun _ => 0%Z.

(** The students as [initializeStudents] lines them up then. *)
Definition lineUp : list Student :=
  match initializeStudents 32767 zeros freshStudents with
  | Some l => l
  | None => []
  end.

Definition atLineUp : State :=
  mkState lineUp false false 0 0 0 false false false [].

(** One frame, thirty seconds later. *)
Definition oneLongFrame : list Input :=
  [ mkInput false false false 30 30 zeros ].

(** The three frames of [threeFrames] with the space bar left alone. *)
Definition quietFrames : list Input :=
  [ mkInput false false false 13.016 13.016 (fun _ => 0%Z);
    mkInput false false false 13.032 13.032 (fun _ => 0%Z);
    mkInput false false false 13.048 13.048 (fun _ => 0%Z) ].

(** A frame in which R goes down, and the next one with R still down. *)
Definition resetFrames : list Input :=
  [ mkInput false false true 1 1 zeros; mkInput false false true 2 2 zeros ].
End RaceRunExamples.

Module FontExamples.
Import Fonts.

(** A machine on which only the last of the five paths holds a font, and
    in that font the control characters have no glyph. *)
Definition arialNextDoor : FreeType :=
  mkFreeType true (fun path => String.eqb path "../fonts/arial.ttf")
             (fun _ c => (31 <? c)%nat)
             (fun _ c => mkCharacter (N.of_nat c) (20, 30)%Z (1, 25)%Z 1536).
End FontExamples.


Module MainExamples.
Import Mains MainNotions.

(** A build in which every step succeeds. *)
Definition goodBuild (id : N) : ShaderBuild :=
  mkShaderBuild true "" true "" true "" id.

(** A build in which the fragment shader does not compile, so that the
    program does not link either. *)
Definition badBuild (id : N) : ShaderBuild :=
  mkShaderBuild true "" false "0:7: syntax error" false
                "fragment shader not compiled" id.



(** The program objects get the ids 3, 4, 5 in the order they are made. *)
Definition goodBuilds (n : nat) : ShaderBuild := goodBuild (N.of_nat n + 3).


Definition noGlfw : Machine :=
  mkMachine false true true goodBuilds soundFreeType.
Definition noWindow : Machine :=
  mkMachine true false true goodBuilds soundFreeType.

(** A machine on which the first shader program is not built. *)
Definition badShader : Machine :=
  mkMachine true true true
            (fun n => match n with
                      | O => badBuild 3
                      | _ => goodBuilds n
                      end)
            soundFreeType.

(** A machine on which the second shader program is not built: the light
    shader of the lit 3D scene, the text shader of the race. *)
Definition badSecondShader : Machine :=
  mkMachine true true true
            (fun n => match n with
                      | 1%nat => badBuild 4
                      | _ => goodBuilds n
                      end)
            soundFreeType.
End MainExamples.
(** * Theorems *)

Section Comparisons.
Variables a b : R.

Lemma Rleb_true : Rleb a b = true <-> a <= b.
Proof. unfold Rleb; destruct (Rle_dec a b); split; intros; try easy. Qed.

Lemma Rltb_true : Rltb a b = true <-> a < b.
Proof. unfold Rltb; destruct (Rlt_dec a b); split; intros; try easy. Qed.

Lemma Rgeb_true : Rgeb a b = true <-> a >= b.
Proof. unfold Rgeb; destruct (Rge_dec a b); split; intros; try easy. Qed.

Lemma Rgtb_true : Rgtb a b = true <-> a > b.
Proof. unfold Rgtb; destruct (Rgt_dec a b); split; intros; try easy. Qed.

Lemma Rleb_false : Rleb a b = false <-> b < a.
Proof. unfold Rleb; destruct (Rle_dec a b); split; intros; try easy; lra. Qed.

Lemma Rltb_false : Rltb a b = false <-> b <= a.
Proof. unfold Rltb; destruct (Rlt_dec a b); split; intros; try easy; lra. Qed.

Lemma Rgeb_false : Rgeb a b = false <-> a < b.
Proof. unfold Rgeb; destruct (Rge_dec a b); split; intros; try easy; lra. Qed.

Lemma Rgtb_false : Rgtb a b = false <-> a <= b.
Proof. unfold Rgtb; destruct (Rgt_dec a b); split; intros; try easy; lra. Qed.
End Comparisons.

Section Collision.
Import Breakout GameNotions.

Lemma checkCollision_spec (a b : GameObject) :
  checkCollision a b = true <->
  (fst (xInterval a) <= snd (xInterval b) /\
   fst (xInterval b) <= snd (xInterval a)) /\
  (fst (yInterval a) <= snd (yInterval b) /\
   fst (yInterval b) <= snd (yInterval a)).
Proof.
  unfold checkCollision, xInterval, yInterval; cbn [fst snd].
  rewrite !andb_true_iff, !Rgeb_true. lra.
Qed.

Lemma intersect_bounds (I J : R * R) :
  intersect I J -> fst I <= snd J /\ fst J <= snd I.
Proof. intros [t [[? ?] [? ?]]]; lra. Qed.

Lemma bounds_intersect (I J : R * R) :
  fst I <= snd I -> fst J <= snd J ->
  fst I <= snd J -> fst J <= snd I -> intersect I J.
Proof.
  intros HI HJ HIJ HJI. exists (Rmax (fst I) (fst J)).
  unfold inside, Rmax; destruct (Rle_dec (fst I) (fst J)); lra.
Qed.
End Collision.

(** ** The breakout game: collision test *)

Section CollisionTest.
Import Breakout GameNotions Examples.

(** C1: for game objects that are rectangles, with a centre and a size
    that is not negative on either axis, [checkCollision a b] is true
    exactly when the closed x-intervals of the two rectangles share a point
    and their closed y-intervals share a point. *)
Theorem checkCollision_iff_overlap (a b : GameObject) :
  nonnegSize a -> nonnegSize b ->
  (checkCollision a b = true <-> overlap a b).
Proof.
  intros [Hax Hay] [Hbx Hby]. rewrite checkCollision_spec. unfold overlap.
  split.
  - intros [[Hx1 Hx2] [Hy1 Hy2]]; split; apply bounds_intersect;
      unfold xInterval, yInterval in *; cbn [fst snd] in *; lra.
  - intros [Hx Hy]. apply intersect_bounds in Hx, Hy. tauto.
Qed.

Lemma checkCollision_iff_overlap_witness :
  nonnegSize ballAtPaddle /\ nonnegSize paddleAtStart /\
  (checkCollision ballAtPaddle paddleAtStart = true
   <-> overlap ballAtPaddle paddleAtStart).
Proof.
  assert (Hb : nonnegSize ballAtPaddle)
    by (unfold nonnegSize; cbn; unfold BALL_SIZE; lra).
  assert (Hp : nonnegSize paddleAtStart)
    by (unfold nonnegSize; cbn; unfold PADDLE_WIDTH, PADDLE_HEIGHT; lra).
  exact (conj Hb (conj Hp
           (checkCollision_iff_overlap ballAtPaddle paddleAtStart Hb Hp))).
Defined.
End CollisionTest.

(** ** The breakout game: bricks *)

Section Bricks.
Import Breakout GameNotions Examples.

Lemma newBricks_length : List.length newBricks = (BRICK_ROWS * BRICK_COLS)%nat.
Proof. reflexivity. Qed.

Lemma newBricks_active : Forall (fun b => active b = true) newBricks.
Proof.
  apply Forall_forall. intros b Hb. unfold newBricks in Hb.
  apply in_flat_map in Hb as [row [_ Hb]].
  apply in_map_iff in Hb as [col [<- _]]. reflexivity.
Qed.

Lemma brickKept_refl (b brick : GameObject) : brickKept b brick brick.
Proof. unfold brickKept. repeat split; auto. congruence. Qed.

Lemma Forall2_brickKept_refl (b : GameObject) (l : list GameObject) :
  Forall2 (brickKept b) l l.
Proof. induction l; constructor; auto using brickKept_refl. Qed.

(** The loop over the bricks switches bricks off, never on, and only a
    brick that touches the ball. *)
Lemma hitFirst_kept (b : GameObject) (l : list GameObject) :
  Forall2 (brickKept b) l (fst (hitFirst b l)).
Proof.
  induction l as [|brick rest IH]; cbn [hitFirst].
  - constructor.
  - destruct (active brick && checkCollision b brick) eqn:E.
    + cbn [fst]. constructor.
      * apply andb_true_iff in E as [Ha Hc].
        unfold brickKept; cbn. repeat split; auto; discriminate.
      * apply Forall2_brickKept_refl.
    + destruct (hitFirst b rest) as [rest' hit]. cbn [fst] in *.
      constructor; [apply brickKept_refl | exact IH].
Qed.

Lemma ball_bounceWalls (s : GameState) : ball (bounceWalls s) = ball s.
Proof. unfold bounceWalls. destruct (_ || _); destruct (Rgtb _ _); reflexivity. Qed.

Lemma paddle_bounceWalls (s : GameState) : paddle (bounceWalls s) = paddle s.
Proof. unfold bounceWalls. destruct (_ || _); destruct (Rgtb _ _); reflexivity. Qed.

Lemma ball_bouncePaddle (s : GameState) : ball (bouncePaddle s) = ball s.
Proof. unfold bouncePaddle. destruct (checkCollision _ _); reflexivity. Qed.

Lemma bricks_hitBricks (s : GameState) :
  bricks (hitBricks s) = fst (hitFirst (ball s) (bricks s)).
Proof.
  unfold hitBricks. destruct (hitFirst (ball s) (bricks s)) as [l hit].
  destruct hit; reflexivity.
Qed.

Lemma bricks_bounceWalls (s : GameState) : bricks (bounceWalls s) = bricks s.
Proof. unfold bounceWalls. destruct (_ || _); destruct (Rgtb _ _); reflexivity. Qed.

Lemma bricks_bouncePaddle (s : GameState) : bricks (bouncePaddle s) = bricks s.
Proof. unfold bouncePaddle. destruct (checkCollision _ _); reflexivity. Qed.

Lemma bricks_checkFell (s : GameState) : bricks (checkFell s) = bricks s.
Proof. unfold checkFell. destruct (Rltb _ _); reflexivity. Qed.

Lemma score_bounceWalls (s : GameState) : score (bounceWalls s) = score s.
Proof. unfold bounceWalls. destruct (_ || _); destruct (Rgtb _ _); reflexivity. Qed.

Lemma score_bouncePaddle (s : GameState) : score (bouncePaddle s) = score s.
Proof. unfold bouncePaddle. destruct (checkCollision _ _); reflexivity. Qed.

Lemma bricks_afterBricks (s : GameState) :
  Forall2 (brickKept (ball (moveBall s))) (bricks s) (bricks (afterBricks s)).
Proof.
  unfold afterBricks.
  rewrite bricks_checkFell, bricks_hitBricks, bricks_bouncePaddle,
    bricks_bounceWalls, ball_bouncePaddle, ball_bounceWalls.
  change (bricks (moveBall s)) with (bricks s). apply hitFirst_kept.
Qed.

Lemma updateGame_unfold (r : Z) (s : GameState) :
  updateGame r s = checkCleared r (afterBricks s).
Proof. reflexivity. Qed.

Lemma allBricksDestroyed_none (s : GameState) :
  allBricksDestroyed s = true <-> noneActive (bricks s).
Proof.
  unfold allBricksDestroyed, noneActive. rewrite forallb_forall, Forall_forall.
  split; intros H brick Hin; specialize (H brick Hin).
  - now apply negb_true_iff in H.
  - now apply negb_true_iff.
Qed.

Lemma allBricksDestroyed_some (s : GameState) :
  allBricksDestroyed s = false <-> someActive (bricks s).
Proof.
  unfold allBricksDestroyed, someActive.
  induction (bricks s) as [|brick rest IH]; cbn [forallb].
  - split; [discriminate | intros H; inversion H].
  - destruct (active brick) eqn:E; cbn [negb andb].
    + split; [intros _; now left | reflexivity].
    + rewrite IH. split; [intros H; now right|].
      intros H. inversion H; subst; [congruence | assumption].
Qed.

(** A list of bricks has a brick left or has none. *)
Lemma someActive_or_noneActive (l : list GameObject) :
  someActive l \/ noneActive l.
Proof.
  induction l as [|brick rest [IH | IH]].
  - right. constructor.
  - left. now right.
  - destruct (active brick) eqn:E.
    + left. now left.
    + right. now constructor.
Qed.

Lemma someActive_not_noneActive (l : list GameObject) :
  someActive l -> noneActive l -> False.
Proof.
  unfold someActive, noneActive. rewrite Exists_exists, Forall_forall.
  intros [brick [Hin Ha]] Hn. specialize (Hn brick Hin). congruence.
Qed.

(** The two loops of [initGame] build the full grid. *)
Lemma newBricks_fullGrid : fullGrid newBricks.
Proof.
  split; [reflexivity|]. split; [exact newBricks_active|].
  intros row col Hr Hc. unfold BRICK_ROWS in Hr. unfold BRICK_COLS in Hc.
  do 5 (destruct row as [|row];
        [do 8 (destruct col as [|col];
               [eexists; split; [reflexivity | split; reflexivity]|]); lia|]).
  lia.
Qed.

(** C5: in an [updateGame] step that leaves a brick, every brick keeps
    its place, is active afterwards only if it was active before, and has
    gone from active to inactive only if it touches the ball where the step
    has moved it; in a step whose loop over the bricks leaves no brick
    active, the bricks afterwards are the full grid of
    [BRICK_ROWS * BRICK_COLS] bricks, every one active and at its place.
    One of the two is always the case. *)
Theorem updateGame_bricks (r : Z) (s : GameState) :
  (someActive (bricks (afterBricks s)) ->
   Forall2 (brickKept (ball (moveBall s)))
           (bricks s) (bricks (updateGame r s))) /\
  (noneActive (bricks (afterBricks s)) ->
   fullGrid (bricks (updateGame r s))) /\
  (someActive (bricks (afterBricks s))
   \/ noneActive (bricks (afterBricks s))).
Proof.
  rewrite updateGame_unfold. unfold checkCleared. split; [|split].
  - intros Hsome. apply allBricksDestroyed_some in Hsome. rewrite Hsome.
    apply bricks_afterBricks.
  - intros Hnone. apply allBricksDestroyed_none in Hnone. rewrite Hnone.
    cbn [bricks set_gameStarted initGame set_score set_gameOver set_bricks].
    exact newBricks_fullGrid.
  - apply someActive_or_noneActive.
Qed.

(** C7: when the loop over the bricks of an [updateGame] step leaves no
    brick active, the game is set up anew and stays started: the score is
    0 whatever it was, the game is not over, the bricks are the full
    grid of [BRICK_ROWS * BRICK_COLS] active bricks at their places, paddle
    and ball are back at their starting places and the ball has its
    starting velocity. *)
Theorem updateGame_cleared (r : Z) (s : GameState) :
  noneActive (bricks (afterBricks s)) ->
  let s' := updateGame r s in
  gameStarted s' = true /\
  score s' = 0%Z /\
  gameOver s' = false /\
  fullGrid (bricks s') /\
  position (paddle s') = vec2.mk 0 (-0.9) /\
  size (paddle s') = vec2.mk PADDLE_WIDTH PADDLE_HEIGHT /\
  position (ball s') = vec2.mk 0 (-0.7) /\
  size (ball s') = vec2.mk BALL_SIZE BALL_SIZE /\
  ballVelocity s' =
    vec2.mk (BALL_VELOCITY * sin (IZR (Z.rem r 90 - 45) * 3.14159 / 180))
            BALL_VELOCITY.
Proof.
  intros Hnone s'. subst s'. rewrite updateGame_unfold. unfold checkCleared.
  apply allBricksDestroyed_none in Hnone. rewrite Hnone.
  cbn [gameStarted score gameOver bricks paddle ball ballVelocity position
       size set_gameStarted initGame set_score set_gameOver set_bricks
       resetBall set_ballVelocity set_ball set_paddle].
  do 3 (split; [reflexivity|]). split; [exact newBricks_fullGrid|].
  repeat split.
Qed.
End Bricks.

Section BricksExamples.
Import Breakout GameNotions Examples.

Lemma lastBrick_cleared : allBricksDestroyed (afterBricks lastBrick) = true.
Proof.
  unfold allBricksDestroyed, afterBricks.
  rewrite bricks_checkFell, bricks_hitBricks, bricks_bouncePaddle,
    bricks_bounceWalls, ball_bouncePaddle, ball_bounceWalls.
  cbn [hitFirst lastBrick bricks moveBall set_ball active set_active andb].
  match goal with
  | |- context [checkCollision ?a ?b] =>
      assert (H : checkCollision a b = true)
        by (apply checkCollision_spec; cbn;
            unfold BALL_SIZE, BRICK_WIDTH, BRICK_HEIGHT; lra);
      rewrite H
  end.
  reflexivity.
Qed.

Lemma lastBrick_none : noneActive (bricks (afterBricks lastBrick)).
Proof. apply allBricksDestroyed_none. exact lastBrick_cleared. Qed.

Lemma updateGame_cleared_witness :
  score lastBrick = 390%Z /\
  score (updateGame 45 lastBrick) = 0%Z /\
  gameStarted (updateGame 45 lastBrick) = true /\
  List.length (bricks (updateGame 45 lastBrick)) = 40%nat.
Proof.
  destruct (updateGame_cleared 45 lastBrick lastBrick_none)
    as [Hstarted [Hscore [_ [[Hlen _] _]]]].
  exact (conj eq_refl (conj Hscore (conj Hstarted Hlen))).
Defined.

Lemma ballOnPaddle_hit :
  checkCollision (ball (bounceWalls (moveBall ballOnPaddle)))
                 (paddle (bounceWalls (moveBall ballOnPaddle))) = true.
Proof.
  rewrite ball_bounceWalls, paddle_bounceWalls.
  apply checkCollision_spec; cbn;
    unfold BALL_SIZE, PADDLE_WIDTH, PADDLE_HEIGHT; lra.
Qed.

End BricksExamples.

(** ** The breakout game: the four minutes before the game starts *)

Section Waiting.
Import Breakout GameNotions Examples.

Lemma game_processInput_waiting (k : Keys) (l : Loop) :
  gameStarted (game l) = false -> game (processInput k l) = game l.
Proof.
  intros H. unfold processInput.
  destruct (KEY_ESCAPE k); cbn [game]; rewrite H; reflexivity.
Qed.

Lemma game_displayCountdown (t : R) (l : Loop) :
  game (displayCountdown t l) = game l.
Proof. unfold displayCountdown. destruct (Z.eqb _ _); reflexivity. Qed.

(** A frame of the wait: [updateGame] is not called, [processInput] leaves
    the paddle alone, the frame is [displayCountdown] and nothing else. *)
Lemma frame_waiting (f : Frame) (l : Loop) :
  gameStarted (game l) = false ->
  elapsedTime f (game l) < IZR WAIT_TIME_SECONDS ->
  game (frame f l) = game l.
Proof.
  intros Hs Ht. unfold frame.
  pose proof (game_processInput_waiting (keys f) l Hs) as Hp.
  rewrite Hp.
  assert (E : Rgeb (glfwGetTime f - startTime (game l))
                   (IZR WAIT_TIME_SECONDS) = false)
    by (apply Rgeb_false; exact Ht).
  rewrite E.
  destruct (closeRequested f); cbn [game];
    rewrite game_displayCountdown; exact Hp.
Qed.

Lemma renderLoop_stopped (frames : list Frame) (l : Loop) :
  shouldClose l || gameOver (game l) = true -> renderLoop frames l = l.
Proof. intros H. destruct frames; cbn [renderLoop]; [|rewrite H]; reflexivity. Qed.

Lemma renderLoop_app (a b : list Frame) (l : Loop) :
  renderLoop (a ++ b) l = renderLoop b (renderLoop a l).
Proof.
  revert l. induction a as [|f a IH]; intros l; cbn [renderLoop app].
  - reflexivity.
  - destruct (shouldClose l || gameOver (game l)) eqn:E.
    + symmetry. now apply renderLoop_stopped.
    + apply IH.
Qed.

Lemma renderLoop_waiting (frames : list Frame) (l : Loop) :
  gameStarted (game l) = false ->
  Forall (fun f => elapsedTime f (game l) < IZR WAIT_TIME_SECONDS) frames ->
  game (renderLoop frames l) = game l.
Proof.
  intros Hs Hall. revert l Hs Hall.
  induction frames as [|f rest IH]; intros l Hs Hall; cbn [renderLoop].
  - reflexivity.
  - destruct (shouldClose l || gameOver (game l)); [reflexivity|].
    inversion Hall as [|? ? Hf Hrest]; subst.
    pose proof (frame_waiting f l Hs Hf) as E.
    rewrite IH; rewrite ?E; auto.
Qed.

Lemma sorted_snoc (l : list R) (t : R) :
  StronglySorted Rle (l ++ [t]) -> Forall (fun u => u <= t) l.
Proof.
  induction l as [|u l IH]; cbn; intros H.
  - constructor.
  - inversion H as [|? ? Hl Hu]; subst. constructor.
    + rewrite Forall_forall in Hu. apply Hu, in_or_app. right. now left.
    + now apply IH.
Qed.

Lemma setup_game (e : Startup) (sp : N) (l : Loop) :
  setup e = Enter sp l ->
  game l = set_startTime (startClock e) (initGame (startRand e) gameState0).
Proof.
  unfold setup.
  destruct (glfwInit e), (glfwCreateWindow e), (gladLoadGLLoader e);
    cbn; intros H; inversion H; reflexivity.
Qed.

(** C9: in a run of the render loop whose clock readings do not decrease,
    a frame that reads less than [WAIT_TIME_SECONDS] since [startTime]
    finds [gameStarted] false and leaves the whole game state as it was
    before the frame, which is the state [main] set up before the loop;
    so ball, ballVelocity, paddle, bricks, score and gameOver are
    unchanged. *)
Theorem waiting_frame_keeps_game
  (e : Startup) (sp : N) (l0 : Loop) (frames : list Frame) (f : Frame) :
  setup e = Enter sp l0 ->
  StronglySorted Rle (map glfwGetTime (frames ++ [f])) ->
  glfwGetTime f - startClock e < IZR WAIT_TIME_SECONDS ->
  let before := game (renderLoop frames l0) in
  let after := game (renderLoop (frames ++ [f]) l0) in
  gameStarted before = false /\
  after = before /\
  before = game l0 /\
  (ball after = ball before /\ ballVelocity after = ballVelocity before /\
   paddle after = paddle before /\ bricks after = bricks before /\
   score after = score before /\ gameOver after = gameOver before).
Proof.
  intros Hset Hsorted Hf before after.
  pose proof (setup_game e sp l0 Hset) as Hg.
  assert (Hs0 : gameStarted (game l0) = false) by (rewrite Hg; reflexivity).
  assert (Ht0 : startTime (game l0) = startClock e) by (rewrite Hg; reflexivity).
  rewrite map_app in Hsorted. cbn [map] in Hsorted.
  apply sorted_snoc in Hsorted.
  assert (Hall : Forall (fun f' => elapsedTime f' (game l0)
                                   < IZR WAIT_TIME_SECONDS) frames).
  { rewrite Forall_forall in *. intros f' Hin. unfold elapsedTime.
    rewrite Ht0. specialize (Hsorted (glfwGetTime f')).
    assert (glfwGetTime f' <= glfwGetTime f)
      by (apply Hsorted, in_map_iff; eauto).
    lra. }
  assert (Hbefore : before = game l0)
    by (subst before; now apply renderLoop_waiting).
  assert (Hafter : after = before).
  { subst after. rewrite renderLoop_app. cbn [renderLoop].
    destruct (shouldClose _ || gameOver _); [reflexivity|].
    apply frame_waiting.
    - fold before. now rewrite Hbefore.
    - fold before. rewrite Hbefore. unfold elapsedTime. now rewrite Ht0. }
  rewrite Hafter. repeat split; auto. now rewrite Hbefore.
Qed.
End Waiting.

Section WaitingExample.
Import Breakout GameNotions Examples.

Lemma waiting_frame_keeps_game_witness :
  exists (sp : N) (l0 : Loop),
    setup goodMachine = Enter sp l0 /\
    game (renderLoop waitingFrames l0) = game l0 /\
    paddle (game (renderLoop waitingFrames l0)) = paddle (game l0).
Proof.
  eexists; eexists. split; [reflexivity|].
  assert (Hsorted : StronglySorted Rle
                      (map glfwGetTime ([mkFrame idle 1 7 false]
                                          ++ [mkFrame leftKey 2 8 false]))).
  { cbn. repeat constructor. lra. }
  assert (Hwait : glfwGetTime (mkFrame leftKey 2 8 false)
                  - startClock goodMachine < IZR WAIT_TIME_SECONDS).
  { cbn. unfold WAIT_TIME_SECONDS. lra. }
  destruct (waiting_frame_keeps_game goodMachine _ _
              [mkFrame idle 1 7 false] (mkFrame leftKey 2 8 false)
              eq_refl Hsorted Hwait) as [_ [Hafter [Hbefore _]]].
  assert (E : game (renderLoop waitingFrames
              (mkLoop (set_startTime (startClock goodMachine)
                         (initGame (startRand goodMachine) gameState0))
                      false (-1)
                      (shaderErrors goodMachine
                         ++ ["Game will start in 4 minutes. Please wait..."])))
            = set_startTime (startClock goodMachine)
                (initGame (startRand goodMachine) gameState0)).
  { exact (eq_trans Hafter Hbefore). }
  split; [exact E | exact (f_equal paddle E)].
Defined.
End WaitingExample.

(** ** The particle systems: capacity *)

Section Capacity.
Import Particles.

(** [spawnParticle] appends one particle and touches nothing else. *)
Lemma spawnParticle_push (d : Draws) (s : ParticleSystem) :
  exists p : Particle, spawnParticle d s = push_back p s.
Proof.
  unfold spawnParticle.
  destruct (kind s); eexists; reflexivity.
Qed.

Lemma length_spawnParticle (d : Draws) (s : ParticleSystem) :
  List.length (particles (spawnParticle d s)) = S (List.length (particles s)).
Proof.
  destruct (spawnParticle_push d s) as [p ->]. cbn.
  rewrite length_app. cbn. lia.
Qed.

Lemma maxParticles_spawnParticle (d : Draws) (s : ParticleSystem) :
  maxParticles (spawnParticle d s) = maxParticles s.
Proof. destruct (spawnParticle_push d s) as [p ->]. reflexivity. Qed.

Lemma kind_spawnParticle (d : Draws) (s : ParticleSystem) :
  kind (spawnParticle d s) = kind s.
Proof. destruct (spawnParticle_push d s) as [p ->]. reflexivity. Qed.

Lemma isActive_spawnParticle (d : Draws) (s : ParticleSystem) :
  isActive (spawnParticle d s) = isActive s.
Proof. destruct (spawnParticle_push d s) as [p ->]. reflexivity. Qed.

Lemma spawnLoop_shape (fuel : nat) (rnd : nat -> Draws) (k : nat)
      (s : ParticleSystem) :
  sameShape s (spawnLoop fuel rnd k s).
Proof.
  revert k s. induction fuel as [|fuel IH]; intros k s; cbn [spawnLoop].
  - split; reflexivity.
  - destruct (_ && _); [|split; reflexivity].
    destruct (IH (S k)
                (set_timeSinceLastSpawn
                   (timeSinceLastSpawn (spawnParticle (rnd k) s)
                    - spawnRate (spawnParticle (rnd k) s))
                   (spawnParticle (rnd k) s))) as [Hk Hm].
    split.
    + rewrite Hk. cbn. apply kind_spawnParticle.
    + rewrite Hm. cbn. apply maxParticles_spawnParticle.
Qed.

(** The guard [particles.size() < maxParticles] keeps the spawn loop
    within the capacity. *)
Lemma spawnLoop_within (fuel : nat) (rnd : nat -> Draws) (k : nat)
      (s : ParticleSystem) :
  withinCapacity s -> withinCapacity (spawnLoop fuel rnd k s).
Proof.
  revert k s. induction fuel as [|fuel IH]; intros k s Hs; cbn [spawnLoop].
  - exact Hs.
  - destruct (Rgeb _ _ && _) eqn:E; [|exact Hs].
    apply andb_true_iff in E as [_ E]. apply Nat.ltb_lt in E.
    apply IH. unfold withinCapacity. cbn.
    rewrite length_spawnParticle, maxParticles_spawnParticle. lia.
Qed.

(** The fuel of [spawnDue] is enough: when the loop is left, its condition
    is false. *)
Lemma spawnLoop_exit (fuel : nat) (rnd : nat -> Draws) (k : nat)
      (s : ParticleSystem) :
  (maxParticles s - List.length (particles s) <= fuel)%nat ->
  let s' := spawnLoop fuel rnd k s in
  Rgeb (timeSinceLastSpawn s') (spawnRate s')
  && (List.length (particles s') <? maxParticles s')%nat = false.
Proof.
  revert k s. induction fuel as [|fuel IH]; intros k s Hf; cbn [spawnLoop].
  - cbn zeta. apply andb_false_iff. right. apply Nat.ltb_ge. lia.
  - destruct (Rgeb (timeSinceLastSpawn s) (spawnRate s)
              && (List.length (particles s) <? maxParticles s)%nat) eqn:E;
      [|exact E].
    apply IH. cbn.
    rewrite length_spawnParticle, maxParticles_spawnParticle. lia.
Qed.

Lemma spawnDue_exit (rnd : nat -> Draws) (s : ParticleSystem) :
  let s' := spawnDue rnd s in
  Rgeb (timeSinceLastSpawn s') (spawnRate s')
  && (List.length (particles s') <? maxParticles s')%nat = false.
Proof. unfold spawnDue. apply spawnLoop_exit. lia. Qed.

(** The update loop only erases. *)
Lemma length_ageParticles (move : nat -> Particle -> Particle) (dt : R)
      (calls : nat) (l : list Particle) :
  (List.length (ageParticles move dt calls l) <= List.length l)%nat.
Proof.
  revert calls. induction l as [|p rest IH]; intros calls; cbn.
  - lia.
  - destruct (Rleb _ _); cbn.
    + specialize (IH calls). lia.
    + specialize (IH (S calls)). lia.
Qed.

Lemma aging_then_spawning (move : nat -> Particle -> Particle) (t : Tick)
      (s : ParticleSystem) :
  withinCapacity s ->
  let s' := spawnDue (rnd t)
              (set_timeSinceLastSpawn (timeSinceLastSpawn s + dt t)
                 (set_particles (ageParticles move (dt t) 0 (particles s)) s)) in
  sameShape s s' /\ withinCapacity s'.
Proof.
  intros Hs s'. subst s'. unfold spawnDue. split.
  - apply (spawnLoop_shape _ _ _
             (set_timeSinceLastSpawn _ (set_particles _ s))).
  - apply spawnLoop_within. unfold withinCapacity in *. cbn.
    pose proof (length_ageParticles move (dt t) 0 (particles s)). lia.
Qed.

Lemma update_within (t : Tick) (s : ParticleSystem) :
  withinCapacity s -> sameShape s (update t s) /\ withinCapacity (update t s).
Proof.
  intros Hs. unfold update, ParticleSystem_update, CoffeeCeremonySystem_update.
  destruct (kind s); destruct (isActive s); cbn [negb];
    try (split; [split; reflexivity | exact Hs]);
    apply (aging_then_spawning _ t s Hs).
Qed.

Lemma updates_within (ticks : list Tick) (s : ParticleSystem) :
  withinCapacity s ->
  sameShape s (updates ticks s) /\ withinCapacity (updates ticks s).
Proof.
  revert s. induction ticks as [|t rest IH]; intros s Hs.
  - split; [split; reflexivity | exact Hs].
  - change (updates (t :: rest) s) with (updates rest (update t s)).
    destruct (update_within t s Hs) as [[Hk Hm] Hw].
    destruct (IH (update t s) Hw) as [[Hk' Hm'] Hw'].
    split; [split; congruence | exact Hw'].
Qed.

Lemma spawn_fold (rnd : nat -> Draws) (l : list nat) (s : ParticleSystem) :
  let s' := fold_left (fun s i => spawnParticle (rnd i) s) l s in
  sameShape s s' /\
  List.length (particles s') = (List.length (particles s) + List.length l)%nat.
Proof.
  revert s. induction l as [|i l IH]; intros s; cbn.
  - split; [split; reflexivity | lia].
  - destruct (IH (spawnParticle (rnd i) s)) as [[Hk Hm] Hl].
    rewrite kind_spawnParticle in Hk.
    rewrite maxParticles_spawnParticle in Hm.
    rewrite length_spawnParticle in Hl.
    split; [split; assumption | lia].
Qed.

Lemma prepopulate_within (rnd : nat -> Draws) (s : ParticleSystem) :
  particles s = [] ->
  sameShape s (prepopulate rnd s) /\ withinCapacity (prepopulate rnd s).
Proof.
  intros Hnil. unfold prepopulate, withinCapacity.
  destruct (spawn_fold rnd (seq 0 (maxParticles s / 4)) s) as [[Hk Hm] Hl].
  split; [split; assumption|].
  rewrite Hl, Hm, Hnil, length_seq.
  change (List.length (@nil Particle)) with 0%nat. rewrite Nat.add_0_l.
  apply Nat.Div0.div_le_upper_bound. lia.
Qed.

Lemma create_within (k : SystemKind) (rnd : nat -> Draws) :
  kind (create k rnd) = k /\ maxParticles (create k rnd) = capacity k /\
  withinCapacity (create k rnd).
Proof.
  destruct k; unfold create;
    match goal with
    | |- context [prepopulate rnd ?s] =>
        destruct (prepopulate_within rnd s eq_refl) as [[Hk Hm] Hw];
        rewrite Hk, Hm; repeat split; exact Hw
    end.
Qed.

(** C2: whichever of the five systems is constructed, and whatever
    sequence of [update] calls follows (for any [dt], non-negative or
    not), the capacity stays the one passed at construction and the
    [particles] vector never holds more than [maxParticles] particles. *)
Theorem particles_within_capacity
  (k : SystemKind) (rnd : nat -> Draws) (ticks : list Tick) :
  let s := updates ticks (create k rnd) in
  maxParticles s = capacity k /\
  (List.length (particles s) <= maxParticles s)%nat.
Proof.
  destruct (create_within k rnd) as [_ [Hm Hw]].
  destruct (updates_within ticks (create k rnd) Hw) as [[_ Hm'] Hw'].
  cbn zeta. split; [congruence | exact Hw'].
Qed.
End Capacity.

(** ** The particle systems: expiry *)

Section Expiry.
Import Particles ParticleExamples.

Lemma fall_keeps (g : vec3.t) (dt : R) : keeps (fun _ => fall g dt).
Proof. intros k p. cbn. auto. Qed.

Lemma drift_keeps (g j : vec3.t) (dt : R) (clock : nat -> R) :
  keeps (fun k => drift g j dt (clock k)).
Proof. intros k p. cbn. auto. Qed.

Lemma ageParticles_aged (move : nat -> Particle -> Particle) (dt : R)
      (calls : nat) (l : list Particle) :
  keeps move ->
  Forall2 (aged dt) (filter (survives dt) l) (ageParticles move dt calls l).
Proof.
  intros Hk. revert calls.
  induction l as [|p rest IH]; intros calls; cbn [filter ageParticles].
  - constructor.
  - unfold survives at 1. cbn [life set_life].
    destruct (Rleb (life p - dt) 0); cbn [negb].
    + apply IH.
    + constructor; [|apply IH].
      destruct (Hk calls (set_life (life p - dt) p)) as [Hl [Hs [Hm Hu]]].
      unfold aged. rewrite Hl, Hs, Hm, Hu. cbn. auto.
Qed.

Lemma ageParticles_alive (move : nat -> Particle -> Particle) (dt : R)
      (calls : nat) (l : list Particle) :
  keeps move ->
  Forall (fun p => 0 < life p) (ageParticles move dt calls l).
Proof.
  intros Hk. revert calls.
  induction l as [|p rest IH]; intros calls; cbn [ageParticles].
  - constructor.
  - cbn [life set_life]. destruct (Rleb (life p - dt) 0) eqn:E.
    + apply IH.
    + constructor; [|apply IH].
      destruct (Hk calls (set_life (life p - dt) p)) as [Hl _].
      rewrite Hl. cbn. now apply Rleb_false in E.
Qed.

Lemma linearRand_range (Min Max u : R) :
  Min <= Max -> 0 <= u <= 1 -> Min <= linearRand Min Max u <= Max.
Proof. unfold linearRand. intros. nra. Qed.

(** Every system draws the life of a new particle from a range above 0. *)
Lemma spawnParticle_alive (d : Draws) (s : ParticleSystem) :
  (forall i : nat, 0 <= uniform d i <= 1) ->
  exists p : Particle, spawnParticle d s = push_back p s /\ 0 < life p.
Proof.
  intros Hu. unfold spawnParticle.
  destruct (kind s); eexists; (split; [reflexivity|]); cbn [life].
  - pose proof (linearRand_range 1 2 (uniform d 5) ltac:(lra) (Hu _)). lra.
  - pose proof (linearRand_range 2 4 (uniform d 9) ltac:(lra) (Hu _)). lra.
  - pose proof (linearRand_range 0.5 1.5 (uniform d 9) ltac:(lra) (Hu _)). lra.
  - pose proof (linearRand_range 5 10 (uniform d 8) ltac:(lra) (Hu _)). lra.
  - pose proof (linearRand_range 4 6 (uniform d 6) ltac:(lra) (Hu _)). lra.
Qed.

Lemma spawnLoop_spawned (fuel : nat) (rnd : nat -> Draws) (k : nat)
      (s : ParticleSystem) :
  unitDraws rnd ->
  exists spawned : list Particle,
    particles (spawnLoop fuel rnd k s) = particles s ++ spawned /\
    Forall (fun p => 0 < life p) spawned.
Proof.
  intros Hu. revert k s.
  induction fuel as [|fuel IH]; intros k s; cbn [spawnLoop].
  - exists []. split; [now rewrite app_nil_r | constructor].
  - destruct (Rgeb (timeSinceLastSpawn s) (spawnRate s)
              && (List.length (particles s) <? maxParticles s)%nat).
    + destruct (spawnParticle_alive (rnd k) s (Hu k)) as [p [Hp Hlife]].
      rewrite Hp.
      destruct (IH (S k)
                  (set_timeSinceLastSpawn
                     (timeSinceLastSpawn (push_back p s)
                      - spawnRate (push_back p s)) (push_back p s)))
        as [more [Hmore Halive]].
      exists (p :: more). split.
      * rewrite Hmore. cbn. now rewrite <- app_assoc.
      * now constructor.
    + exists []. split; [now rewrite app_nil_r | constructor].
Qed.

Lemma aging_then_spawning_spec (move : nat -> Particle -> Particle)
      (t : Tick) (s : ParticleSystem) :
  keeps move -> unitDraws (rnd t) ->
  let s' := spawnDue (rnd t)
              (set_timeSinceLastSpawn (timeSinceLastSpawn s + dt t)
                 (set_particles (ageParticles move (dt t) 0 (particles s)) s)) in
  exists survivors spawned : list Particle,
    particles s' = survivors ++ spawned /\
    Forall2 (aged (dt t)) (filter (survives (dt t)) (particles s)) survivors /\
    Forall (fun p => 0 < life p) (particles s').
Proof.
  intros Hk Hu s'. subst s'. unfold spawnDue.
  set (s0 := set_timeSinceLastSpawn _ (set_particles _ s)).
  destruct (spawnLoop_spawned
              (maxParticles s0 - List.length (particles s0)) (rnd t) 0 s0 Hu)
    as [spawned [Hp Ha]].
  exists (ageParticles move (dt t) 0 (particles s)), spawned.
  split; [exact Hp|]. split.
  - now apply ageParticles_aged.
  - rewrite Hp. apply Forall_app.
    split; [now apply ageParticles_alive | exact Ha].
Qed.

(** C3: [update(dt)] on an active system keeps, in their order, exactly
    the particles whose life minus [dt] is above 0, each with its life
    decreased by [dt], drops the others, and appends the particles it
    spawns; with [linearRand] drawing from the range it is given, every
    particle in the vector has a positive life when [update] returns. *)
Theorem update_removes_expired (t : Tick) (s : ParticleSystem) :
  isActive s = true -> unitDraws (rnd t) ->
  exists survivors spawned : list Particle,
    particles (update t s) = survivors ++ spawned /\
    Forall2 (aged (dt t)) (filter (survives (dt t)) (particles s)) survivors /\
    Forall (fun p => 0 < life p) (particles (update t s)).
Proof.
  intros Ha Hu.
  unfold update, ParticleSystem_update, CoffeeCeremonySystem_update.
  rewrite Ha. cbn [negb].
  destruct (kind s);
    first [ apply (aging_then_spawning_spec _ t s (fall_keeps _ _) Hu)
          | apply (aging_then_spawning_spec _ t s
                     (drift_keeps _ _ _ (glfwGetTime t)) Hu) ].
Qed.

Lemma halves_unit : unitDraws halves.
Proof. intros k i. cbn. lra. Qed.

Lemma update_removes_expired_witness :
  exists survivors spawned : list Particle,
    particles (update sixtiethOfSecond smallDust) = survivors ++ spawned /\
    Forall2 (aged (1 / 60))
            (filter (survives (1 / 60)) (particles smallDust)) survivors /\
    Forall (fun p => 0 < life p)
           (particles (update sixtiethOfSecond smallDust)).
Proof.
  exact (update_removes_expired sixtiethOfSecond smallDust eq_refl halves_unit).
Defined.
End Expiry.

(** ** The race: finished students *)

Section Finished.
Import Race RaceExamples.
Variable RAND_MAX : Z.

Lemma stepStudent_finished (dt t : R) (s : Student) :
  finished s = true -> stepStudent dt t s = s.
Proof. intros H. unfold stepStudent. now rewrite H. Qed.

Lemma map_step_finished (dt t : R) (l : list Student) (k : nat) (s : Student) :
  nth_error l k = Some s -> finished s = true ->
  nth_error (map (stepStudent dt t) l) k = Some s.
Proof.
  intros Hk Hf. rewrite nth_error_map, Hk. cbn.
  now rewrite stepStudent_finished.
Qed.

Lemma spaceKey_keeps (i : Input) (st : State) :
  students (spaceKey i st) = students st /\
  rPressed (spaceKey i st) = rPressed st /\
  deltaTime (spaceKey i st) = deltaTime st.
Proof.
  unfold spaceKey.
  destruct (KEY_SPACE i), (spacePressed st), (raceStarted st),
    (raceFinished st); cbn; auto.
Qed.

(** Without a fresh press of R, [processInput] returns and leaves the
    students alone. *)
Lemma processInput_no_reset (i : Input) (st : State) :
  resets i st = false ->
  exists st' : State,
    processInput RAND_MAX i st = Some st' /\
    students st' = students st /\ rPressed st' = KEY_R i /\
    deltaTime st' = deltaTime st /\
    (shouldClose st = true -> shouldClose st' = true).
Proof.
  unfold resets, processInput, rKey. intros Hr.
  set (st1 := if KEY_ESCAPE i then _ else st).
  assert (H1 : students st1 = students st /\ rPressed st1 = rPressed st /\
               deltaTime st1 = deltaTime st)
    by (subst st1; destruct (KEY_ESCAPE i); cbn; auto).
  destruct H1 as [Hs1 [Hr1 Hd1]].
  destruct (spaceKey_keeps i st1) as [Hs2 [Hr2 Hd2]].
  assert (Hc : shouldClose st = true -> shouldClose (spaceKey i st1) = true).
  { intros Hc. subst st1. unfold spaceKey.
    destruct (KEY_ESCAPE i), (KEY_SPACE i), (spacePressed st),
      (raceStarted st), (raceFinished st); cbn; auto. }
  destruct (KEY_R i) eqn:ER.
  - rewrite Hr2, Hr1. destruct (rPressed st) eqn:EP; [|discriminate].
    eexists. split; [reflexivity|]. repeat split; try congruence. exact Hc.
  - eexists. split; [reflexivity|]. cbn. repeat split; try congruence.
    exact Hc.
Qed.

Lemma frame_no_reset (i : Input) (st : State) :
  resets i st = false ->
  exists st' : State,
    frame RAND_MAX i st = Some st' /\
    rPressed st' = KEY_R i /\
    students st' = map (stepStudent (glfwGetTime i - lastFrame st)
                                    (glfwGetTime i)) (students st).
Proof.
  intros Hr. unfold frame.
  set (st0 := mkState _ _ _ _ _ _ _ _ _ _).
  destruct (processInput_no_reset i st0 Hr) as [st1 [Hp [Hs [Hk [Hd _]]]]].
  rewrite Hp. eexists. split; [reflexivity|]. cbn. split; [exact Hk|].
  now rewrite Hs, Hd.
Qed.

Lemma frames_no_reset (inputs : list Input) (st : State) :
  resetFree inputs (rPressed st) = true ->
  exists st' : State,
    frames RAND_MAX inputs st = Some st' /\
    forall (k : nat) (s : Student),
      nth_error (students st) k = Some s -> finished s = true ->
      nth_error (students st') k = Some s.
Proof.
  revert st. induction inputs as [|i rest IH]; intros st Hfree;
    cbn [frames resetFree] in *.
  - exists st. auto.
  - apply andb_true_iff in Hfree as [Hi Hrest].
    destruct (shouldClose st); [exists st; auto|].
    apply negb_true_iff in Hi.
    destruct (frame_no_reset i st Hi) as [st1 [Hf [Hk Hs]]].
    rewrite Hf. rewrite <- Hk in Hrest.
    destruct (IH st1 Hrest) as [st' [Hrun Hkeep]].
    exists st'. split; [exact Hrun|].
    intros k s Hnth Hfin. apply Hkeep; [|exact Hfin].
    rewrite Hs. now apply map_step_finished.
Qed.

Lemma assign_some (l : list Student) (i : nat) (f : Student -> Student) :
  (i < List.length l)%nat ->
  exists (s : Student) (l' : list Student),
    assign l i f = Some l' /\ List.length l' = List.length l /\
    nth_error l i = Some s /\ nth_error l' i = Some (f s) /\
    forall j : nat, j <> i -> nth_error l' j = nth_error l j.
Proof.
  revert i. induction l as [|s rest IH]; intros i Hi; cbn in Hi; [lia|].
  destruct i as [|i]; cbn [assign].
  - exists s, (f s :: rest). repeat split. intros [|j] Hj; [lia | reflexivity].
  - destruct (IH i ltac:(lia)) as [s' [rest' [Ha [Hl [Hn [Hn' Ho]]]]]].
    rewrite Ha. exists s', (s :: rest'). cbn. repeat split; auto.
    intros [|j] Hj; [reflexivity|]. cbn. apply Ho. lia.
Qed.

Lemma initStudent_atStart (rand : nat -> Z) (i : nat) (s : Student) :
  atStart i (initStudent RAND_MAX rand i s).
Proof. unfold atStart. cbn. auto. Qed.

Lemma initLoop_spec (rand : nat -> Z) (count i : nat) (l : list Student) :
  (i + count <= List.length l)%nat ->
  exists l' : list Student,
    initLoop RAND_MAX rand i count l = Some l' /\
    List.length l' = List.length l /\
    (forall j : nat, (j < i)%nat -> nth_error l' j = nth_error l j) /\
    (forall j : nat, (i <= j < i + count)%nat ->
       exists s : Student, nth_error l' j = Some s /\ atStart j s) /\
    (forall j : nat, (i + count <= j)%nat -> nth_error l' j = nth_error l j).
Proof.
  revert i l. induction count as [|count IH]; intros i l Hlen;
    cbn [initLoop].
  - exists l. repeat split; auto. intros j Hj. lia.
  - destruct (assign_some l i (initStudent RAND_MAX rand i) ltac:(lia))
      as [s [l1 [Ha [Hl1 [_ [Hi Ho]]]]]].
    rewrite Ha.
    destruct (IH (S i) l1 ltac:(lia)) as [l' [Hrun [Hl' [Hlo [Hmid Hhi]]]]].
    exists l'. split; [exact Hrun|]. split; [congruence|]. split; [|split].
    + intros j Hj. rewrite Hlo by lia. apply Ho. lia.
    + intros j Hj. destruct (Nat.eq_dec j i) as [->|Hne].
      * exists (initStudent RAND_MAX rand i s).
        split; [|apply initStudent_atStart].
        rewrite Hlo by lia. exact Hi.
      * apply Hmid. lia.
    + intros j Hj. rewrite Hhi by lia. apply Ho. lia.
Qed.

(** [resetRace] on the [NUM_STUDENTS] students of the race returns, and
    puts every one of them back at the start. *)
Lemma resetRace_spec (rand : nat -> Z) (st : State) :
  List.length (students st) = NUM_STUDENTS ->
  exists st' : State,
    resetRace RAND_MAX rand st = Some st' /\
    raceStarted st' = false /\ raceFinished st' = false /\
    List.length (students st') = NUM_STUDENTS /\
    forall (j : nat) (s : Student),
      nth_error (students st') j = Some s -> atStart j s.
Proof.
  intros Hlen. unfold resetRace, initializeStudents.
  destruct (initLoop_spec rand NUM_STUDENTS 0 (students st) ltac:(lia))
    as [l' [Hrun [Hl' [_ [Hmid _]]]]].
  rewrite Hrun. eexists. split; [reflexivity|]. cbn [raceStarted
    raceFinished students].
  split; [reflexivity|]. split; [reflexivity|]. split; [congruence|].
  intros j s Hj.
  assert (Hlt : (j < List.length l')%nat)
    by (apply nth_error_Some; congruence).
  destruct (Hmid j ltac:(lia)) as [s' [Hs' Hstart]]. congruence.
Qed.

End Finished.

Section FinishedExample.
Import Race RaceExamples.

End FinishedExample.

(** ** The models at work on concrete inputs *)

(** Settles the comparisons of concrete reals in the goal. *)
Ltac compare_reals :=
  repeat first
    [ rewrite (proj2 (Rleb_true _ _)) by lra
    | rewrite (proj2 (Rleb_false _ _)) by lra
    | rewrite (proj2 (Rgeb_true _ _)) by lra
    | rewrite (proj2 (Rgeb_false _ _)) by lra
    | rewrite (proj2 (Rltb_true _ _)) by lra
    | rewrite (proj2 (Rltb_false _ _)) by lra
    | rewrite (proj2 (Rgtb_true _ _)) by lra
    | rewrite (proj2 (Rgtb_false _ _)) by lra ].

Section Running.
Import ParticleExamples RaceExamples.

(** A sixtieth of a second on the small dust system: the particle with
    0.01 s to live is erased, the other one ages, and one particle is
    spawned, with a life of 7.5 s for a draw of one half. *)
Example update_smallDust :
  map Particles.life
      (Particles.particles (Particles.update sixtiethOfSecond smallDust))
  = [6 - 1 / 60; 0.5 * (10 - 5) + 5].
Proof.
  unfold Particles.update, Particles.ParticleSystem_update,
    Particles.spawnDue, smallDust, sixtiethOfSecond.
  cbn [Particles.kind Particles.isActive negb Particles.particles
       Particles.ageParticles Particles.set_life Particles.life
       Particles.dt Particles.set_particles Particles.gravity].
  compare_reals.
  cbn [Particles.ageParticles Particles.set_life Particles.life].
  compare_reals.
  cbn [Particles.ageParticles Particles.set_timeSinceLastSpawn
       Particles.maxParticles Particles.particles List.length Nat.sub
       Particles.spawnLoop Particles.timeSinceLastSpawn Particles.spawnRate
       Particles.set_particles Nat.ltb Nat.leb andb].
  compare_reals.
  cbn [andb Particles.spawnParticle Particles.kind
       Particles.DustSystem_spawnParticle Particles.push_back
       Particles.set_particles Particles.particles
       Particles.set_timeSinceLastSpawn Particles.timeSinceLastSpawn
       Particles.spawnRate Particles.rnd app List.length Nat.ltb Nat.leb
       Particles.maxParticles].
  compare_reals.
  reflexivity.
Qed.

(** The runner four metres up the track, at 2.5 m/s, crosses the line at
    -25 within twelve seconds and gets the time of that frame. *)
Example running_finishes :
  Race.stepStudent 12 30 running
  = Race.mkStudent "Ben" 1 (4 - 2.5 * 12) 2.5 1 4.14159 (vec3.mk 0.4 0.6 0.8)
                   30 true.
Proof.
  unfold Race.stepStudent, running. cbn [Race.finished negb Race.position
    Race.speed]. unfold Race.TRACK_LENGTH. compare_reals. reflexivity.
Qed.

(** A sixtieth of a second moves him and leaves him running. *)
Example running_runs :
  Race.stepStudent (1 / 60) 30 running
  = Race.mkStudent "Ben" 1 (4 - 2.5 * (1 / 60)) 2.5 1 4.14159
                   (vec3.mk 0.4 0.6 0.8) 0 false.
Proof.
  unfold Race.stepStudent, running. cbn [Race.finished negb Race.position
    Race.speed]. unfold Race.TRACK_LENGTH. compare_reals. reflexivity.
Qed.

(** [initializeStudents] indexes [students[0]] to [students[31]]: on a
    vector of two students it runs past the end. *)
Example initializeStudents_short :
  Race.initializeStudents 32767 (fun _ => 0%Z) [arrived; running] = None.
Proof. reflexivity. Qed.

(** Pressing R in the middle of a race of two students therefore has no
    defined outcome, while a frame without R has one. *)
Example frame_reset_short :
  Race.frame 32767
    (Race.mkInput false false true 13.016 13.016 (fun _ => 0%Z)) midRace
  = None.
Proof. reflexivity. Qed.
End Running.

Section Playing.
Import Breakout GameNotions Examples.

(** The ball of [ballAtPaddle] touches the paddle, and does not touch the
    first brick of the grid. *)
Example ball_touches_paddle : checkCollision ballAtPaddle paddleAtStart = true.
Proof.
  apply checkCollision_spec; cbn;
    unfold BALL_SIZE, PADDLE_WIDTH, PADDLE_HEIGHT; lra.
Qed.

Example ball_misses_brick : checkCollision ballAtPaddle (newBrick 0 0) = false.
Proof.
  apply not_true_is_false. rewrite checkCollision_spec. cbn.
  unfold BALL_SIZE, BRICK_WIDTH, BRICK_HEIGHT. lra.
Qed.

(** The step that takes the last brick: 400 points for an instant, then the
    fresh grid and no points. *)
Example lastBrick_score :
  score (afterBricks lastBrick) = 400%Z /\
  score (updateGame 45 lastBrick) = 0%Z /\
  List.length (bricks (updateGame 45 lastBrick)) = 40%nat.
Proof.
  assert (Hhit : checkCollision (ball (moveBall lastBrick))
                   (mkGameObject (vec2.mk 0 0.7)
                      (vec2.mk BRICK_WIDTH BRICK_HEIGHT) (rowColor 0) true)
                 = true).
  { apply checkCollision_spec; cbn;
      unfold BALL_SIZE, BRICK_WIDTH, BRICK_HEIGHT; lra. }
  assert (Hscore : score (bouncePaddle (bounceWalls (moveBall lastBrick)))
                   = 390%Z)
    by (rewrite score_bouncePaddle, score_bounceWalls; reflexivity).
  split.
  - unfold afterBricks, checkFell, hitBricks.
    rewrite ball_bouncePaddle, ball_bounceWalls, bricks_bouncePaddle,
      bricks_bounceWalls.
    cbn [hitFirst lastBrick bricks moveBall set_ball active set_active andb].
    cbn [hitFirst lastBrick bricks moveBall set_ball active set_active andb]
      in Hhit.
    rewrite Hhit.
    destruct (Rltb _ _); cbn [score set_gameOver set_score]; rewrite Hscore;
      reflexivity.
  - rewrite updateGame_unfold. unfold checkCleared.
    rewrite lastBrick_cleared. split; reflexivity.
Qed.
End Playing.

Section Counting.
Import Breakout GameNotions Examples.

Lemma truncate_between (r : R) (z : Z) :
  0 <= r -> IZR z <= r < IZR z + 1 -> truncate r = z.
Proof.
  intros H0 Hz. unfold truncate. destruct (Rle_dec 0 r); [|contradiction].
  symmetry. apply Int_part_spec. lra.
Qed.

(** Half a second into the wait the console shows 3:59; the game is not
    touched. *)
Example countdown_first_line :
  let l0 := mkLoop (initGame 45 gameState0) false (-1) [] in
  let l := frame (mkFrame leftKey 0.5 7 false) l0 in
  console l = [(CR ++ "Waiting to start game: 3:59")%string] /\
  lastSecond l = 239%Z /\ game l = game l0.
Proof.
  cbn zeta. unfold frame, processInput, WAIT_TIME_SECONDS.
  cbn [keys KEY_ESCAPE leftKey game initGame gameStarted set_gameStarted
       glfwGetTime closeRequested startTime set_score set_gameOver set_bricks
       resetBall set_ballVelocity set_ball set_paddle gameState0].
  compare_reals. unfold displayCountdown.
  rewrite (truncate_between _ 239) by lra.
  cbn [lastSecond Z.eqb]. repeat split.
Qed.
End Counting.

(** * Further properties of the embedded code *)

(** ** The breakout game: paddle, ball speed, score *)

Section GameRuns.
Import Breakout GameNotions GameFacts Examples.

Lemma game_processInput (k : Keys) (l : Loop) :
  game (processInput k l)
  = if gameStarted (game l)
    then (let g := game l in
          let g := if KEY_LEFT k then moveLeft g else g in
          if KEY_RIGHT k then moveRight g else g)
    else game l.
Proof.
  unfold processInput.
  destruct (KEY_ESCAPE k); cbn [game]; destruct (gameStarted (game l));
    reflexivity.
Qed.

Lemma game_frame (f : Frame) (l : Loop) :
  game (frame f l)
  = let g := game (processInput (keys f) l) in
    if Rgeb (glfwGetTime f - startTime g) (IZR WAIT_TIME_SECONDS)
    then updateGame (rand f) (if gameStarted g then g
                              else set_gameStarted true g)
    else g.
Proof.
  unfold frame. cbn zeta.
  set (l1 := processInput (keys f) l).
  destruct (Rgeb _ _).
  - destruct (gameStarted (game l1)); destruct (closeRequested f); reflexivity.
  - destruct (closeRequested f); cbn [game]; apply game_displayCountdown.
Qed.

(** A property of the game state that the three writers of the state keep
    is kept by every frame and by the whole render loop. *)
Lemma frame_keeps (P : GameState -> Prop) :
  (forall s, P s -> P (moveLeft s)) ->
  (forall s, P s -> P (moveRight s)) ->
  (forall s, P s -> P (set_gameStarted true s)) ->
  (forall r s, P s -> P (updateGame r s)) ->
  forall (f : Frame) (l : Loop), P (game l) -> P (game (frame f l)).
Proof.
  intros HL HR HS HU f l Hl.
  assert (Hp : P (game (processInput (keys f) l))).
  { rewrite game_processInput. destruct (gameStarted (game l)); [|exact Hl].
    cbn zeta. destruct (KEY_LEFT (keys f)), (KEY_RIGHT (keys f)); auto. }
  rewrite game_frame. cbn zeta.
  destruct (Rgeb _ _); [|exact Hp].
  apply HU. destruct (gameStarted _); auto.
Qed.

Lemma renderLoop_keeps (P : GameState -> Prop) :
  (forall s, P s -> P (moveLeft s)) ->
  (forall s, P s -> P (moveRight s)) ->
  (forall s, P s -> P (set_gameStarted true s)) ->
  (forall r s, P s -> P (updateGame r s)) ->
  forall (frames : list Frame) (l : Loop),
    P (game l) -> P (game (renderLoop frames l)).
Proof.
  intros HL HR HS HU frames.
  induction frames as [|f rest IH]; intros l Hl; cbn [renderLoop].
  - exact Hl.
  - destruct (shouldClose l || gameOver (game l)); [exact Hl|].
    apply IH. now apply frame_keeps.
Qed.

(** *** The paddle *)


Lemma moveLeft_inPlace (s : GameState) :
  paddleInPlace s -> paddleInPlace (moveLeft s).
Proof.
  unfold paddleInPlace, onScreen, moveLeft. intros [[Hl Hr] [Hy Hs]].
  cbn [paddle set_paddle_x set_paddle set_position position size].
  rewrite Hs in *. cbn [vec2.x vec2.y] in *. unfold PADDLE_WIDTH in *.
  destruct (Rltb _ _) eqn:E;
    cbn [paddle set_paddle_x set_paddle set_position position size vec2.x
         vec2.y]; rewrite ?Hs; cbn [vec2.x vec2.y];
    [apply Rltb_true in E | apply Rltb_false in E];
    unfold PADDLE_WIDTH in *; repeat split; try lra; assumption.
Qed.

Lemma moveRight_inPlace (s : GameState) :
  paddleInPlace s -> paddleInPlace (moveRight s).
Proof.
  unfold paddleInPlace, onScreen, moveRight. intros [[Hl Hr] [Hy Hs]].
  cbn [paddle set_paddle_x set_paddle set_position position size].
  rewrite Hs in *. cbn [vec2.x vec2.y] in *. unfold PADDLE_WIDTH in *.
  destruct (Rgtb _ _) eqn:E;
    cbn [paddle set_paddle_x set_paddle set_position position size vec2.x
         vec2.y]; rewrite ?Hs; cbn [vec2.x vec2.y];
    [apply Rgtb_true in E | apply Rgtb_false in E];
    unfold PADDLE_WIDTH in *; repeat split; try lra; assumption.
Qed.

Lemma paddle_afterBricks (s : GameState) : paddle (afterBricks s) = paddle s.
Proof.
  unfold afterBricks, checkFell, hitBricks.
  destruct (hitFirst _ _) as [l hit].
  destruct (Rltb _ _); destruct hit; cbn [paddle set_gameOver set_score
    set_ballVelocity set_bricks];
    unfold bouncePaddle; destruct (checkCollision _ _);
    cbn [paddle set_ballVelocity]; rewrite paddle_bounceWalls; reflexivity.
Qed.

Lemma initGame_inPlace (r : Z) (s : GameState) : paddleInPlace (initGame r s).
Proof.
  unfold paddleInPlace, onScreen. cbn. unfold PADDLE_WIDTH.
  repeat split; lra.
Qed.

Lemma updateGame_inPlace (r : Z) (s : GameState) :
  paddleInPlace s -> paddleInPlace (updateGame r s).
Proof.
  intros H. rewrite updateGame_unfold. unfold checkCleared.
  destruct (allBricksDestroyed _).
  - apply (initGame_inPlace r (afterBricks s)).
  - unfold paddleInPlace. now rewrite paddle_afterBricks.
Qed.

(** X1: from the start of the render loop on, whatever keys are held and
    however long the game runs, the paddle stays between the side walls,
    at its height of -0.9 and with its size. *)
Theorem paddle_stays_on_screen
  (e : Startup) (sp : N) (l0 : Loop) (frames : list Frame) :
  setup e = Enter sp l0 ->
  let p := paddle (game (renderLoop frames l0)) in
  -1 <= vec2.x (position p) - PADDLE_WIDTH / 2 /\
  vec2.x (position p) + PADDLE_WIDTH / 2 <= 1 /\
  vec2.y (position p) = -0.9 /\
  size p = vec2.mk PADDLE_WIDTH PADDLE_HEIGHT.
Proof.
  intros Hs p.
  assert (H : paddleInPlace (game (renderLoop frames l0))).
  { apply renderLoop_keeps.
    - apply moveLeft_inPlace.
    - apply moveRight_inPlace.
    - intros s H. exact H.
    - apply updateGame_inPlace.
    - rewrite (setup_game e sp l0 Hs).
      apply (initGame_inPlace (startRand e) gameState0). }
  destruct H as [[Hl Hr] [Hy Hsz]]. subst p.
  rewrite Hsz in Hl, Hr. cbn [vec2.x] in Hl, Hr. auto.
Qed.

(** *** Bounces *)

Lemma velocity_bounceWalls (s : GameState) :
  Rabs (vec2.x (ballVelocity (bounceWalls s))) = Rabs (vec2.x (ballVelocity s))
  /\ Rabs (vec2.y (ballVelocity (bounceWalls s)))
     = Rabs (vec2.y (ballVelocity s)).
Proof.
  unfold bounceWalls.
  destruct (_ || _); destruct (Rgtb _ _);
    cbn [ballVelocity set_ballVelocity vec2.x vec2.y];
    rewrite ?Rabs_Ropp; auto.
Qed.

Lemma hitBricks_velocity (s : GameState) :
  vec2.x (ballVelocity (hitBricks s)) = vec2.x (ballVelocity s) /\
  Rabs (vec2.y (ballVelocity (hitBricks s))) = Rabs (vec2.y (ballVelocity s)).
Proof.
  unfold hitBricks. destruct (hitFirst _ _) as [l hit].
  destruct hit; cbn [ballVelocity set_score set_ballVelocity set_bricks vec2.x
    vec2.y]; rewrite ?Rabs_Ropp; auto.
Qed.

Lemma ballVelocity_checkFell (s : GameState) :
  ballVelocity (checkFell s) = ballVelocity s.
Proof. unfold checkFell. destruct (Rltb _ _); reflexivity. Qed.

(** X2: a step of [updateGame] in which the ball does not touch the paddle
    and some brick is left changes neither the size of the horizontal nor
    the size of the vertical component of the ball's velocity: walls and
    bricks only flip signs. *)
Theorem bounces_keep_components (r : Z) (s : GameState) :
  checkCollision (ball (moveBall s)) (paddle s) = false ->
  allBricksDestroyed (afterBricks s) = false ->
  Rabs (vec2.x (ballVelocity (updateGame r s)))
  = Rabs (vec2.x (ballVelocity s)) /\
  Rabs (vec2.y (ballVelocity (updateGame r s)))
  = Rabs (vec2.y (ballVelocity s)).
Proof.
  intros Hmiss Hleft. rewrite updateGame_unfold. unfold checkCleared.
  rewrite Hleft. unfold afterBricks. rewrite ballVelocity_checkFell.
  destruct (hitBricks_velocity (bouncePaddle (bounceWalls (moveBall s))))
    as [Hx Hy].
  rewrite Hx, Hy.
  assert (Hp : bouncePaddle (bounceWalls (moveBall s))
               = bounceWalls (moveBall s)).
  { unfold bouncePaddle.
    rewrite ball_bounceWalls, paddle_bounceWalls.
    change (paddle (moveBall s)) with (paddle s). now rewrite Hmiss. }
  rewrite Hp. destruct (velocity_bounceWalls (moveBall s)) as [Hx' Hy'].
  rewrite Hx', Hy'. split; reflexivity.
Qed.

(** *** The loop over the bricks *)

Lemma set_bricks_same (s : GameState) : set_bricks (bricks s) s = s.
Proof. destruct s; reflexivity. Qed.

Lemma hitFirst_miss (b : GameObject) (l : list GameObject) :
  Forall (fun brick => touched b brick = false) l ->
  hitFirst b l = (l, false).
Proof.
  induction 1 as [|brick rest Hb _ IH]; cbn [hitFirst].
  - reflexivity.
  - unfold touched in Hb. now rewrite Hb, IH.
Qed.

Lemma hitFirst_hit (b brick : GameObject) (before after : list GameObject) :
  Forall (fun brick => touched b brick = false) before ->
  touched b brick = true ->
  hitFirst b (before ++ brick :: after)
  = (before ++ set_active false brick :: after, true).
Proof.
  intros Hbefore Hhit.
  induction Hbefore as [|first rest Hf _ IH]; cbn [hitFirst app].
  - unfold touched in Hhit. now rewrite Hhit.
  - unfold touched in Hf. now rewrite Hf, IH.
Qed.

(** X3: the loop over the bricks of [updateGame] takes the first brick, in
    the order of the vector, that is active and touches the ball, and no
    other: that brick is switched off, the vertical velocity is negated and
    the score grows by 10; bricks further on that touch the ball as well
    are left alone.  When no active brick touches the ball, the loop leaves
    the state as it is. *)
Theorem hitBricks_first_only (s : GameState) :
  (Forall (fun brick => touched (ball s) brick = false) (bricks s) ->
   hitBricks s = s) /\
  (forall (brick : GameObject) (before after : list GameObject),
      bricks s = before ++ brick :: after ->
      Forall (fun brick => touched (ball s) brick = false) before ->
      touched (ball s) brick = true ->
      bricks (hitBricks s) = before ++ set_active false brick :: after /\
      score (hitBricks s) = wrap_int (score s + 10) /\
      ballVelocity (hitBricks s)
      = vec2.mk (vec2.x (ballVelocity s)) (- vec2.y (ballVelocity s))).
Proof.
  split.
  - intros Hmiss. unfold hitBricks. rewrite (hitFirst_miss _ _ Hmiss).
    apply set_bricks_same.
  - intros brick before after Hsplit Hbefore Hhit. unfold hitBricks.
    rewrite Hsplit, (hitFirst_hit _ _ _ _ Hbefore Hhit). repeat split.
Qed.

(** *** Score *)

Lemma wrap_int_small (n : Z) :
  (-2147483648 <= n < 2147483648)%Z -> wrap_int n = n.
Proof. intros H. unfold wrap_int. rewrite Z.mod_small; lia. Qed.

Lemma hitFirst_destroyed (b : GameObject) (l : list GameObject) :
  List.length (fst (hitFirst b l)) = List.length l /\
  destroyed (fst (hitFirst b l))
  = (destroyed l + if snd (hitFirst b l) then 1 else 0)%nat.
Proof.
  unfold destroyed.
  induction l as [|brick rest [IHl IHd]]; cbn [hitFirst].
  - split; reflexivity.
  - destruct (active brick && checkCollision b brick) eqn:E.
    + apply andb_true_iff in E as [Ha _].
      cbn [fst snd filter set_active active negb List.length]. rewrite Ha.
      cbn [negb]. split; lia.
    + destruct (hitFirst b rest) as [rest' hit]. cbn [fst snd] in *.
      cbn [filter List.length]. destruct (negb (active brick));
        cbn [List.length]; split; lia.
Qed.

Lemma destroyed_lt (s : GameState) :
  allBricksDestroyed s = false ->
  (destroyed (bricks s) < List.length (bricks s))%nat.
Proof.
  unfold allBricksDestroyed, destroyed.
  induction (bricks s) as [|brick rest IH]; cbn [forallb filter List.length].
  - discriminate.
  - pose proof (filter_length_le (fun brick => negb (active brick)) rest)
      as Hle.
    destruct (negb (active brick)); cbn [andb List.length]; intros H.
    + specialize (IH H). lia.
    + lia.
Qed.

Lemma score_afterBricks (s : GameState) :
  score (afterBricks s)
  = if snd (hitFirst (ball (moveBall s)) (bricks s))
    then wrap_int (score s + 10) else score s.
Proof.
  unfold afterBricks, checkFell, hitBricks.
  rewrite ball_bouncePaddle, ball_bounceWalls, bricks_bouncePaddle,
    bricks_bounceWalls.
  change (bricks (moveBall s)) with (bricks s).
  destruct (hitFirst _ _) as [l hit]. cbn [snd].
  destruct hit; destruct (Rltb _ _); cbn [score set_gameOver set_score
    set_bricks set_ballVelocity]; rewrite ?score_bouncePaddle,
    ?score_bounceWalls; reflexivity.
Qed.

Lemma bricks_afterBricks_eq (s : GameState) :
  bricks (afterBricks s) = fst (hitFirst (ball (moveBall s)) (bricks s)).
Proof.
  unfold afterBricks.
  rewrite bricks_checkFell, bricks_hitBricks, bricks_bouncePaddle,
    bricks_bounceWalls, ball_bouncePaddle, ball_bounceWalls.
  reflexivity.
Qed.

Lemma initGame_accounted (r : Z) (s : GameState) : accounted (initGame r s).
Proof. repeat split. Qed.

Lemma updateGame_accounted (r : Z) (s : GameState) :
  accounted s -> accounted (updateGame r s).
Proof.
  intros [Hlen [Hscore Hleft]]. rewrite updateGame_unfold. unfold checkCleared.
  destruct (allBricksDestroyed (afterBricks s)) eqn:E.
  - repeat split.
  - pose proof (destroyed_lt s Hleft) as Hlt.
    destruct (hitFirst_destroyed (ball (moveBall s)) (bricks s)) as [Hl Hd].
    unfold accounted.
    rewrite bricks_afterBricks_eq, score_afterBricks, Hl, Hd, Hscore.
    split; [exact Hlen|]. split; [|exact E].
    rewrite Hlen in Hlt. cbn in Hlt.
    destruct (snd (hitFirst _ _)); [rewrite wrap_int_small|]; lia.
Qed.

Lemma moveLeft_accounted (s : GameState) : accounted s -> accounted (moveLeft s).
Proof. unfold moveLeft. destruct (Rltb _ _); intros H; exact H. Qed.

Lemma moveRight_accounted (s : GameState) :
  accounted s -> accounted (moveRight s).
Proof. unfold moveRight. destruct (Rgtb _ _); intros H; exact H. Qed.

Lemma renderLoop_accounted
  (e : Startup) (sp : N) (l0 : Loop) (frames : list Frame) :
  setup e = Enter sp l0 -> accounted (game (renderLoop frames l0)).
Proof.
  intros Hs. apply renderLoop_keeps.
  - apply moveLeft_accounted.
  - apply moveRight_accounted.
  - intros s H. exact H.
  - apply updateGame_accounted.
  - rewrite (setup_game e sp l0 Hs).
    apply (initGame_accounted (startRand e) gameState0).
Qed.

(** X4: throughout a run of [main] the grid holds [BRICK_ROWS * BRICK_COLS]
    bricks, at least one of them active, and the score is ten times the
    number of bricks switched off; so the score never leaves 0..390, and
    the [int] it is kept in never overflows. *)
Theorem score_counts_bricks
  (e : Startup) (sp : N) (l0 : Loop) (frames : list Frame) :
  setup e = Enter sp l0 ->
  let g := game (renderLoop frames l0) in
  List.length (bricks g) = 40%nat /\
  score g = (10 * Z.of_nat (destroyed (bricks g)))%Z /\
  (destroyed (bricks g) < 40)%nat /\
  (0 <= score g <= 390)%Z.
Proof.
  intros Hs g.
  destruct (renderLoop_accounted e sp l0 frames Hs) as [Hlen [Hscore Hleft]].
  fold g in Hlen, Hscore, Hleft.
  pose proof (destroyed_lt g Hleft) as Hlt. rewrite Hlen in Hlt.
  cbn in Hlen, Hlt. repeat split; try assumption; lia.
Qed.

(** *** Game over *)

Lemma gameOver_before_checkFell (s : GameState) :
  gameOver (hitBricks (bouncePaddle (bounceWalls (moveBall s)))) = gameOver s.
Proof.
  unfold hitBricks. destruct (hitFirst _ _) as [l hit].
  destruct hit; cbn [gameOver set_score set_ballVelocity set_bricks];
    unfold bouncePaddle; destruct (checkCollision _ _);
    cbn [gameOver set_ballVelocity]; unfold bounceWalls;
    destruct (_ || _); destruct (Rgtb _ _); reflexivity.
Qed.

Lemma ball_before_checkFell (s : GameState) :
  ball (hitBricks (bouncePaddle (bounceWalls (moveBall s)))) = ball (moveBall s).
Proof.
  unfold hitBricks. destruct (hitFirst _ _) as [l hit].
  destruct hit; cbn [ball set_score set_ballVelocity set_bricks];
    rewrite ball_bouncePaddle, ball_bounceWalls; reflexivity.
Qed.

(** X5: after a step of [updateGame] that leaves a brick, the game is over
    exactly when it was over before or the moved ball's lower edge is below
    the screen; a step whose loop over the bricks leaves none ends with the
    game not over, a ball lost in that very step included. *)
Theorem gameOver_after_step (r : Z) (s : GameState) :
  (someActive (bricks (afterBricks s)) ->
   gameOver (updateGame r s) = gameOver s || belowScreen (moveBall s)) /\
  (noneActive (bricks (afterBricks s)) ->
   gameOver (updateGame r s) = false).
Proof.
  rewrite updateGame_unfold. unfold checkCleared. split.
  - intros Hsome. apply allBricksDestroyed_some in Hsome. rewrite Hsome.
    unfold afterBricks, checkFell, belowScreen.
    rewrite ball_before_checkFell.
    destruct (Rltb _ _); cbn [gameOver set_gameOver];
      rewrite ?gameOver_before_checkFell;
      [now rewrite orb_true_r | now rewrite orb_false_r].
  - intros Hnone. apply allBricksDestroyed_none in Hnone. rewrite Hnone.
    reflexivity.
Qed.

(** *** What [main] prints last *)

Lemma setup_enters (e : Startup) :
  contextCreated e = true ->
  setup e
  = Enter (glCreateProgram e)
          (mkLoop (set_startTime (startClock e)
                     (initGame (startRand e) gameState0))
                  false (-1) (shaderErrors e ++ [banner])).
Proof.
  unfold contextCreated, setup.
  destruct (glfwInit e), (glfwCreateWindow e), (gladLoadGLLoader e);
    try discriminate. reflexivity.
Qed.

Lemma gameStarted_afterBricks (s : GameState) :
  gameStarted (afterBricks s) = gameStarted s.
Proof.
  unfold afterBricks, checkFell, hitBricks.
  destruct (hitFirst _ _) as [l hit].
  destruct (Rltb _ _); destruct hit; cbn [gameStarted set_gameOver set_score
    set_ballVelocity set_bricks];
    unfold bouncePaddle; destruct (checkCollision _ _);
    cbn [gameStarted set_ballVelocity]; unfold bounceWalls;
    destruct (_ || _); destruct (Rgtb _ _); reflexivity.
Qed.

Lemma updateGame_started (r : Z) (s : GameState) :
  gameStarted s = true -> gameStarted (updateGame r s) = true.
Proof.
  intros H. rewrite updateGame_unfold. unfold checkCleared.
  destruct (allBricksDestroyed _); [reflexivity|].
  now rewrite gameStarted_afterBricks.
Qed.

Lemma moveLeft_started (s : GameState) :
  gameStarted (moveLeft s) = gameStarted s.
Proof. unfold moveLeft. destruct (Rltb _ _); reflexivity. Qed.

Lemma moveRight_started (s : GameState) :
  gameStarted (moveRight s) = gameStarted s.
Proof. unfold moveRight. destruct (Rgtb _ _); reflexivity. Qed.

Lemma shouldClose_displayCountdown (t : R) (l : Loop) :
  shouldClose (displayCountdown t l) = shouldClose l.
Proof. unfold displayCountdown. destruct (Z.eqb _ _); reflexivity. Qed.

Lemma frame_quiet (f : Frame) (l : Loop) :
  gameStarted (game l) = false ->
  quietWait (startTime (game l)) f ->
  game (frame f l) = game l /\ shouldClose (frame f l) = shouldClose l.
Proof.
  intros Hs (Ht & Hk & Hc).
  split; [now apply frame_waiting|].
  unfold frame, processInput. rewrite Hk, Hs, Hc.
  assert (E : Rgeb (glfwGetTime f - startTime (game l))
                   (IZR WAIT_TIME_SECONDS) = false)
    by (apply Rgeb_false; exact Ht).
  rewrite E. apply shouldClose_displayCountdown.
Qed.

Lemma renderLoop_quiet (frames : list Frame) (l : Loop) :
  gameStarted (game l) = false ->
  Forall (quietWait (startTime (game l))) frames ->
  game (renderLoop frames l) = game l /\
  shouldClose (renderLoop frames l) = shouldClose l.
Proof.
  intros Hs Hall. revert l Hs Hall.
  induction frames as [|f rest IH]; intros l Hs Hall; cbn [renderLoop].
  - split; reflexivity.
  - destruct (shouldClose l || gameOver (game l)); [split; reflexivity|].
    inversion Hall as [|? ? Hf Hrest]; subst.
    destruct (frame_quiet f l Hs Hf) as [Eg Ec].
    destruct (IH (frame f l)) as [Hg Hc]; rewrite ?Eg; auto.
    rewrite Hg, Hc, Eg, Ec. split; reflexivity.
Qed.

(** A frame that sees the window closed ends the loop. *)
Lemma renderLoop_closed (before : list Frame) (f : Frame) (l : Loop) :
  closeRequested f = true ->
  let l' := renderLoop (before ++ [f]) l in
  shouldClose l' || gameOver (game l') = true.
Proof.
  intros Hc l'. subst l'. rewrite renderLoop_app.
  set (l1 := renderLoop before l). cbn [renderLoop].
  destruct (shouldClose l1 || gameOver (game l1)) eqn:E; [exact E|].
  unfold frame. rewrite Hc. reflexivity.
Qed.

(** Once the window is up, [main] returns when a frame sees it closed. *)
Lemma main_closed (e : Startup) (before : list Frame) (f : Frame) :
  contextCreated e = true ->
  closeRequested f = true ->
  exists out : list string, main e (before ++ [f]) = Some (out, 0%Z).
Proof.
  intros He Hc. unfold main. rewrite (setup_enters e He).
  set (l0 := mkLoop _ false (-1)%Z _).
  pose proof (renderLoop_closed before f l0 Hc) as H. cbv zeta in H.
  cbv zeta. rewrite H. eexists. reflexivity.
Qed.

(** X6: when [main] has got its window and GL context and has returned, it
    has returned 0, and what it wrote last to the console tells how the game
    went: it is "Game closed before starting.", or "Game Over! Final
    Score: " followed by a score between 0 and 390.  If every frame was
    within the wait before the start, it is the first.  If a frame came at
    or after the end of the wait, and in no frame before it the escape key
    was down or the window closed, it is the second. *)
Theorem main_last_write (e : Startup) (frames : list Frame)
        (out : list string) (status : Z) :
  contextCreated e = true ->
  main e frames = Some (out, status) ->
  status = 0%Z /\
  (lastWrite out = "Game closed before starting." \/
   exists n : Z,
     (0 <= n <= 390)%Z /\
     lastWrite out = ("Game Over! Final Score: " ++ showInt n)%string) /\
  (Forall (fun f => glfwGetTime f - startClock e < IZR WAIT_TIME_SECONDS)
          frames ->
   lastWrite out = "Game closed before starting.") /\
  (forall (before : list Frame) (f : Frame) (rest : list Frame),
      frames = before ++ f :: rest ->
      Forall (quietWait (startClock e)) before ->
      glfwGetTime f - startClock e >= IZR WAIT_TIME_SECONDS ->
      exists n : Z,
        (0 <= n <= 390)%Z /\
        lastWrite out = ("Game Over! Final Score: " ++ showInt n)%string).
Proof.
  intros Hc. pose proof (setup_enters e Hc) as Hs.
  set (l0 := mkLoop _ false (-1)%Z _) in Hs.
  unfold main. rewrite Hs. cbv zeta.
  destruct (shouldClose (renderLoop frames l0)
            || gameOver (game (renderLoop frames l0))); [|discriminate].
  intros Hm. injection Hm as Hout Hst. subst out status.
  split; [reflexivity|]. split; [|split].
  - destruct (renderLoop_accounted e _ l0 frames Hs) as [Hlen [Hscore Hleft]].
    destruct (gameStarted (game (renderLoop frames l0)));
      cbn [print console]; unfold lastWrite; rewrite last_last.
    + right. exists (score (game (renderLoop frames l0))).
      split; [|reflexivity].
      pose proof (destroyed_lt _ Hleft) as Hlt. rewrite Hlen in Hlt.
      cbn in Hlt. lia.
    + left. reflexivity.
  - intros Hwait.
    assert (Hg : game (renderLoop frames l0) = game l0)
      by (apply renderLoop_waiting; [reflexivity | exact Hwait]).
    rewrite Hg. cbn [print console]. unfold lastWrite. apply last_last.
  - intros before f rest -> Hq Hf. rewrite renderLoop_app.
    destruct (renderLoop_quiet before l0 eq_refl Hq) as [Hg1 Hc1].
    set (l1 := renderLoop before l0) in *.
    cbn [renderLoop]. rewrite Hg1, Hc1.
    change (shouldClose l0 || gameOver (game l0)) with false. cbv iota.
    assert (H1 : gameStarted (game (frame f l1)) = true
                 /\ accounted (game (frame f l1))).
    { rewrite game_frame. cbn zeta.
      rewrite (game_processInput_waiting (keys f) l1)
        by (rewrite Hg1; reflexivity).
      rewrite Hg1.
      assert (E : Rgeb (glfwGetTime f - startTime (game l0))
                       (IZR WAIT_TIME_SECONDS) = true)
        by (apply Rgeb_true; exact Hf).
      rewrite E. change (gameStarted (game l0)) with false. cbv iota.
      split.
      - now apply updateGame_started.
      - apply updateGame_accounted.
        apply (initGame_accounted (startRand e) gameState0). }
    assert (H2 : gameStarted (game (renderLoop rest (frame f l1))) = true
                 /\ accounted (game (renderLoop rest (frame f l1)))).
    { apply (renderLoop_keeps
               (fun s => gameStarted s = true /\ accounted s)); try exact H1.
      - intros s [Ha Hb]. rewrite moveLeft_started.
        split; [exact Ha | now apply moveLeft_accounted].
      - intros s [Ha Hb]. rewrite moveRight_started.
        split; [exact Ha | now apply moveRight_accounted].
      - intros s [Ha Hb]. split; [reflexivity | exact Hb].
      - intros r s [Ha Hb].
        split; [now apply updateGame_started | now apply updateGame_accounted]. }
    destruct H2 as [Hst [Hlen [Hscore Hleft]]].
    rewrite Hst. cbn [print console]. unfold lastWrite. rewrite last_last.
    exists (score (game (renderLoop rest (frame f l1)))).
    split; [|reflexivity].
    pose proof (destroyed_lt _ Hleft) as Hlt. rewrite Hlen in Hlt.
    cbn in Hlt. lia.
Qed.

(** *** The countdown *)

Lemma lastSecond_displayCountdown (t : R) (l : Loop) :
  lastSecond (displayCountdown t l) = truncate t.
Proof.
  unfold displayCountdown. destruct (Z.eqb _ _) eqn:E.
  - apply Z.eqb_eq in E. now rewrite E.
  - reflexivity.
Qed.

(** X7: [displayCountdown] writes a line only when the whole second of the
    remaining time changes: called again within the same second it does
    nothing at all, and a call adds at most one line to the console. *)
Theorem countdown_once_per_second (t1 t2 : R) (l : Loop) :
  (truncate t2 = truncate t1 ->
   displayCountdown t2 (displayCountdown t1 l) = displayCountdown t1 l) /\
  (console (displayCountdown t1 l) = console l \/
   exists line : string, console (displayCountdown t1 l) = console l ++ [line]).
Proof.
  split.
  - intros H. unfold displayCountdown at 1.
    rewrite lastSecond_displayCountdown, H, Z.eqb_refl. reflexivity.
  - unfold displayCountdown. destruct (Z.eqb _ _).
    + now left.
    + right. eexists. reflexivity.
Qed.

(** *** The serve *)

Lemma sin_small (a : R) : Rabs (sin a) <= Rabs a.
Proof.
  destruct (Rtotal_order a 0) as [Hneg | [-> | Hpos]].
  - pose proof (sin_lt_x (- a) ltac:(lra)) as H. rewrite sin_neg in H.
    destruct (Rle_dec 0 (sin a)) as [Hs | Hs].
    + rewrite (Rabs_pos_eq _ Hs), (Rabs_left _ Hneg).
      pose proof (SIN_bound a).
      destruct (Rle_dec (- PI) a) as [Hp | Hp].
      * pose proof (sin_lt_0_var a) as Hv.
        destruct (Req_dec a (- PI)) as [-> | Hne].
        -- rewrite sin_neg, sin_PI in Hs |- *. pose proof PI_RGT_0. lra.
        -- assert (sin a < 0) by (apply Hv; lra). lra.
      * pose proof PI_RGT_0. pose proof PI2_3_2. lra.
    + rewrite (Rabs_left (sin a)) by lra. rewrite (Rabs_left _ Hneg). lra.
  - rewrite sin_0. lra.
  - pose proof (sin_lt_x a Hpos) as H.
    rewrite (Rabs_pos_eq a) by lra.
    unfold Rabs. destruct (Rcase_abs (sin a)); [|lra].
    pose proof (sin_lt_x (- a)) as H'. rewrite sin_neg in H'.
    destruct (Rle_dec a PI) as [Hp | Hp].
    + pose proof (sin_ge_0 a ltac:(lra) Hp). lra.
    + pose proof (SIN_bound a). pose proof PI2_3_2. lra.
Qed.

(** X8: [resetBall], whatever non-negative number [rand()] returns, puts the
    ball at (0, -0.7) with the vertical velocity [BALL_VELOCITY] and a
    horizontal velocity smaller than that in size: the serve goes up,
    within 45 degrees of the vertical. *)
Theorem resetBall_serves_upward (r : Z) (s : GameState) :
  (0 <= r)%Z ->
  let s' := resetBall r s in
  position (ball s') = vec2.mk 0 (-0.7) /\
  vec2.y (ballVelocity s') = BALL_VELOCITY /\
  Rabs (vec2.x (ballVelocity s')) < vec2.y (ballVelocity s').
Proof.
  intros Hr s'. subst s'. unfold resetBall.
  cbn [ball ballVelocity set_ballVelocity set_ball position vec2.x vec2.y].
  repeat split. unfold BALL_VELOCITY.
  set (d := (Z.rem r 90 - 45)%Z).
  assert (Hd : (-45 <= d <= 44)%Z).
  { subst d. pose proof (Z.rem_bound_pos r 90 Hr ltac:(lia)). lia. }
  pose proof (sin_small (IZR d * 3.14159 / 180)) as Hsin.
  assert (Ha : Rabs (IZR d * 3.14159 / 180) <= 0.79).
  { destruct Hd as [Hlo Hhi]. apply IZR_le in Hlo, Hhi.
    unfold Rabs. destruct (Rcase_abs _); lra. }
  rewrite Rabs_mult, (Rabs_pos_eq 0.01) by lra.
  pose proof (Rabs_pos (sin (IZR d * 3.14159 / 180))). nra.
Qed.
(** *** The bounce off the paddle *)

Lemma reflect_upward (s : GameState) : 0 <= vec2.y (reflect s).
Proof.
  unfold reflect.
  set (angle := _ * 60 * 3.14159 / 180).
  set (speed := vec2.length (ballVelocity s)).
  destruct (Rltb (speed * cos angle) 0) eqn:E; cbn.
  - apply Rltb_true in E. lra.
  - apply Rltb_false in E. lra.
Qed.

Lemma reflect_x (s : GameState) :
  vec2.x (reflect s)
  = vec2.length (ballVelocity s)
    * sin ((vec2.x (position (ball s)) - vec2.x (position (paddle s)))
           / (vec2.x (size (paddle s)) / 2) * 60 * 3.14159 / 180).
Proof. unfold reflect. cbv zeta. destruct (Rltb _ 0); reflexivity. Qed.

(** X25: when [updateGame] finds the ball on the paddle, the ball leaves
    upwards: the y-component of the velocity assigned in the paddle branch
    is not negative, whatever it was before.  And with the paddle and the
    ball of the sizes [initGame] gives them, the ball leaves to the side of
    the paddle it came down on: the x-component is not negative when the
    centre of the ball is not left of the centre of the paddle, and not
    positive when it is not right of it. *)
Theorem paddle_sends_ball_up (s : GameState) :
  let pre := bounceWalls (moveBall s) in
  checkCollision (ball pre) (paddle pre) = true ->
  let v := ballVelocity (bouncePaddle pre) in
  0 <= vec2.y v /\
  (vec2.x (size (paddle pre)) = PADDLE_WIDTH ->
   vec2.x (size (ball pre)) = BALL_SIZE ->
   (vec2.x (position (paddle pre)) <= vec2.x (position (ball pre)) ->
    0 <= vec2.x v) /\
   (vec2.x (position (ball pre)) <= vec2.x (position (paddle pre)) ->
    vec2.x v <= 0)).
Proof.
  intros pre Hhit v. subst v. unfold bouncePaddle. rewrite Hhit.
  cbn [ballVelocity set_ballVelocity].
  split; [apply reflect_upward|].
  intros Hp Hb. rewrite reflect_x, Hp.
  apply checkCollision_spec in Hhit. destruct Hhit as [[H1 H2] _].
  unfold xInterval in H1, H2. cbn [fst snd] in H1, H2.
  rewrite Hp, Hb in H1, H2. unfold PADDLE_WIDTH, BALL_SIZE in *.
  set (d := vec2.x (position (ball pre)) - vec2.x (position (paddle pre))).
  assert (Hd : -0.11 <= d <= 0.11) by (subst d; lra).
  assert (Hs : 0 <= vec2.length (ballVelocity pre)) by apply sqrt_pos.
  pose proof PI2_1 as HPI.
  split; intros Hside.
  - assert (Ha : 0 <= d / (0.2 / 2) * 60 * 3.14159 / 180 <= PI)
      by (subst d; split; lra).
    apply Rmult_le_pos; [exact Hs|]. now apply sin_ge_0.
  - assert (Ha : 0 <= - (d / (0.2 / 2) * 60 * 3.14159 / 180) <= PI)
      by (subst d; split; lra).
    pose proof (sin_ge_0 _ (proj1 Ha) (proj2 Ha)) as Hsin.
    rewrite sin_neg in Hsin.
    pose proof (Rmult_le_pos _ _ Hs Hsin) as Hm. lra.
Qed.
End GameRuns.

Section GameRunsExamples.
Import Breakout GameNotions GameFacts Examples GameExamples.

Lemma paddle_stays_on_screen_witness :
  exists (sp : N) (l0 : Loop),
    setup goodMachine = Enter sp l0 /\
    vec2.y (position (paddle (game (renderLoop playingFrames l0)))) = -0.9.
Proof.
  eexists; eexists. split; [reflexivity|].
  exact (proj1 (proj2 (proj2
           (paddle_stays_on_screen goodMachine _ _ playingFrames eq_refl)))).
Defined.

Lemma cleared_destroyed (s : GameState) :
  allBricksDestroyed s = true ->
  destroyed (bricks s) = List.length (bricks s).
Proof.
  unfold allBricksDestroyed, destroyed.
  induction (bricks s) as [|brick rest IH]; cbn [forallb filter List.length].
  - reflexivity.
  - destruct (negb (active brick)); cbn [andb List.length]; intros H.
    + now rewrite IH.
    + discriminate.
Qed.

Lemma two_bricks_left (s : GameState) :
  (destroyed (bricks s) + 2 <= List.length (bricks s))%nat ->
  allBricksDestroyed (afterBricks s) = false.
Proof.
  intros H. apply not_true_is_false. intros Hall.
  apply cleared_destroyed in Hall. rewrite bricks_afterBricks_eq in Hall.
  destruct (hitFirst_destroyed (ball (moveBall s)) (bricks s)) as [Hl Hd].
  rewrite Hl, Hd in Hall. destruct (snd (hitFirst _ _)); lia.
Qed.

Lemma midAir_miss :
  checkCollision (ball (moveBall midAir)) (paddle midAir) = false.
Proof.
  apply not_true_is_false. rewrite checkCollision_spec. cbn.
  unfold BALL_SIZE, PADDLE_WIDTH, PADDLE_HEIGHT. lra.
Qed.

Lemma midAir_left : allBricksDestroyed (afterBricks midAir) = false.
Proof. apply two_bricks_left. cbn. lia. Qed.

Lemma midAir_some : someActive (bricks (afterBricks midAir)).
Proof. apply allBricksDestroyed_some. exact midAir_left. Qed.

Lemma updateGame_bricks_witness :
  Forall2 (brickKept (ball (moveBall midAir)))
          (bricks midAir) (bricks (updateGame 45 midAir)) /\
  fullGrid (bricks (updateGame 45 lastBrick)).
Proof.
  destruct (updateGame_bricks 45 midAir) as [Hkept _].
  destruct (updateGame_bricks 45 lastBrick) as [_ [Hgrid _]].
  exact (conj (Hkept midAir_some) (Hgrid lastBrick_none)).
Defined.

Lemma gameOver_after_step_witness :
  gameOver (updateGame 45 midAir)
  = gameOver midAir || belowScreen (moveBall midAir) /\
  gameOver (updateGame 45 lastBrick) = false.
Proof.
  destruct (gameOver_after_step 45 midAir) as [Hleft _].
  destruct (gameOver_after_step 45 lastBrick) as [_ Hcleared].
  exact (conj (Hleft midAir_some) (Hcleared lastBrick_none)).
Defined.

Lemma bounces_keep_components_witness :
  Rabs (vec2.x (ballVelocity (updateGame 45 midAir))) = Rabs 0.003 /\
  Rabs (vec2.y (ballVelocity (updateGame 45 midAir))) = Rabs 0.01.
Proof.
  exact (bounces_keep_components 45 midAir midAir_miss midAir_left).
Defined.

Lemma lastBrick_touched :
  touched (ball lastBrick)
          (mkGameObject (vec2.mk 0 0.7) (vec2.mk BRICK_WIDTH BRICK_HEIGHT)
                        (rowColor 0) true) = true.
Proof.
  unfold touched. cbn [active andb].
  apply checkCollision_spec; cbn;
    unfold BALL_SIZE, BRICK_WIDTH, BRICK_HEIGHT; lra.
Qed.

Lemma lastBrick_before :
  Forall (fun brick => touched (ball lastBrick) brick = false)
         [set_active false (newBrick 0 0)].
Proof. constructor; [reflexivity | constructor]. Qed.

Lemma hitBricks_first_only_witness :
  bricks (hitBricks lastBrick)
  = map (set_active false) (bricks lastBrick) /\
  score (hitBricks lastBrick) = wrap_int (390 + 10).
Proof.
  destruct (proj2 (hitBricks_first_only lastBrick)
              (mkGameObject (vec2.mk 0 0.7) (vec2.mk BRICK_WIDTH BRICK_HEIGHT)
                            (rowColor 0) true)
              [set_active false (newBrick 0 0)] []
              eq_refl
              lastBrick_before
              lastBrick_touched) as [Hb [Hs _]].
  exact (conj Hb Hs).
Defined.

Lemma score_counts_bricks_witness :
  exists (sp : N) (l0 : Loop),
    setup goodMachine = Enter sp l0 /\
    (0 <= score (game (renderLoop playingFrames l0)) <= 390)%Z.
Proof.
  eexists; eexists. split; [reflexivity|].
  exact (proj2 (proj2 (proj2
           (score_counts_bricks goodMachine _ _ playingFrames eq_refl)))).
Defined.

Lemma main_last_write_witness :
  (exists out : list string,
      main goodMachine closedWaiting = Some (out, 0%Z) /\
      lastWrite out = "Game closed before starting.") /\
  (exists (out : list string) (n : Z),
      main goodMachine closedPlaying = Some (out, 0%Z) /\
      lastWrite out = ("Game Over! Final Score: " ++ showInt n)%string).
Proof.
  split.
  - destruct (main_closed goodMachine waitingFrames (mkFrame idle 3 9 true)
                          eq_refl eq_refl) as [out Hm].
    exists out. split; [exact Hm|].
    refine (proj1 (proj2 (proj2 (main_last_write goodMachine closedWaiting
                                   out 0 eq_refl Hm))) _).
    unfold closedWaiting, waitingFrames, goodMachine, WAIT_TIME_SECONDS; cbn.
    repeat apply Forall_cons; try apply Forall_nil; cbn; lra.
  - destruct (main_closed goodMachine waitingFrames
                          (mkFrame leftKey 240 9 true)
                          eq_refl eq_refl) as [out Hm].
    destruct (proj2 (proj2 (proj2 (main_last_write goodMachine closedPlaying
                                     out 0 eq_refl Hm)))
                    waitingFrames (mkFrame leftKey 240 9 true) []
                    eq_refl) as [n [_ Hn]].
    + unfold waitingFrames, quietWait, goodMachine, WAIT_TIME_SECONDS; cbn.
      repeat apply Forall_cons; try apply Forall_nil;
        (split; [cbn; lra | split; reflexivity]).
    + unfold goodMachine, WAIT_TIME_SECONDS; cbn; lra.
    + exists out, n. split; [exact Hm | exact Hn].
Defined.

Lemma countdown_once_per_second_witness :
  let l := mkLoop gameState0 false (-1) [] in
  truncate 239.2 = truncate 239.5 /\
  displayCountdown 239.2 (displayCountdown 239.5 l) = displayCountdown 239.5 l.
Proof.
  intros l.
  assert (H : truncate 239.2 = truncate 239.5)
    by (rewrite (truncate_between 239.2 239), (truncate_between 239.5 239);
        [reflexivity | lra | lra | lra | lra]).
  split; [exact H|].
  exact (proj1 (countdown_once_per_second 239.5 239.2 l) H).
Defined.

Lemma resetBall_serves_upward_witness :
  (0 <= 7)%Z /\
  vec2.y (ballVelocity (resetBall 7 gameState0)) = BALL_VELOCITY.
Proof.
  split; [lia|].
  exact (proj1 (proj2 (resetBall_serves_upward 7 gameState0 ltac:(lia)))).
Defined.
Lemma paddle_sends_ball_up_witness :
  let v := ballVelocity (bouncePaddle (bounceWalls (moveBall ballOnPaddle))) in
  0 <= vec2.y v /\ 0 <= vec2.x v.
Proof.
  destruct (paddle_sends_ball_up ballOnPaddle ballOnPaddle_hit)
    as [Hy Hx].
  split; [exact Hy|].
  refine (proj1 (Hx _ _) _);
    rewrite ?ball_bounceWalls, ?paddle_bounceWalls; cbn;
    unfold PADDLE_WIDTH, BALL_SIZE; try reflexivity; lra.
Defined.
End GameRunsExamples.

(** ** The particle systems: what is drawn *)

Section ParticleRuns.
Import Particles ParticleScene ParticleFacts.

Ltac ranges Hu :=
  repeat match goal with
  | |- context [linearRand ?a ?b (uniform ?d ?i)] =>
      let H := fresh "Hr" in
      pose proof (linearRand_range a b (uniform d i) ltac:(lra) (Hu i)) as H;
      generalize dependent (linearRand a b (uniform d i)); intros
  end.

(** Every [spawnParticle] makes a particle at full life, with a colour and
    a size that can be drawn, and the smoke starts at the pot going up. *)
Lemma spawnParticle_sound (d : Draws) (s : ParticleSystem) :
  (forall i : nat, 0 <= uniform d i <= 1) ->
  exists p : Particle,
    spawnParticle d s = push_back p s /\
    sound (kind s) (vec3.y (origin s)) p.
Proof.
  intros Hu. unfold spawnParticle.
  destruct (kind s) eqn:K; eexists; (split; [reflexivity|]);
    unfold sound, validColor, unitInterval;
    cbn [life maxLife color size velocity position vec3.x vec3.y vec3.z
         vec3.add].
  - ranges Hu. repeat split; try lra; discriminate.
  - ranges Hu. repeat split; try lra; discriminate.
  - destruct (Rltb _ _); cbn [vec3.x vec3.y vec3.z]; ranges Hu;
      repeat split; try lra; discriminate.
  - ranges Hu. repeat split; try nra; discriminate.
  - ranges Hu. repeat split; try lra.
Qed.

Lemma fall_sound (k : SystemKind) (h : R) (g : vec3.t) (dt : R) (p : Particle) :
  k <> CoffeeCeremonySystem -> sound k h p -> sound k h (fall g dt p).
Proof.
  intros Hk [Hl [Hc [Hs _]]]. unfold sound, fall.
  cbn [life maxLife color size].
  split; [exact Hl|]. split; [exact Hc|]. split; [exact Hs|].
  intros E. contradiction.
Qed.

Lemma drift_sound (h : R) (g j : vec3.t) (dt time : R) (p : Particle) :
  0 <= dt -> 0 <= vec3.y g -> vec3.y j = h ->
  sound CoffeeCeremonySystem h p ->
  sound CoffeeCeremonySystem h (drift g j dt time p).
Proof.
  intros Hdt Hg Hj [Hl [Hc [Hs Hrise]]].
  destruct (Hrise eq_refl) as [Hv Hy].
  unfold sound, drift, validColor, unitInterval, mix.
  cbn [life maxLife color size velocity position vec3.x vec3.y vec3.z
       vec3.add vec3.scale].
  set (hf := Rmin 1 ((vec3.y (position p) - vec3.y j) / 3)).
  assert (Hhf : 0 <= hf <= 1).
  { subst hf. split; [apply Rmin_glb; lra | apply Rmin_l]. }
  assert (Hv' : 0 <= vec3.y (velocity p) + vec3.y g * dt * 0.7) by nra.
  repeat split; try lra; try nra.
Qed.

Lemma ageParticles_sound (k : SystemKind) (h : R)
      (move : nat -> Particle -> Particle) (dt : R) (calls : nat)
      (l : list Particle) :
  0 <= dt ->
  (forall (c : nat) (p : Particle), sound k h p -> sound k h (move c p)) ->
  Forall (sound k h) l -> Forall (sound k h) (ageParticles move dt calls l).
Proof.
  intros Hdt Hmove Hl. revert calls.
  induction Hl as [|p rest Hp Hrest IH]; intros calls; cbn [ageParticles].
  - constructor.
  - cbn [life set_life]. destruct (Rleb (life p - dt) 0) eqn:E.
    + apply IH.
    + constructor; [|apply IH]. apply Hmove.
      apply Rleb_false in E. destruct Hp as [Hlife [Hc [Hs Hrise]]].
      unfold sound, set_life. cbn [life maxLife color size velocity position].
      split; [lra|]. split; [exact Hc|]. split; [exact Hs | exact Hrise].
Qed.

Lemma spawnLoop_sound (fuel : nat) (rnd : nat -> Draws) (k : nat)
      (s : ParticleSystem) :
  unitDraws rnd -> soundSystem s -> soundSystem (spawnLoop fuel rnd k s).
Proof.
  intros Hu. revert k s.
  induction fuel as [|fuel IH]; intros k s Hs; cbn [spawnLoop].
  - exact Hs.
  - destruct (_ && _); [|exact Hs]. apply IH.
    destruct (spawnParticle_sound (rnd k) s (Hu k)) as [p [-> Hp]].
    destruct Hs as [Hall Hsys]. split; [|exact Hsys].
    cbn [particles kind origin set_timeSinceLastSpawn push_back set_particles].
    apply Forall_app. split; [exact Hall | now constructor].
Qed.

Lemma update_sound (t : Tick) (s : ParticleSystem) :
  forward t -> soundSystem s -> soundSystem (update t s).
Proof.
  intros [Hdt Hu] Hs.
  assert (Hstep : forall move : nat -> Particle -> Particle,
             (forall (c : nat) (p : Particle),
                 sound (kind s) (vec3.y (origin s)) p ->
                 sound (kind s) (vec3.y (origin s)) (move c p)) ->
             soundSystem
               (spawnDue (rnd t)
                  (set_timeSinceLastSpawn (timeSinceLastSpawn s + dt t)
                     (set_particles
                        (ageParticles move (dt t) 0 (particles s)) s)))).
  { intros move Hmove. unfold spawnDue. apply spawnLoop_sound; [exact Hu|].
    destruct Hs as [Hall Hsys]. split; [|exact Hsys].
    cbn [particles kind origin set_timeSinceLastSpawn set_particles].
    apply ageParticles_sound; assumption. }
  unfold update, ParticleSystem_update, CoffeeCeremonySystem_update.
  destruct (isActive s); cbn [negb]; [|destruct (kind s); exact Hs].
  destruct (kind s) eqn:K; cbn zeta; apply Hstep; intros c p; rewrite ?K.
  - apply fall_sound. discriminate.
  - apply fall_sound. discriminate.
  - apply fall_sound. discriminate.
  - apply fall_sound. discriminate.
  - destruct Hs as [_ Hsys]. destruct (Hsys K) as [Hg Hj].
    now apply drift_sound.
Qed.

Lemma updates_sound (ticks : list Tick) (s : ParticleSystem) :
  Forall forward ticks -> soundSystem s -> soundSystem (updates ticks s).
Proof.
  intros Hf. revert s. induction Hf as [|t rest Ht Hrest IH]; intros s Hs.
  - exact Hs.
  - change (updates (t :: rest) s) with (updates rest (update t s)).
    apply IH. now apply update_sound.
Qed.

Lemma fold_sound (rnd : nat -> Draws) (l : list nat) (s : ParticleSystem) :
  unitDraws rnd -> soundSystem s ->
  soundSystem (fold_left (fun s i => spawnParticle (rnd i) s) l s).
Proof.
  intros Hu. revert s. induction l as [|i l IH]; intros s Hs; cbn [fold_left].
  - exact Hs.
  - apply IH. destruct (spawnParticle_sound (rnd i) s (Hu i)) as [p [-> Hp]].
    destruct Hs as [Hall Hsys]. split; [|exact Hsys].
    cbn [particles kind origin push_back set_particles].
    apply Forall_app. split; [exact Hall | now constructor].
Qed.

Lemma create_sound (k : SystemKind) (rnd : nat -> Draws) :
  unitDraws rnd -> soundSystem (create k rnd).
Proof.
  intros Hu. destruct k; unfold create, prepopulate; apply fold_sound;
    try exact Hu; (split; [constructor|]); cbn; try discriminate.
  intros _. split; [lra | reflexivity].
Qed.

Lemma run_sound (k : SystemKind) (rnd : nat -> Draws) (ticks : list Tick) :
  unitDraws rnd -> Forall forward ticks ->
  soundSystem (updates ticks (create k rnd)) /\
  kind (updates ticks (create k rnd)) = k.
Proof.
  intros Hu Hf. split.
  - apply updates_sound; [exact Hf | now apply create_sound].
  - destruct (create_within k rnd) as [Hk [_ Hw]].
    destruct (updates_within ticks (create k rnd) Hw) as [[Hk' _] _].
    congruence.
Qed.

(** X9: [update] leaves a system switched off with [setActive(false)] as
    it is; on an active system it returns only when no spawn is due any
    more: the vector is full, or less than one [spawnRate] of time is
    pending. *)
Theorem update_spawns_what_is_due (t : Tick) (s : ParticleSystem) :
  update t (setActive false s) = setActive false s /\
  (isActive s = true -> caughtUp (update t s)).
Proof.
  split.
  - unfold update, ParticleSystem_update, CoffeeCeremonySystem_update.
    cbn [kind isActive setActive negb]. now destruct (kind s).
  - intros Ha.
    assert (H : exists s0, update t s = spawnDue (rnd t) s0).
    { unfold update, ParticleSystem_update, CoffeeCeremonySystem_update.
      rewrite Ha. cbn [negb]. destruct (kind s); eexists; reflexivity. }
    destruct H as [s0 ->]. pose proof (spawnDue_exit (rnd t) s0) as E.
    cbn zeta in E. unfold caughtUp.
    apply andb_false_iff in E as [E | E].
    + left. apply Rgeb_false in E. lra.
    + right. apply Nat.ltb_ge in E. exact E.
Qed.

(** X10: in every system, as constructed and after any sequence of
    [update] calls in which time does not run backwards, the opacity that
    [renderParticles] computes for a particle is above 0 and at most 1. *)
Theorem particles_are_visible
  (k : SystemKind) (rnd : nat -> Draws) (ticks : list Tick) :
  unitDraws rnd -> Forall forward ticks ->
  let s := updates ticks (create k rnd) in
  Forall (fun p => 0 < particleAlpha s p <= 1) (particles s).
Proof.
  intros Hu Hf s. destruct (run_sound k rnd ticks Hu Hf) as [[Hall _] Hk].
  fold s in Hall, Hk. revert Hall. apply Forall_impl.
  intros p [[Hpos Hle] [_ [_ Hrise]]].
  assert (Ha : 0 < life p / maxLife p <= 1).
  { split.
    - apply Rdiv_lt_0_compat; lra.
    - apply (Rmult_le_reg_r (maxLife p)); [lra|].
      unfold Rdiv. rewrite Rmult_assoc, Rinv_l by lra. lra. }
  unfold particleAlpha. cbv zeta.
  destruct (kind s) eqn:K; try exact Ha.
  destruct (Hrise eq_refl) as [_ Hy].
  set (hf := Rmin 1 _).
  assert (Hhf : 0 <= hf <= 1).
  { subst hf. split; [apply Rmin_glb; lra | apply Rmin_l]. }
  nra.
Qed.

(** X11: under the same conditions every particle has colour components
    between 0 and 1, a positive size, and a remaining life that is
    positive and not above its [maxLife]. *)
Theorem particles_are_drawable
  (k : SystemKind) (rnd : nat -> Draws) (ticks : list Tick) :
  unitDraws rnd -> Forall forward ticks ->
  Forall (fun p => validColor (color p) /\ 0 < size p /\
                   0 < life p <= maxLife p)
         (particles (updates ticks (create k rnd))).
Proof.
  intros Hu Hf. destruct (run_sound k rnd ticks Hu Hf) as [[Hall _] _].
  revert Hall. apply Forall_impl. intros p [Hl [Hc [Hs _]]]. tauto.
Qed.
End ParticleRuns.

(** ** The particle demo: render loop, callbacks and camera *)

Section SceneRuns.
Import Particles ParticleScene ParticleFacts.

Lemma system_set_system (t u : ParticleSystemType) (s : ParticleSystem)
      (w : World) :
  system t (set_system u s w) = if
    match t, u with
    | RAIN, RAIN | WATERFALL, WATERFALL | FIRE, FIRE | DUST, DUST
    | COFFEE_CEREMONY, COFFEE_CEREMONY => true
    | _, _ => false
    end then s else system t w.
Proof. destruct t, u; reflexivity. Qed.

(** [key_callback] by cases on the key. *)
Lemma key_callback_cases (key : Key) (action : Action) (w : World) :
  key_callback key action w
  = if isPress action
    then match key with
         | KEY_F1 =>
             set_camera (set_firstMouse true (camera w))
                        (set_cursorDisabled (negb (cursorDisabled w)) w)
         | KEY_H => set_showHelp (negb (showHelp w)) w
         | KEY_1 => set_currentSystem RAIN w
         | KEY_2 => set_currentSystem WATERFALL w
         | KEY_3 => set_currentSystem FIRE w
         | KEY_4 => set_currentSystem DUST w
         | KEY_5 => set_currentSystem COFFEE_CEREMONY w
         | KEY_OTHER => w
         end
    else w.
Proof.
  destruct key; destruct action; try reflexivity.
  unfold key_callback. cbv beta iota zeta delta [isPress].
  now destruct (cursorDisabled w).
Qed.

Lemma system_key_callback (t : ParticleSystemType) (key : Key)
      (action : Action) (w : World) :
  system t (key_callback key action w) = system t w.
Proof.
  rewrite key_callback_cases.
  destruct (isPress action); [|reflexivity].
  destruct key, t; reflexivity.
Qed.

Lemma system_deliver (t : ParticleSystemType) (w : World) (e : Event) :
  system t (deliver w e) = system t w.
Proof.
  destruct e; cbn [deliver].
  - apply system_key_callback.
  - destruct t; reflexivity.
  - destruct t; reflexivity.
Qed.

Lemma system_pollEvents (t : ParticleSystemType) (l : list Event) (w : World) :
  system t (pollEvents l w) = system t w.
Proof.
  unfold pollEvents. revert w.
  induction l as [|e l IH]; intros w; cbn [fold_left].
  - reflexivity.
  - rewrite IH. apply system_deliver.
Qed.

Lemma system_processInput (t : ParticleSystemType) (k : Keys) (w : World) :
  system t (processInput k w) = system t w.
Proof.
  unfold processInput. destruct (KEY_ESCAPE k); destruct t; reflexivity.
Qed.

Lemma currentSystem_processInput (k : Keys) (w : World) :
  currentSystem (processInput k w) = currentSystem w.
Proof. unfold processInput. destruct (KEY_ESCAPE k); reflexivity. Qed.

Lemma deltaTime_processInput (k : Keys) (w : World) :
  deltaTime (processInput k w) = deltaTime w.
Proof. unfold processInput. destruct (KEY_ESCAPE k); reflexivity. Qed.

Lemma system_frame (t : ParticleSystemType) (f : Frame) (w : World) :
  system t (frame f w)
  = system t
      (set_system (currentSystem w)
         (update (mkTick (currentFrame f - lastFrame w) (draws f) (clock f))
                 (system (currentSystem w) w)) w).
Proof.
  unfold frame, finish, simulate. cbv zeta.
  assert (E : forall (b : bool) (w' : World),
             system t (if b then set_shouldClose true w' else w')
             = system t w')
    by (intros [] w'; destruct t; reflexivity).
  rewrite E, system_pollEvents. unfold updateCurrent.
  rewrite currentSystem_processInput, deltaTime_processInput,
    !system_set_system, !system_processInput.
  cbn [currentSystem deltaTime set_time].
  destruct t, (currentSystem w); reflexivity.
Qed.

(** X12: a frame of the render loop updates the system that is selected
    when the frame begins, with the time since the previous frame, and no
    other: the four systems not shown neither age nor spawn. *)
Theorem only_current_system_runs (f : Frame) (w : World) :
  system (currentSystem w) (frame f w)
  = update (mkTick (currentFrame f - lastFrame w) (draws f) (clock f))
           (system (currentSystem w) w) /\
  (forall t : ParticleSystemType,
      t <> currentSystem w -> system t (frame f w) = system t w).
Proof.
  split.
  - rewrite system_frame, system_set_system.
    now destruct (currentSystem w).
  - intros t Ht. rewrite system_frame, system_set_system.
    destruct t, (currentSystem w); try reflexivity; contradiction.
Qed.

Lemma renderLoop_inv (P : World -> Prop) (frames : list Frame) (w : World) :
  (forall (f : Frame) (w : World), P w -> P (frame f w)) ->
  P w -> P (renderLoop frames w).
Proof.
  intros Hstep. revert w.
  induction frames as [|f rest IH]; intros w Hw; cbn [renderLoop].
  - exact Hw.
  - destruct (shouldClose w); [exact Hw|]. apply IH. now apply Hstep.
Qed.

Lemma world0_asBuilt (rnd : ParticleSystemType -> nat -> Draws) :
  asBuilt (world0 rnd).
Proof. intros t. destruct t; apply create_within. Qed.

Lemma frame_asBuilt (f : Frame) (w : World) : asBuilt w -> asBuilt (frame f w).
Proof.
  intros Hw t. rewrite system_frame, system_set_system.
  destruct (Hw t) as [Hk [Hm Hc]].
  destruct (Hw (currentSystem w)) as [Hk' [Hm' Hc']].
  destruct (update_within
              (mkTick (currentFrame f - lastFrame w) (draws f) (clock f))
              (system (currentSystem w) w) Hc') as [[Hk2 Hm2] Hc2].
  destruct t, (currentSystem w); try (repeat split; assumption);
    (split; [congruence | split; [congruence | exact Hc2]]).
Qed.

(** X13: in the render loop of [main], whatever keys, events and clock
    readings arrive, each of the five systems keeps its class and the
    capacity its constructor chose (1000, 2000, 800, 600 and 500), and
    never holds more particles than that. *)
Theorem world_within_capacity
  (rnd : ParticleSystemType -> nat -> Draws) (frames : list Frame)
  (t : ParticleSystemType) :
  let s := system t (renderLoop frames (world0 rnd)) in
  kind s = classOf t /\
  maxParticles s = capacity (classOf t) /\
  (List.length (particles s) <= capacity (classOf t))%nat.
Proof.
  cbv zeta.
  destruct (renderLoop_inv asBuilt frames (world0 rnd) frame_asBuilt
              (world0_asBuilt rnd) t) as [Hk [Hm Hc]].
  unfold withinCapacity in Hc. rewrite Hm in Hc. auto.
Qed.

(** *** The camera *)

Lemma camera_key_callback (P : Camera -> Prop) (key : Key) (action : Action)
      (w : World) :
  (forall (b : bool) (c : Camera), P c -> P (set_firstMouse b c)) ->
  P (camera w) -> P (camera (key_callback key action w)).
Proof.
  intros Hf Hw. rewrite key_callback_cases.
  destruct (isPress action); [|exact Hw].
  destruct key; try exact Hw. cbn [camera set_camera]. now apply Hf.
Qed.

Lemma camera_moveCamera (P : Camera -> Prop) (k : Keys) (dt : R) (c : Camera) :
  (forall (v : vec3.t) (c : Camera), P c -> P (set_cameraPos v c)) ->
  P c -> P (moveCamera k dt c).
Proof.
  intros Hp Hc. unfold moveCamera. cbv zeta.
  destruct (KEY_W k), (KEY_S k), (KEY_A k), (KEY_D k), (KEY_SPACE k),
    (KEY_LEFT_CONTROL k); repeat apply Hp; exact Hc.
Qed.

(** A property of the camera that the two callbacks establish or keep, and
    that moving the camera and re-arming [firstMouse] do not disturb, holds
    throughout the render loop. *)
Lemma camera_inv (P : Camera -> Prop) (frames : list Frame) (w : World) :
  (forall (x y : R) (c : Camera), P c -> P (mouse_callback x y c)) ->
  (forall (x y : R) (c : Camera), P c -> P (scroll_callback x y c)) ->
  (forall (v : vec3.t) (c : Camera), P c -> P (set_cameraPos v c)) ->
  (forall (b : bool) (c : Camera), P c -> P (set_firstMouse b c)) ->
  P (camera w) -> P (camera (renderLoop frames w)).
Proof.
  intros Hm Hs Hp Hf.
  apply (renderLoop_inv (fun w => P (camera w))). clear w.
  intros f w Hw. unfold frame, finish, simulate. cbv zeta.
  assert (E : forall (b : bool) (w' : World),
             camera (if b then set_shouldClose true w' else w') = camera w')
    by (intros [] w'; reflexivity).
  rewrite E. unfold pollEvents.
  assert (Hpoll : forall (l : list Event) (w' : World),
             P (camera w') -> P (camera (fold_left deliver l w'))).
  { induction l as [|e l IH]; intros w' Hw'; cbn [fold_left].
    - exact Hw'.
    - apply IH. destruct e; cbn [deliver camera set_camera].
      + now apply camera_key_callback.
      + now apply Hm.
      + now apply Hs. }
  apply Hpoll. unfold updateCurrent.
  assert (E2 : forall (t : ParticleSystemType) (s : ParticleSystem) (w' : World),
             camera (set_system t s w') = camera w')
    by (intros [] s w'; reflexivity).
  rewrite E2. unfold processInput. cbn [camera set_camera].
  apply camera_moveCamera; [exact Hp|].
  destruct (KEY_ESCAPE (keys f)); exact Hw.
Qed.

(** X14: whatever the mouse, the wheel and the keys do, the pitch of the
    camera stays between -89 and 89 degrees and its speed between 0.01 and
    0.2. *)
Theorem camera_stays_clamped
  (rnd : ParticleSystemType -> nat -> Draws) (frames : list Frame) :
  let c := camera (renderLoop frames (world0 rnd)) in
  -89 <= pitch c <= 89 /\ 0.01 <= cameraSpeed c <= 0.2.
Proof.
  cbv zeta.
  apply (camera_inv (fun c => pitchInRange c /\ speedInRange c)).
  - intros x y c [_ Hs]. split; [|exact Hs].
    unfold pitchInRange, mouse_callback. cbn [pitch].
    destruct (Rgtb _ 89) eqn:E1.
    + destruct (Rltb 89 (-89)) eqn:E2; [apply Rltb_true in E2|]; lra.
    + apply Rgtb_false in E1. destruct (Rltb _ (-89)) eqn:E2; [lra|].
      apply Rltb_false in E2. lra.
  - intros x y c [Hp _]. split; [exact Hp|].
    unfold speedInRange, scroll_callback. cbn [cameraSpeed set_cameraSpeed].
    destruct (Rltb _ 0.01) eqn:E1.
    + destruct (Rgtb 0.01 0.2) eqn:E2; [apply Rgtb_true in E2|]; lra.
    + apply Rltb_false in E1. destruct (Rgtb _ 0.2) eqn:E2; [lra|].
      apply Rgtb_false in E2. lra.
  - intros v c H. exact H.
  - intros b c H. exact H.
  - change (camera (world0 rnd)) with camera0.
    unfold pitchInRange, speedInRange, camera0. cbn [pitch cameraSpeed]. lra.
Qed.

Lemma PI_above : 3.14 < PI.
Proof.
  pose proof (PI_2_3_7_ineq 1) as [H _].
  unfold sum_f_R0, tg_alt, PI_2_3_7_tg, Ratan_seq in H.
  simpl in H. lra.
Qed.

Lemma normalize_levelled (v : vec3.t) :
  0 < dot (cross v cameraUp) (cross v cameraUp) ->
  0 < dot (cross (normalize v) cameraUp) (cross (normalize v) cameraUp).
Proof.
  intros H. unfold normalize.
  assert (Hv : 0 < dot v v).
  { revert H. unfold dot, cross, cameraUp. cbn [vec3.x vec3.y vec3.z].
    intros H. nra. }
  assert (Hs : 0 < sqrt (dot v v)) by now apply sqrt_lt_R0.
  assert (Hk : 0 < 1 / sqrt (dot v v)) by now apply Rdiv_lt_0_compat; [lra|].
  set (k := 1 / sqrt (dot v v)) in *.
  replace (dot (cross (vec3.scale v k) cameraUp)
               (cross (vec3.scale v k) cameraUp))
    with (k * k * dot (cross v cameraUp) (cross v cameraUp))
    by (unfold dot, cross, cameraUp, vec3.scale;
        cbn [vec3.x vec3.y vec3.z]; ring).
  apply Rmult_lt_0_compat; [nra | exact H].
Qed.

Lemma front_levelled (y p : R) :
  -89 <= p <= 89 ->
  0 < dot (cross (front y p) cameraUp) (cross (front y p) cameraUp).
Proof.
  intros Hp. unfold dot, cross, front, cameraUp.
  cbn [vec3.x vec3.y vec3.z].
  pose proof (sin2_cos2 (radians y)) as Hy. unfold Rsqr in Hy.
  assert (Hc : 0 < cos (radians p)).
  { pose proof PI_above. apply cos_gt_0; unfold radians; lra. }
  set (cy := cos (radians y)) in *. set (sy := sin (radians y)) in *.
  set (cp := cos (radians p)) in *. set (sp := sin (radians p)) in *.
  replace (_ + _ + _) with ((sy * sy + cy * cy) * (cp * cp)) by ring.
  rewrite Hy. nra.
Qed.

(** X15: throughout the render loop the direction the camera looks in is
    never vertical: its cross product with the up vector, which the keys A
    and D have normalised, is not the zero vector. *)
Theorem camera_never_vertical
  (rnd : ParticleSystemType -> nat -> Draws) (frames : list Frame) :
  let c := camera (renderLoop frames (world0 rnd)) in
  0 < dot (cross (cameraFront c) cameraUp) (cross (cameraFront c) cameraUp).
Proof.
  cbv zeta.
  apply (camera_inv levelled).
  - intros x y c _. unfold levelled, mouse_callback. cbn [cameraFront].
    set (p := if Rltb _ (-89) then _ else _).
    assert (Hp : -89 <= p <= 89).
    { subst p. destruct (Rgtb _ 89) eqn:E1.
      - destruct (Rltb 89 (-89)) eqn:E2; [apply Rltb_true in E2|]; lra.
      - apply Rgtb_false in E1. destruct (Rltb _ (-89)) eqn:E2; [lra|].
        apply Rltb_false in E2. lra. }
    now apply normalize_levelled, front_levelled.
  - intros x y c H. exact H.
  - intros v c H. exact H.
  - intros b c H. exact H.
  - change (camera (world0 rnd)) with camera0.
    unfold levelled, dot, cross, cameraUp, camera0.
    cbn [cameraFront vec3.x vec3.y vec3.z]. lra.
Qed.
End SceneRuns.

Section ParticleRunsExamples.
Import Particles ParticleScene ParticleFacts ParticleExamples
  ParticleSceneExamples.

Lemma update_spawns_what_is_due_witness :
  isActive smallDust = true /\ caughtUp (update sixtiethOfSecond smallDust).
Proof.
  split; [reflexivity|].
  exact (proj2 (update_spawns_what_is_due sixtiethOfSecond smallDust) eq_refl).
Defined.

Lemma sixtiethOfSecond_forward : Forall forward [sixtiethOfSecond].
Proof.
  constructor; [|constructor]. split; [cbn; lra | exact halves_unit].
Qed.

Lemma particles_are_visible_witness :
  let s := updates [sixtiethOfSecond] (create DustSystem halves) in
  Forall (fun p => 0 < particleAlpha s p <= 1) (particles s).
Proof.
  exact (particles_are_visible DustSystem halves [sixtiethOfSecond]
           halves_unit sixtiethOfSecond_forward).
Defined.

Lemma particles_are_drawable_witness :
  Forall (fun p => validColor (color p) /\ 0 < size p /\
                   0 < life p <= maxLife p)
         (particles (updates [sixtiethOfSecond]
                             (create CoffeeCeremonySystem halves))).
Proof.
  exact (particles_are_drawable CoffeeCeremonySystem halves
           [sixtiethOfSecond] halves_unit sixtiethOfSecond_forward).
Defined.

Lemma halfWorld_shows_rain : FIRE <> currentSystem halfWorld.
Proof. discriminate. Qed.

Lemma only_current_system_runs_witness :
  FIRE <> currentSystem halfWorld /\
  system FIRE (frame firstFrame halfWorld) = system FIRE halfWorld.
Proof.
  split; [exact halfWorld_shows_rain|].
  exact (proj2 (only_current_system_runs firstFrame halfWorld) FIRE
           halfWorld_shows_rain).
Defined.
End ParticleRunsExamples.

(** ** The particle demo: what [main] prints *)

Section ParticleMainRuns.
Import Particles ParticleScene ParticleMain.

Lemma world_sessionFrame (f : Frame) (s : Session) :
  world (sessionFrame f s) = frame f (world s).
Proof.
  unfold sessionFrame, frame, renderHelp. cbv zeta. cbn [world].
  destruct (showHelp (simulate f (world s))); [|reflexivity].
  now destruct (helpPrinted s).
Qed.

(** The session adds the console to the world and nothing else. *)
Lemma world_sessionLoop (frames : list Frame) (s : Session) :
  world (sessionLoop frames s) = renderLoop frames (world s).
Proof.
  revert s. induction frames as [|f rest IH]; intros s;
    cbn [sessionLoop renderLoop]; [reflexivity|].
  destruct (shouldClose (world s)); [reflexivity|].
  now rewrite IH, world_sessionFrame.
Qed.

Lemma sessionFrame_printed (f : Frame) (s : Session) :
  helpPrinted s = true ->
  helpPrinted (sessionFrame f s) = true /\
  console (sessionFrame f s) = console s.
Proof.
  intros H. unfold sessionFrame, renderHelp. cbv zeta.
  cbn [world helpPrinted console].
  destruct (showHelp _); cbn [helpPrinted console]; rewrite ?H; auto.
Qed.

Lemma sessionLoop_printed (frames : list Frame) (s : Session) :
  helpPrinted s = true -> console (sessionLoop frames s) = console s.
Proof.
  revert s. induction frames as [|f rest IH]; intros s H;
    cbn [sessionLoop]; [reflexivity|].
  destruct (shouldClose (world s)); [reflexivity|].
  destruct (sessionFrame_printed f s H) as [H1 H2].
  now rewrite IH, H2.
Qed.

Lemma showHelp_simulate (f : Frame) (w : World) :
  showHelp (simulate f w) = showHelp w.
Proof.
  unfold simulate, updateCurrent, processInput. cbv zeta.
  destruct (KEY_ESCAPE (keys f));
    cbn [currentSystem set_camera set_shouldClose set_time];
    destruct (currentSystem w); reflexivity.
Qed.

(** X24: what [main] of the particle demo prints and returns.  Without a
    window it prints one line and returns -1; when the GL functions cannot
    be loaded, the two banner lines and the error, and returns -1.
    Otherwise it returns 0, and after the banner and the messages of the
    shader build the console holds the controls exactly once if the render
    loop runs at all, whatever keys are pressed: they are printed in the
    first frame, and the key H never brings them back. *)
Theorem particle_main_console (e : Startup) (frames : list Frame) :
  (glfwCreateWindow e = false ->
   main e frames = (["Failed to create GLFW window"], (-1)%Z)) /\
  (glfwCreateWindow e = true -> gladLoadGLLoader e = false ->
   main e frames = (banner ++ ["Failed to initialize GLAD"], (-1)%Z)) /\
  (glfwCreateWindow e = true -> gladLoadGLLoader e = true ->
   main e frames
   = (banner ++ shaderErrors e
        ++ match frames with [] => [] | _ :: _ => controls end, 0%Z)).
Proof.
  unfold main. split; [|split].
  - intros ->. reflexivity.
  - intros -> ->. reflexivity.
  - intros -> ->. cbn [negb]. cbv zeta. f_equal.
    destruct frames as [|f rest]; cbn [sessionLoop world].
    + now rewrite app_nil_r.
    + change (shouldClose (world0 (rnd e))) with false. cbv iota.
      rewrite sessionLoop_printed.
      * unfold sessionFrame, renderHelp. cbv zeta.
        cbn [world helpPrinted console].
        rewrite showHelp_simulate.
        change (showHelp (world0 (rnd e))) with true. cbv iota.
        cbn [helpPrinted negb console]. now rewrite <- app_assoc.
      * unfold sessionFrame, renderHelp. cbv zeta.
        cbn [world helpPrinted console].
        rewrite showHelp_simulate.
        change (showHelp (world0 (rnd e))) with true. reflexivity.
Qed.
End ParticleMainRuns.

Section ParticleMainExamples.
Import Particles ParticleScene ParticleMain ParticleExamples
  ParticleSceneExamples.

Lemma particle_main_console_witness :
  main (mkStartup true false true "" true "" true "" (fun _ => halves))
       [firstFrame]
  = (banner ++ ["Failed to initialize GLAD"], (-1)%Z).
Proof.
  exact (proj1 (proj2 (particle_main_console
                         (mkStartup true false true "" true "" true ""
                                    (fun _ => halves))
                         [firstFrame])) eq_refl eq_refl).
Defined.
End ParticleMainExamples.

(** ** The race: how a run goes *)

Section RaceRuns.
Import Race RaceEnd.
Variable RAND_MAX : Z.

Lemma assign_inv (l : list Student) (i : nat) (f : Student -> Student)
      (l' : list Student) :
  assign l i f = Some l' ->
  (i < List.length l)%nat /\ List.length l' = List.length l.
Proof.
  revert i l'. induction l as [|s rest IH]; intros i l'; cbn [assign].
  - discriminate.
  - destruct i as [|i].
    + intros E. inversion E. cbn. split; [lia | reflexivity].
    + destruct (assign rest i f) as [rest'|] eqn:E0; [|discriminate].
      intros E. inversion E. destruct (IH i rest' E0) as [Hi Hl].
      cbn. split; lia.
Qed.

Lemma initLoop_inv (rand : nat -> Z) (count i : nat) (l l' : list Student) :
  initLoop RAND_MAX rand i count l = Some l' ->
  List.length l' = List.length l /\
  (count = 0%nat \/ (i + count <= List.length l)%nat).
Proof.
  revert i l. induction count as [|count IH]; intros i l; cbn [initLoop].
  - intros E. inversion E. auto.
  - destruct (assign l i (initStudent RAND_MAX rand i)) as [l1|] eqn:E1;
      [|discriminate].
    intros E. destruct (assign_inv _ _ _ _ E1) as [Hi Hl1].
    destruct (IH _ _ E) as [Hl' Hc]. split; [congruence|]. right.
    destruct Hc as [-> | Hc]; lia.
Qed.

(** The loop of [initializeStudents] makes every student it assigns what
    its body makes of the index. *)
Lemma initLoop_all (P : nat -> Student -> Prop) (rand : nat -> Z)
      (count i : nat) (l : list Student) :
  (forall (j : nat) (s : Student),
      (i <= j < i + count)%nat -> P j (initStudent RAND_MAX rand j s)) ->
  (i + count <= List.length l)%nat ->
  exists l' : list Student,
    initLoop RAND_MAX rand i count l = Some l' /\
    forall j : nat, (i <= j < i + count)%nat ->
      exists s : Student, nth_error l' j = Some s /\ P j s.
Proof.
  revert i l. induction count as [|count IH]; intros i l HP Hlen;
    cbn [initLoop].
  - exists l. split; [reflexivity|]. intros j Hj. lia.
  - destruct (assign_some l i (initStudent RAND_MAX rand i) ltac:(lia))
      as [s [l1 [Ha [Hl1 [_ [Hi Ho]]]]]].
    rewrite Ha.
    destruct (IH (S i) l1) as [l' [Hrun Hmid]].
    + intros j s0 Hj. apply HP. lia.
    + lia.
    + exists l'. split; [exact Hrun|].
      intros j Hj. destruct (Nat.eq_dec j i) as [->|Hne].
      * exists (initStudent RAND_MAX rand i s). split; [|apply HP; lia].
        destruct (initLoop_spec RAND_MAX rand count (S i) l1 ltac:(lia))
          as [l2 [Hrun2 [_ [Hlo _]]]].
        assert (l2 = l') by congruence. subst l2.
        rewrite Hlo by lia. exact Hi.
      * apply Hmid. lia.
Qed.

Lemma Forall_nth_error (A : Type) (P : A -> Prop) (l : list A) :
  (forall (j : nat) (a : A), nth_error l j = Some a -> P a) -> Forall P l.
Proof.
  intros H. apply Forall_forall. intros a Ha.
  destruct (In_nth_error l a Ha) as [j Hj]. exact (H j a Hj).
Qed.

Lemma unit_fraction (x m : R) : 0 < m -> 0 <= x <= m -> 0 <= x / m <= 1.
Proof.
  intros Hm Hx. split.
  - apply Rmult_le_pos; [lra|]. left. now apply Rinv_0_lt_compat.
  - apply (Rmult_le_reg_r m); [exact Hm|].
    unfold Rdiv. rewrite Rmult_assoc, Rinv_l by lra. lra.
Qed.

Lemma startPosition_range (j : nat) :
  (j < NUM_STUDENTS)%nat -> 13 <= startPosition j <= TRACK_LENGTH / 2.
Proof.
  intros Hj. unfold startPosition, TRACK_LENGTH, NUM_TRACKS.
  assert (H6 : (j / 5 <= 6)%nat).
  { unfold NUM_STUDENTS in Hj.
    apply Nat.lt_succ_r, Nat.Div0.div_lt_upper_bound. lia. }
  apply le_INR in H6. pose proof (pos_INR (j / 5)) as H0.
  replace (INR 6) with 6 in H6 by (simpl; lra). lra.
Qed.

Lemma initStudent_wellFormed (rand : nat -> Z) (j : nat) (s : Student) :
  (0 < RAND_MAX)%Z -> inRange RAND_MAX rand -> (j < NUM_STUDENTS)%nat ->
  wellFormed (initStudent RAND_MAX rand j s).
Proof.
  intros HM Hr Hj. unfold wellFormed, initStudent.
  cbn [speed trackNumber armPhase legPhase color name position
       vec3.x vec3.y vec3.z].
  assert (Hm : 0 < IZR RAND_MAX) by now apply IZR_lt.
  assert (Hq : forall k : nat, 0 <= IZR (rand k) / IZR RAND_MAX <= 1).
  { intros k. apply unit_fraction; [exact Hm|].
    destruct (Hr k) as [H0 H1]. split; now apply IZR_le. }
  assert (E2 : forall x : R, x / (IZR RAND_MAX / 2) = 2 * (x / IZR RAND_MAX))
    by (intros x; field; lra).
  assert (E7 : forall x : R,
             x / (IZR RAND_MAX / 0.7) = 0.7 * (x / IZR RAND_MAX))
    by (intros x; field; lra).
  rewrite E2, !E7.
  pose proof (Hq (5 * j)%nat). pose proof (Hq (5 * j + 1)%nat).
  pose proof (Hq (5 * j + 2)%nat). pose proof (Hq (5 * j + 3)%nat).
  pose proof (Hq (5 * j + 4)%nat).
  split; [lra|]. split; [apply Nat.mod_upper_bound; discriminate|].
  split; [lra|]. split; [reflexivity|].
  split; [lra|]. split; [lra|]. split; [lra|].
  split; [apply nth_In, Nat.mod_upper_bound; discriminate|].
  now apply startPosition_range.
Qed.

(** X16: [initializeStudents] indexes [students[0]] to [students[31]]
    without resizing the vector: it is defined exactly on vectors of at
    least [NUM_STUDENTS] students; then it keeps the length, leaves the
    students from index 32 on alone and puts the first 32 at the start,
    unfinished. *)
Theorem initializeStudents_needs_the_students
  (rand : nat -> Z) (l : list Student) :
  (initializeStudents RAND_MAX rand l = None <->
   (List.length l < NUM_STUDENTS)%nat) /\
  (forall l' : list Student,
      initializeStudents RAND_MAX rand l = Some l' ->
      List.length l' = List.length l /\
      (forall j : nat, (NUM_STUDENTS <= j)%nat ->
         nth_error l' j = nth_error l j) /\
      (forall j : nat, (j < NUM_STUDENTS)%nat ->
         exists s : Student, nth_error l' j = Some s /\ atStart j s)).
Proof.
  unfold initializeStudents. split; [split|].
  - intros HN.
    destruct (Nat.le_gt_cases NUM_STUDENTS (List.length l)) as [Hle|Hgt];
      [|exact Hgt].
    destruct (initLoop_spec RAND_MAX rand NUM_STUDENTS 0 l Hle)
      as [l' [Hrun _]]. congruence.
  - intros Hlt.
    destruct (initLoop RAND_MAX rand 0 NUM_STUDENTS l) as [l'|] eqn:E;
      [|reflexivity].
    destruct (initLoop_inv _ _ _ _ _ E) as [_ [H0 | Hle]];
      [discriminate | cbn in Hle; lia].
  - intros l' E.
    destruct (initLoop_inv _ _ _ _ _ E) as [Hlen [H0 | Hle]];
      [discriminate|].
    destruct (initLoop_spec RAND_MAX rand NUM_STUDENTS 0 l Hle)
      as [l2 [Hrun [_ [_ [Hmid Hhi]]]]].
    assert (l2 = l') by congruence. subst l2.
    split; [exact Hlen|]. split.
    + intros j Hj. apply Hhi. cbn. exact Hj.
    + intros j Hj. apply Hmid. cbn. lia.
Qed.

(** X17: with [RAND_MAX] positive and [rand()] within its range,
    [initializeStudents] gives each of the 32 students a speed between 2
    and 4, a track below [NUM_TRACKS], a colour with components between 0.3
    and 1, a name from its list and a place between 13 and 25 in front of
    the finish line at -25. *)
Theorem initializeStudents_well_formed
  (rand : nat -> Z) (l : list Student) :
  (0 < RAND_MAX)%Z -> inRange RAND_MAX rand ->
  List.length l = NUM_STUDENTS ->
  exists l' : list Student,
    initializeStudents RAND_MAX rand l = Some l' /\
    List.length l' = NUM_STUDENTS /\
    Forall (fun s => wellFormed s /\ finished s = false) l'.
Proof.
  intros HM Hr Hlen. unfold initializeStudents.
  destruct (initLoop_all
              (fun j s => wellFormed s /\ finished s = false)
              rand NUM_STUDENTS 0 l) as [l' [Hrun Hall]].
  - intros j s Hj. split; [|reflexivity].
    apply initStudent_wellFormed; try assumption. lia.
  - lia.
  - exists l'. split; [exact Hrun|].
    destruct (initLoop_inv _ _ _ _ _ Hrun) as [Hl' _].
    split; [congruence|].
    apply Forall_nth_error. intros j a Hj.
    assert (Hlt : (j < List.length l')%nat)
      by (apply nth_error_Some; congruence).
    destruct (Hall j ltac:(lia)) as [s [Hs HP]]. congruence.
Qed.

(** *** Frames *)

Lemma spaceKey_globals (i : Input) (st : State) :
  lastFrame (spaceKey i st) = lastFrame st /\
  raceFinished (spaceKey i st) = raceFinished st /\
  spacePressed (spaceKey i st) = KEY_SPACE i.
Proof.
  unfold spaceKey.
  destruct (KEY_SPACE i), (spacePressed st) eqn:E, (raceStarted st),
    (raceFinished st); cbn; auto.
Qed.

(** What [processInput] leaves behind when it returns. *)
Lemma processInput_globals (i : Input) (st st' : State) :
  processInput RAND_MAX i st = Some st' ->
  lastFrame st' = lastFrame st /\ deltaTime st' = deltaTime st /\
  rPressed st' = KEY_R i /\ spacePressed st' = KEY_SPACE i /\
  (resets i st = false ->
   students st' = students st /\ raceFinished st' = raceFinished st) /\
  (resets i st = true ->
   initializeStudents RAND_MAX (rand i) (students st) = Some (students st') /\
   raceStarted st' = false /\ raceFinished st' = false).
Proof.
  unfold processInput, rKey, resets.
  set (st1 := if KEY_ESCAPE i then _ else st).
  assert (H1 : students st1 = students st /\ rPressed st1 = rPressed st /\
               deltaTime st1 = deltaTime st /\ lastFrame st1 = lastFrame st /\
               raceFinished st1 = raceFinished st)
    by (subst st1; destruct (KEY_ESCAPE i); cbn; auto).
  destruct H1 as [Hs1 [Hr1 [Hd1 [Hl1 Hf1]]]].
  destruct (spaceKey_keeps i st1) as [Hs2 [Hr2 Hd2]].
  destruct (spaceKey_globals i st1) as [Hl2 [Hf2 Hp2]].
  destruct (KEY_R i) eqn:ER.
  - rewrite Hr2, Hr1. destruct (rPressed st) eqn:EP.
    + intros E. inversion E; subst st'. cbn [andb negb].
      repeat split; try congruence; discriminate.
    + unfold resetRace. cbn [students set_rPressed].
      destruct (initializeStudents RAND_MAX (rand i)
                  (students (spaceKey i st1))) as [l|] eqn:E0;
        [|discriminate].
      intros E. inversion E; subst st'.
      cbn [print lastFrame deltaTime rPressed spacePressed students
           raceFinished raceStarted set_rPressed andb negb].
      repeat split; try congruence; try discriminate.
  - intros E. inversion E; subst st'.
    cbn [set_rPressed lastFrame deltaTime rPressed spacePressed students
         raceFinished andb].
    repeat split; try congruence; discriminate.
Qed.

Lemma frame_inv (i : Input) (st st' : State) :
  frame RAND_MAX i st = Some st' ->
  lastFrame st' = glfwGetTime i /\
  rPressed st' = KEY_R i /\ spacePressed st' = KEY_SPACE i /\
  (resets i st = false ->
   students st'
   = map (stepStudent (glfwGetTime i - lastFrame st) (glfwGetTime i))
         (students st) /\
   raceFinished st' = raceFinished st) /\
  (resets i st = true ->
   exists l : list Student,
     initializeStudents RAND_MAX (rand i) (students st) = Some l /\
     students st'
     = map (stepStudent (glfwGetTime i - lastFrame st) (glfwGetTime i)) l).
Proof.
  unfold frame. cbv zeta.
  set (st0 := mkState _ _ _ _ _ _ _ _ _ _).
  destruct (processInput RAND_MAX i st0) as [st1|] eqn:E; [|discriminate].
  destruct (processInput_globals i st0 st1 E)
    as [Hl [Hd [Hr [Hp [Hno Hyes]]]]].
  intros E'. inversion E'; subst st'.
  cbn [lastFrame rPressed spacePressed students raceFinished].
  change (resets i st0) with (resets i st) in Hno, Hyes.
  rewrite Hl, Hd. cbn [lastFrame deltaTime st0].
  split; [reflexivity|]. split; [exact Hr|]. split; [exact Hp|]. split.
  - intros Hn. destruct (Hno Hn) as [Hs Hf]. rewrite Hs, Hf. auto.
  - intros Hy. destruct (Hyes Hy) as [Hs _]. eexists. split; [exact Hs|].
    reflexivity.
Qed.

Lemma stepStudent_flagged (dt t : R) (s : Student) :
  flagged s -> flagged (stepStudent dt t s).
Proof.
  unfold flagged, crossed, stepStudent. intros H.
  destruct (finished s) eqn:F; cbn [negb]; [now rewrite F|].
  destruct (Rleb (position s - speed s * dt) _) eqn:E;
    cbn [finished position]; rewrite E; reflexivity.
Qed.

(** *** The space bar *)

Lemma spaceKey_same (i j : Input) (a b : State) :
  sameButRace a b -> sameButRace (spaceKey i a) (spaceKey j b).
Proof.
  unfold sameButRace, spaceKey. intros (Hs & Hf & Hd & Hl & Hr & Hc).
  destruct (KEY_SPACE i), (spacePressed a), (raceStarted a),
    (raceFinished a); cbn;
    destruct (KEY_SPACE j), (spacePressed b), (raceStarted b),
      (raceFinished b); cbn; repeat split; congruence.
Qed.

Lemma rKey_same (i j : Input) (a b a' : State) :
  KEY_R i = KEY_R j -> rand i = rand j ->
  sameButRace a b ->
  rKey RAND_MAX i a = Some a' ->
  exists b' : State, rKey RAND_MAX j b = Some b' /\ sameButRace a' b'.
Proof.
  unfold sameButRace, rKey. intros HR Hrand (Hs & Hf & Hd & Hl & Hr & Hc).
  rewrite <- HR, <- Hr, <- Hrand. destruct (KEY_R i).
  - destruct (rPressed a) eqn:EP.
    + intros E. inversion E; subst a'. eexists. split; [reflexivity|].
      repeat split; congruence.
    + unfold resetRace. cbn [students set_rPressed]. rewrite <- Hs.
      destruct (initializeStudents RAND_MAX (rand i) (students a));
        [|discriminate].
      intros E. inversion E; subst a'. eexists. split; [reflexivity|].
      cbn. repeat split; congruence.
  - intros E. inversion E; subst a'. eexists. split; [reflexivity|].
    cbn. repeat split; congruence.
Qed.

Lemma frame_same (i j : Input) (a b a' : State) :
  sameButSpace i j -> sameButRace a b ->
  frame RAND_MAX i a = Some a' ->
  exists b' : State, frame RAND_MAX j b = Some b' /\ sameButRace a' b'.
Proof.
  intros (HE & HR & HT & Hrand) (Hs & Hf & Hd & Hl & Hr & Hc).
  unfold frame, processInput. cbv zeta. rewrite <- HE, <- HT.
  set (a0 := if KEY_ESCAPE i then _ else _).
  set (b0 := if KEY_ESCAPE i then _ else _).
  assert (H0 : sameButRace a0 b0).
  { subst a0 b0. unfold sameButRace.
    destruct (KEY_ESCAPE i); cbn; rewrite Hl; repeat split; assumption. }
  destruct (rKey RAND_MAX i (spaceKey i a0)) as [a1|] eqn:Ea; [|discriminate].
  destruct (rKey_same i j (spaceKey i a0) (spaceKey j b0) a1 HR Hrand
              (spaceKey_same i j a0 b0 H0) Ea)
    as [b1 [Eb (Hs1 & Hf1 & Hd1 & Hl1 & Hr1 & Hc1)]].
  rewrite Eb. intros E. inversion E; subst a'.
  eexists. split; [reflexivity|]. unfold sameButRace. cbn.
  rewrite Hs1, Hd1. repeat split; assumption.
Qed.

(** X18: the space bar does not hold the runners.  Two runs of the render
    loop that read the same clock and the same R and escape keys, started
    from states that agree on everything but what the space bar governs
    ([raceStarted], [raceStartTime], the static [spacePressed] and the
    console), end in states that agree in the same way: the students are
    where they are whatever the space bar did, and so is [raceFinished]. *)
Theorem runners_keep_running
  (inputs1 inputs2 : list Input) (st1 st2 st1' : State) :
  Forall2 sameButSpace inputs1 inputs2 ->
  sameButRace st1 st2 ->
  frames RAND_MAX inputs1 st1 = Some st1' ->
  exists st2' : State,
    frames RAND_MAX inputs2 st2 = Some st2' /\ sameButRace st1' st2'.
Proof.
  intros Hin. revert st1 st2.
  induction Hin as [|i j rest1 rest2 Hij Hrest IH]; intros st1 st2 Hst Hrun;
    cbn [frames] in *.
  - inversion Hrun; subst st1'. exists st2. auto.
  - pose proof Hst as (_ & _ & _ & _ & _ & Hc).
    rewrite <- Hc. destruct (shouldClose st1).
    + inversion Hrun; subst st1'. exists st2. auto.
    + destruct (frame RAND_MAX i st1) as [a1|] eqn:Ea; [|discriminate].
      destruct (frame_same i j st1 st2 a1 Hij Hst Ea) as [b1 [Eb H1]].
      rewrite Eb. apply (IH a1 b1 H1 Hrun).
Qed.

Lemma atStart_flagged (j : nat) (s : Student) :
  (j < NUM_STUDENTS)%nat -> atStart j s -> flagged s.
Proof.
  intros Hj [Hp [Hf _]]. unfold flagged, crossed. rewrite Hf, Hp.
  symmetry. apply Rleb_false.
  pose proof (startPosition_range j Hj). unfold TRACK_LENGTH in *. lra.
Qed.

Lemma initializeStudents_flagged (rand : nat -> Z) (l l' : list Student) :
  List.length l = NUM_STUDENTS ->
  initializeStudents RAND_MAX rand l = Some l' ->
  List.length l' = NUM_STUDENTS /\ Forall flagged l'.
Proof.
  intros Hlen E. unfold initializeStudents in E.
  destruct (initLoop_inv _ _ _ _ _ E) as [Hl' _].
  destruct (initLoop_spec RAND_MAX rand NUM_STUDENTS 0 l ltac:(lia))
    as [l2 [Hrun [_ [_ [Hmid _]]]]].
  assert (l2 = l') by congruence. subst l2.
  split; [congruence|]. apply Forall_nth_error. intros j a Hj.
  assert (Hlt : (j < List.length l')%nat)
    by (apply nth_error_Some; congruence).
  destruct (Hmid j ltac:(lia)) as [s [Hs Hstart]].
  assert (a = s) by congruence. subst a.
  apply (atStart_flagged j); [lia | exact Hstart].
Qed.

Lemma Forall_stepped (dt t : R) (l : list Student) :
  Forall flagged l -> Forall flagged (map (stepStudent dt t) l).
Proof.
  intros H. apply Forall_map. revert H. apply Forall_impl.
  intros s. apply stepStudent_flagged.
Qed.

Lemma frame_flagged (i : Input) (st : State) :
  List.length (students st) = NUM_STUDENTS ->
  Forall flagged (students st) ->
  exists st' : State,
    frame RAND_MAX i st = Some st' /\
    List.length (students st') = NUM_STUDENTS /\
    Forall flagged (students st').
Proof.
  intros Hlen Hall.
  destruct (resets i st) eqn:Hr.
  - assert (Hsome : exists st', frame RAND_MAX i st = Some st').
    { unfold frame. cbv zeta. set (st0 := mkState _ _ _ _ _ _ _ _ _ _).
      unfold processInput, rKey. unfold resets in Hr.
      apply andb_true_iff in Hr as [HR HP]. apply negb_true_iff in HP.
      rewrite HR. set (st1 := if KEY_ESCAPE i then _ else st0).
      destruct (spaceKey_keeps i st1) as [Hs2 [Hr2 _]].
      assert (H1 : students st1 = students st /\ rPressed st1 = rPressed st)
        by (subst st1; destruct (KEY_ESCAPE i); cbn; auto).
      destruct H1 as [Hs1 Hr1]. rewrite Hr2, Hr1, HP.
      destruct (resetRace_spec RAND_MAX (rand i)
                  (set_rPressed true (spaceKey i st1)))
        as [st2 [E2 _]].
      { cbn [students set_rPressed]. congruence. }
      rewrite E2. eexists. reflexivity. }
    destruct Hsome as [st' E]. exists st'. split; [exact E|].
    destruct (frame_inv i st st' E) as [_ [_ [_ [_ Hyes]]]].
    destruct (Hyes Hr) as [l [Hinit Hs]].
    destruct (initializeStudents_flagged _ _ _ Hlen Hinit) as [Hl Hf].
    rewrite Hs, length_map. split; [exact Hl|]. now apply Forall_stepped.
  - destruct (frame_no_reset RAND_MAX i st Hr) as [st' [E [_ Hs]]].
    exists st'. split; [exact E|]. rewrite Hs, length_map.
    split; [exact Hlen|]. now apply Forall_stepped.
Qed.

Lemma frames_flagged (inputs : list Input) (st : State) :
  List.length (students st) = NUM_STUDENTS ->
  Forall flagged (students st) ->
  exists st' : State,
    frames RAND_MAX inputs st = Some st' /\
    List.length (students st') = NUM_STUDENTS /\
    Forall flagged (students st').
Proof.
  revert st. induction inputs as [|i rest IH]; intros st Hlen Hall;
    cbn [frames].
  - exists st. auto.
  - destruct (shouldClose st); [exists st; auto|].
    destruct (frame_flagged i st Hlen Hall) as [st1 [E [Hl1 Hf1]]].
    rewrite E. now apply IH.
Qed.

(** X19: on the 32 students of the race the render loop always returns,
    resets included, and it keeps the [finished] flags in step with the
    places: a student is marked finished exactly when its position is at or
    beyond the finish line at [-TRACK_LENGTH / 2]. *)
Theorem finish_flag_tells_place (inputs : list Input) (st : State) :
  List.length (students st) = NUM_STUDENTS ->
  Forall flagged (students st) ->
  exists st' : State,
    frames RAND_MAX inputs st = Some st' /\
    List.length (students st') = NUM_STUDENTS /\
    Forall (fun s => finished s = true <->
                     position s <= - TRACK_LENGTH / 2) (students st').
Proof.
  intros Hlen Hall.
  destruct (frames_flagged inputs st Hlen Hall) as [st' [E [Hl Hf]]].
  exists st'. split; [exact E|]. split; [exact Hl|].
  revert Hf. apply Forall_impl. intros s Hs.
  unfold flagged, crossed in Hs. rewrite Hs. apply Rleb_true.
Qed.

Lemma isRaceComplete_spec (l : list Student) :
  isRaceComplete l = true <-> Forall (fun s => finished s = true) l.
Proof.
  induction l as [|s rest IH]; cbn [isRaceComplete].
  - split; [constructor | reflexivity].
  - destruct (finished s) eqn:F; cbn [negb].
    + rewrite IH. split.
      * intros H. now constructor.
      * intros H. now inversion H.
    + split; [discriminate|]. intros H. inversion H; subst. congruence.
Qed.

(** X20: on the 32 students of the race, after any run of the render
    loop, resets included, [isRaceComplete] tells where the students are: it
    holds exactly when every student is at or beyond the finish line at
    [-TRACK_LENGTH / 2]. *)
Theorem race_complete_tells_places (inputs : list Input) (st : State) :
  List.length (students st) = NUM_STUDENTS ->
  Forall flagged (students st) ->
  exists st' : State,
    frames RAND_MAX inputs st = Some st' /\
    (isRaceComplete (students st') = true <-> allCrossed (students st')).
Proof.
  intros Hlen Hall.
  destruct (frames_flagged inputs st Hlen Hall) as [st' [E [_ Hf]]].
  exists st'. split; [exact E|].
  rewrite isRaceComplete_spec. unfold allCrossed.
  rewrite !Forall_forall. rewrite Forall_forall in Hf.
  split; intros H s Hs; specialize (H s Hs); specialize (Hf s Hs);
    unfold flagged, crossed in Hf.
  - rewrite H in Hf. symmetry in Hf. now apply Rleb_true in Hf.
  - rewrite Hf. now apply Rleb_true.
Qed.

End RaceRuns.

Section RaceRunsExamples.
Import Race RaceEnd RaceExamples RaceRunExamples.

Lemma initializeStudents_needs_the_students_witness :
  (List.length (@nil Student) < NUM_STUDENTS)%nat /\
  initializeStudents 32767 zeros [] = None.
Proof.
  assert (H : (List.length (@nil Student) < NUM_STUDENTS)%nat)
    by (unfold NUM_STUDENTS; cbn; lia).
  split; [exact H|].
  exact (proj2 (proj1 (initializeStudents_needs_the_students 32767 zeros []))
               H).
Defined.

Lemma zeros_inRange : inRange 32767 zeros.
Proof. intros k. unfold zeros. lia. Qed.

Lemma initializeStudents_well_formed_witness :
  exists l' : list Student,
    initializeStudents 32767 zeros freshStudents = Some l' /\
    List.length l' = NUM_STUDENTS /\
    Forall (fun s => wellFormed s /\ finished s = false) l'.
Proof.
  exact (initializeStudents_well_formed 32767 zeros freshStudents
           eq_refl zeros_inRange eq_refl).
Defined.

Lemma lineUp_init :
  initializeStudents 32767 zeros freshStudents = Some lineUp.
Proof. reflexivity. Qed.

Lemma lineUp_flagged :
  List.length (students atLineUp) = NUM_STUDENTS /\
  Forall flagged (students atLineUp).
Proof.
  exact (initializeStudents_flagged 32767 zeros freshStudents lineUp
           eq_refl lineUp_init).
Qed.

Lemma threeFrames_quietFrames : Forall2 sameButSpace threeFrames quietFrames.
Proof. repeat constructor. Qed.

Lemma runners_keep_running_witness :
  exists st1' st2' : State,
    frames 32767 threeFrames midRace = Some st1' /\
    frames 32767 quietFrames midRace = Some st2' /\
    students st1' = students st2'.
Proof.
  destruct (frames_no_reset 32767 threeFrames midRace eq_refl)
    as [st1' [Hrun _]].
  destruct (runners_keep_running 32767 threeFrames quietFrames midRace midRace
              st1' threeFrames_quietFrames
              (conj eq_refl (conj eq_refl (conj eq_refl (conj eq_refl
                 (conj eq_refl eq_refl))))) Hrun)
    as [st2' [Hrun2 Hsame]].
  exists st1', st2'. split; [exact Hrun|]. split; [exact Hrun2|].
  exact (proj1 Hsame).
Defined.

Lemma finish_flag_tells_place_witness :
  exists st' : State,
    frames 32767 resetFrames atLineUp = Some st' /\
    List.length (students st') = NUM_STUDENTS /\
    Forall (fun s => finished s = true <->
                     position s <= - TRACK_LENGTH / 2) (students st').
Proof.
  exact (finish_flag_tells_place 32767 resetFrames atLineUp
           (proj1 lineUp_flagged) (proj2 lineUp_flagged)).
Defined.

Lemma race_complete_tells_places_witness :
  exists st' : State,
    frames 32767 oneLongFrame atLineUp = Some st' /\
    (isRaceComplete (students st') = true <-> allCrossed (students st')).
Proof.
  exact (race_complete_tells_places 32767 oneLongFrame atLineUp
           (proj1 lineUp_flagged) (proj2 lineUp_flagged)).
Defined.

End RaceRunsExamples.

(** ** The fonts of the race *)

Section FontLoading.
Import Fonts.

Lemma find_insert (c k : nat) (ch : Character) (st : State) :
  CharMap.find c (Characters (insert k ch st))
  = if Nat.eqb k c
    then match CharMap.find c (Characters st) with
         | Some old => Some old
         | None => Some ch
         end
    else CharMap.find c (Characters st).
Proof.
  unfold insert. rewrite CharMapFacts.mem_find_b.
  destruct (Nat.eqb k c) eqn:E.
  - apply Nat.eqb_eq in E. subst k.
    destruct (CharMap.find c (Characters st)) eqn:F; cbn [Characters].
    + exact F.
    + rewrite CharMapFacts.add_eq_o; reflexivity.
  - apply Nat.eqb_neq in E.
    destruct (CharMap.find k (Characters st)); cbn [Characters].
    + reflexivity.
    + rewrite CharMapFacts.add_neq_o; [reflexivity | exact E].
Qed.

Lemma find_loadGlyphs (ft : FreeType) (face : string) (count c0 : nat)
      (st : State) (c : nat) :
  CharMap.find c (Characters (loadGlyphs ft face c0 count st))
  = if (c0 <=? c)%nat && (c <? c0 + count)%nat && FT_Load_Char ft face c
    then match CharMap.find c (Characters st) with
         | Some old => Some old
         | None => Some (glyph ft face c)
         end
    else CharMap.find c (Characters st).
Proof.
  revert c0 st. induction count as [|count IH]; intros c0 st;
    cbn [loadGlyphs].
  - destruct (Nat.leb_spec c0 c), (Nat.ltb_spec c (c0 + 0)); try reflexivity.
    lia.
  - destruct (FT_Load_Char ft face c0) eqn:L; cbn [negb]; rewrite IH.
    + rewrite find_insert.
      destruct (Nat.eqb c0 c) eqn:E.
      * apply Nat.eqb_eq in E. subst c0.
        replace (S c <=? c)%nat with false
          by (symmetry; apply Nat.leb_gt; lia).
        replace (c <=? c)%nat with true by (symmetry; apply Nat.leb_le; lia).
        replace (c <? c + S count)%nat with true
          by (symmetry; apply Nat.ltb_lt; lia).
        rewrite L. reflexivity.
      * apply Nat.eqb_neq in E.
        replace ((c0 <=? c)%nat && (c <? c0 + S count)%nat)
          with ((S c0 <=? c)%nat && (c <? S c0 + count)%nat);
          [reflexivity|].
        destruct (Nat.leb_spec (S c0) c), (Nat.leb_spec c0 c),
          (Nat.ltb_spec c (S c0 + count)), (Nat.ltb_spec c (c0 + S count));
          try reflexivity; lia.
    + cbn [print Characters].
      destruct (Nat.eqb c0 c) eqn:E.
      * apply Nat.eqb_eq in E. subst c0. rewrite L, !andb_false_r.
        reflexivity.
      * apply Nat.eqb_neq in E.
        replace ((c0 <=? c)%nat && (c <? c0 + S count)%nat)
          with ((S c0 <=? c)%nat && (c <? S c0 + count)%nat);
          [reflexivity|].
        destruct (Nat.leb_spec (S c0) c), (Nat.leb_spec c0 c),
          (Nat.ltb_spec c (S c0 + count)), (Nat.ltb_spec c (c0 + S count));
          try reflexivity; lia.
Qed.

Lemma fontLoaded_loadGlyphs (ft : FreeType) (face : string) (count c0 : nat)
      (st : State) :
  fontLoaded (loadGlyphs ft face c0 count st) = fontLoaded st.
Proof.
  revert c0 st. induction count as [|count IH]; intros c0 st;
    cbn [loadGlyphs]; [reflexivity|].
  destruct (FT_Load_Char ft face c0); cbn [negb]; rewrite IH;
    [|reflexivity].
  unfold insert. now destruct (CharMap.mem _ _).
Qed.

Lemma console_loadGlyphs (ft : FreeType) (face : string) (count c0 : nat)
      (st : State) :
  console (loadGlyphs ft face c0 count st)
  = console st
    ++ map glyphError
         (filter (fun c => negb (FT_Load_Char ft face c)) (seq c0 count)).
Proof.
  revert c0 st. induction count as [|count IH]; intros c0 st;
    cbn [loadGlyphs seq filter].
  - cbn [map]. now rewrite app_nil_r.
  - destruct (FT_Load_Char ft face c0); cbn [negb]; rewrite IH.
    + unfold insert. now destruct (CharMap.mem _ _).
    + cbn [print console map]. now rewrite <- app_assoc.
Qed.

Lemma openFace_first (ft : FreeType) (paths : list string) :
  match openFace ft paths with
  | Some face =>
      exists before after : list string,
        paths = before ++ face :: after /\
        Forall (fun path => FT_New_Face ft path = false) before /\
        FT_New_Face ft face = true
  | None => Forall (fun path => FT_New_Face ft path = false) paths
  end.
Proof.
  induction paths as [|path rest IH]; cbn [openFace].
  - constructor.
  - destruct (FT_New_Face ft path) eqn:E.
    + exists [], rest. repeat split; [constructor | exact E].
    + destruct (openFace ft rest) as [face|].
      * destruct IH as [before [after [Hp [Hb Hf]]]].
        exists (path :: before), after. rewrite Hp.
        repeat split; [now constructor | exact Hf].
      * now constructor.
Qed.

(** X22: after [loadFonts], called as [main] calls it, [Characters] maps
    exactly the characters below 128 whose glyph loads from the face of the
    first font path that opens, each to that glyph; it is empty when
    FreeType does not come up or no path opens.  So [renderText] draws if
    and only if at least one glyph was loaded.  The global [fontLoaded] is
    left as it was: the function sets a local variable of that name. *)
Theorem loadFonts_characters (ft : FreeType) :
  (forall c : nat,
      CharMap.find c (Characters (loadFonts ft state0))
      = match openFace ft fontPaths with
        | Some face =>
            if FT_Init_FreeType ft && (c <? 128)%nat && FT_Load_Char ft face c
            then Some (glyph ft face c) else None
        | None => None
        end) /\
  (rendersText (loadFonts ft state0) = true <->
   exists c : nat,
     CharMap.find c (Characters (loadFonts ft state0)) <> None) /\
  (forall st : State, fontLoaded (loadFonts ft st) = fontLoaded st).
Proof.
  split; [|split].
  - intros c. unfold loadFonts.
    destruct (FT_Init_FreeType ft); cbn [negb andb].
    + destruct (openFace ft fontPaths) as [face|].
      * rewrite find_loadGlyphs. cbn [print Characters state0].
        rewrite CharMapFacts.empty_o. cbn [Nat.leb Nat.add andb].
        reflexivity.
      * cbn [print Characters state0]. apply CharMapFacts.empty_o.
    + cbn [print Characters state0]. rewrite CharMapFacts.empty_o.
      now destruct (openFace ft fontPaths).
  - unfold rendersText. set (m := Characters (loadFonts ft state0)).
    rewrite negb_true_iff. split.
    + intros He.
      destruct (CharMap.elements m) as [|[c ch] rest] eqn:El.
      * exfalso. unfold CharMap.is_empty, CharMap.Raw.is_empty in He.
        unfold CharMap.elements, CharMap.Raw.elements in El.
        rewrite El in He. discriminate.
      * exists c. intros Hn.
        assert (Hm : CharMap.MapsTo c ch m).
        { apply CharMap.elements_2. rewrite El. left. split; reflexivity. }
        apply CharMap.find_1 in Hm. congruence.
    + intros [c Hc]. destruct (CharMap.is_empty m) eqn:He; [|reflexivity].
      apply CharMap.is_empty_2 in He.
      destruct (CharMap.find c m) as [ch|] eqn:F; [|congruence].
      apply CharMap.find_2 in F. exfalso. exact (He c ch F).
  - intros st. unfold loadFonts.
    destruct (FT_Init_FreeType ft); cbn [negb]; [|reflexivity].
    destruct (openFace ft fontPaths); [|reflexivity].
    now rewrite fontLoaded_loadGlyphs.
Qed.

(** X23: what [loadFonts] prints: one error line when FreeType does not
    come up; two when none of the five paths opens; otherwise the line
    naming the path that opened, which is the first of the list that does,
    followed by one line for each character below 128 whose glyph does not
    load, in ascending order. *)
Theorem loadFonts_console (ft : FreeType) (st : State) :
  console (loadFonts ft st)
  = console st
    ++ (if negb (FT_Init_FreeType ft)
        then ["ERROR::FREETYPE: Could not init FreeType Library"]
        else match openFace ft fontPaths with
             | None =>
                 [ "ERROR::FREETYPE: Failed to load font from any location";
                   "Please place arial.ttf in the fonts/ directory or in the current directory" ]
             | Some face =>
                 ("Successfully loaded font from: " ++ face)%string
                 :: map glyphError (failedGlyphs ft face)
             end) /\
  match openFace ft fontPaths with
  | Some face =>
      exists before after : list string,
        fontPaths = before ++ face :: after /\
        Forall (fun path => FT_New_Face ft path = false) before /\
        FT_New_Face ft face = true
  | None => Forall (fun path => FT_New_Face ft path = false) fontPaths
  end.
Proof.
  split; [|apply openFace_first].
  unfold loadFonts. destruct (FT_Init_FreeType ft); cbn [negb].
  - destruct (openFace ft fontPaths) as [face|].
    + unfold failedGlyphs. rewrite console_loadGlyphs.
      set (errors := map glyphError _). clearbody errors.
      cbn [print console]. rewrite <- app_assoc. reflexivity.
    + cbn [print console]. rewrite <- app_assoc. reflexivity.
  - reflexivity.
Qed.
End FontLoading.

Section FontLoadingExamples.
Import Fonts FontExamples.

Lemma loadFonts_characters_witness :
  CharMap.find 65%nat (Characters (loadFonts arialNextDoor state0)) <> None /\
  rendersText (loadFonts arialNextDoor state0) = true.
Proof.
  assert (H : CharMap.find 65%nat (Characters (loadFonts arialNextDoor state0))
              <> None).
  { rewrite (proj1 (loadFonts_characters arialNextDoor) 65%nat).
    discriminate. }
  split; [exact H|].
  apply (proj2 (proj1 (proj2 (loadFonts_characters arialNextDoor)))).
  exists 65%nat. exact H.
Defined.
End FontLoadingExamples.

(** ** Failures while a [main] sets up *)

Section MainFailures.
Import Mains MainNotions.







(** The set-up of the game here is the one [Breakout.setup] runs through,
    and [Breakout.main] returns what it returns. *)
Lemma setup_game2D_agrees (m : Machine) (startRand : Z) (startClock : R) :
  match Breakout.setup (gameStartup m startRand startClock) with
  | Breakout.Return out status => setup game2D m = Return out status
  | Breakout.Enter sp l => setup game2D m = Continue (Breakout.console l) [sp]
  end.
Proof.
  unfold Breakout.setup, gameStartup, setup, setup_game2D, Breakout.shaderErrors,
    shaderErrors.
  cbn [Breakout.glfwInit Breakout.glfwCreateWindow Breakout.gladLoadGLLoader
       Breakout.vertexCompiled Breakout.vertexInfoLog
       Breakout.fragmentCompiled Breakout.fragmentInfoLog
       Breakout.programLinked Breakout.programInfoLog
       Breakout.glCreateProgram].
  destruct (glfwInit m), (glfwCreateWindow m), (gladLoadGLLoader m);
    reflexivity.
Qed.

Lemma main_game2D_returns (m : Machine) (startRand : Z) (startClock : R)
      (frames : list Breakout.Frame) (out : list string) (status : Z) :
  setup game2D m = Return out status ->
  Breakout.main (gameStartup m startRand startClock) frames
  = Some (out, status).
Proof.
  intros H. pose proof (setup_game2D_agrees m startRand startClock) as A.
  unfold Breakout.main.
  destruct (Breakout.setup (gameStartup m startRand startClock)).
  - rewrite H in A. now injection A as -> ->.
  - rewrite H in A. discriminate A.
Qed.

(** The set-up of the particle systems here is the one [ParticleMain.main]
    runs through. *)
Lemma setup_part_000_agrees
      (m : Machine)
      (rnd : ParticleScene.ParticleSystemType -> nat -> Particles.Draws) :
  match setup part_000 m with
  | Return out status =>
      forall frames,
        ParticleMain.main (particleStartup m rnd) frames = (out, status)
  | Continue out _ =>
      ParticleMain.main (particleStartup m rnd) [] = (out, 0%Z)
  end.
Proof.
  unfold setup, setup_part_000, ParticleMain.main, particleStartup,
    ParticleMain.shaderErrors, shaderErrors.
  cbn [ParticleMain.glfwCreateWindow ParticleMain.gladLoadGLLoader
       ParticleMain.vertexCompiled ParticleMain.vertexInfoLog
       ParticleMain.fragmentCompiled ParticleMain.fragmentInfoLog
       ParticleMain.programLinked ParticleMain.programInfoLog
       ParticleMain.rnd].
  destruct (glfwCreateWindow m); cbn [negb]; [|reflexivity].
  destruct (gladLoadGLLoader m); cbn [negb]; reflexivity.
Qed.


End MainFailures.

Section MainFailuresExamples.
Import Mains MainNotions MainExamples.







(** Where nothing but the window, the GL context and the shaders is asked
    for, nothing else is handled: the particle systems. *)
Lemma part_000_handles_only_listed (m : Machine) :
  handlesOnlyListed part_000 m.
Proof. reflexivity. Qed.

(** The light shader of the lit 3D scene is built without a check: when it
    does not compile, nothing is printed.  The text shader of the race is
    built with the checks. *)
Lemma light_shader_unchecked :
  fragmentCompiled (build badSecondShader 1) = false /\
  setup run_CEStudents badSecondShader = Continue [] [3; 4]%N /\
  setup compile_scene3D badSecondShader
  = Continue [ fragmentError (badBuild 4); linkError (badBuild 4);
               "Successfully loaded font from: fonts/arial.ttf" ] [3; 4]%N.
Proof. repeat split; reflexivity. Qed.

End MainFailuresExamples.
